(** * Region post-processing of [scripts/sam_split_png.py]

    A shallow embedding of the post-processing pipeline of
    [ImprovedSAMDrawingSplitter] and the properties its specification
    states about it.

    Modelling conventions.
    - A bounding box is the Python list [[x, y, w, h]] of integers, here a
      4-tuple of [Z].
    - A mask is a Python dict.  Its keys become the fields of the record
      [mask]; a key that the code only ever reads with
      [mask.get(key, default)] is a field holding that default when the
      key is absent.
    - Python floats are binary64 numbers.  The scores, ratios and pixel
      margins are modelled as exact rationals [Q]: a decimal literal
      denotes the decimal it spells, [/] is exact division and raises
      [ZeroDivisionError] (here [None]) on a zero divisor, [int(_)]
      truncates towards zero.  Two computations are modelled in
      binary64 itself, with the operations of [SpecFloat], because
      rounding changes their outcome.  In the zone tests [y > h * 0.7]
      and [x > w * 0.7] the literal [0.7] lies below 7/10 and the
      rounded product [h * 0.7] lies below [0.7 h] for some heights
      (720, 700, 90), so that the test decides differently from the
      exact one on the line [y = 0.7 h].  In [preprocess_image] the
      product [h * (2048 / M)] can fall below an integer quotient, so
      that a side comes out one pixel short (2047 for a side of 2215).
      Image sides are array dimensions: the conversion of a side to a
      float is exact.
    - [sorted(_, key=_, reverse=True)] is a stable sort; it is modelled by
      a stable insertion sort.
    - [sklearn.cluster.DBSCAN] is a library outside the repository: its
      labelling is a parameter of the functions that call it. *)

From Stdlib Require Import ZArith QArith Lia Lqa Bool List Sorted Permutation.
From Stdlib Require Import Floats.SpecFloat.
From stdpp Require Import list.
Import ListNotations.
Open Scope Z_scope.

(** ** Python numbers *)

Definition Qltb (a b : Q) : bool := negb (Qle_bool b a).

(** [int(q)]: truncation towards zero. *)
Definition py_int (q : Q) : Z := Z.quot (Qnum q) (Z.pos (Qden q)).

(** [a / b] on two integers: true division. *)
Definition py_truediv (a b : Z) : option Q :=
  if b =? 0 then None else Some (inject_Z a / inject_Z b)%Q.

(** ** binary64

    The arithmetic of Python's [float], as [SpecFloat] specifies it for
    53 bits of precision and exponents up to 1024. *)

(** [float(z)], the conversion the code applies to an integer operand
    of [*]: the nearest double, ties to even. *)
Definition float_of_int (z : Z) : spec_float :=
  binary_normalize 53 1024 z 0 false.

(** [a * b] and [a / b] on two floats. *)
Definition float_mul : spec_float -> spec_float -> spec_float := SFmul 53 1024.
Definition float_div : spec_float -> spec_float -> spec_float := SFdiv 53 1024.

(** The literal [0.7]: the double [0x3FE6666666666666], which is
    [6305039478318694 * 2^-53 = 0.6999999999999999556]. *)
Definition float_0_7 : spec_float := S754_finite false 6305039478318694 (-53).

(** [y > f] for an integer [y] and a float [f]: Python compares the two
    numbers exactly. *)
Definition int_gt_float (y : Z) (f : spec_float) : bool :=
  match f with
  | S754_zero _ => 0 <? y
  | S754_infinity s => s
  | S754_nan => false
  | S754_finite s m e =>
      let v := if s then Z.neg m else Z.pos m in
      if 0 <=? e then v * 2 ^ e <? y else v <? y * 2 ^ (- e)
  end.

(** [y > h * 0.7], the zone test of the filter and of the text refiner. *)
Definition above_0_7 (h y : Z) : bool :=
  int_gt_float y (float_mul (float_of_int h) float_0_7).

(** [np.pi], the double nearest to pi. *)
Definition np_pi : Q := (884279719003555 # 281474976710656)%Q.

(** ** Data model *)

Definition box : Type := Z * Z * Z * Z.

Inductive info_tag : Type :=
| bottom_info | right_info | merged_region | protected_region.

Record mask : Type := Mask {
  bbox : box;
  area : Z;
  stability_score : Q;
  predicted_iou : Q;
  is_info_region : bool;
  info_type : list info_tag;
  is_merged : bool;
  original_count : option Z;
  is_protected : bool;
  is_bottom_protected : bool;
  is_protected_text : bool;
  priority_boost : option Q;
  text_optimized : bool
}.

(** The record produced by the segmentation oracle: no flag is set. *)
Definition oracle_mask (b : box) (a : Z) (stability iou : Q) : mask :=
  Mask b a stability iou false [] false None false false false None false.

Definition tag_eqb (s t : info_tag) : bool :=
  match s, t with
  | bottom_info, bottom_info | right_info, right_info
  | merged_region, merged_region | protected_region, protected_region => true
  | _, _ => false
  end.

(** [tag in mask.get('info_type', [])] *)
Definition has_tag (t : info_tag) (m : mask) : bool :=
  existsb (tag_eqb t) (info_type m).

(** Dict equality [m1 == m2], the test used by [list.remove]. *)
Definition box_eqb (a b : box) : bool :=
  let '(x1, y1, w1, h1) := a in
  let '(x2, y2, w2, h2) := b in
  (x1 =? x2) && (y1 =? y2) && (w1 =? w2) && (h1 =? h2).

Fixpoint tags_eqb (l1 l2 : list info_tag) : bool :=
  match l1, l2 with
  | [], [] => true
  | s :: l1', t :: l2' => tag_eqb s t && tags_eqb l1' l2'
  | _, _ => false
  end.

Definition opt_eqb {A} (eqb : A -> A -> bool) (a b : option A) : bool :=
  match a, b with
  | None, None => true
  | Some x, Some y => eqb x y
  | _, _ => false
  end.

Definition mask_eqb (m1 m2 : mask) : bool :=
  box_eqb (bbox m1) (bbox m2)
  && (area m1 =? area m2)
  && Qeq_bool (stability_score m1) (stability_score m2)
  && Qeq_bool (predicted_iou m1) (predicted_iou m2)
  && Bool.eqb (is_info_region m1) (is_info_region m2)
  && tags_eqb (info_type m1) (info_type m2)
  && Bool.eqb (is_merged m1) (is_merged m2)
  && opt_eqb Z.eqb (original_count m1) (original_count m2)
  && Bool.eqb (is_protected m1) (is_protected m2)
  && Bool.eqb (is_bottom_protected m1) (is_bottom_protected m2)
  && Bool.eqb (is_protected_text m1) (is_protected_text m2)
  && opt_eqb Qeq_bool (priority_boost m1) (priority_boost m2)
  && Bool.eqb (text_optimized m1) (text_optimized m2).

(** [l.remove(x)]: drops the first element equal to [x]. *)
Fixpoint list_remove (x : mask) (l : list mask) : list mask :=
  match l with
  | [] => []
  | y :: l' => if mask_eqb y x then l' else y :: list_remove x l'
  end.

(** The zone flags of the specification, read off the dict keys. *)
Inductive zone_flag : Type :=
| bottomInfo | rightInfo | mergedRegion | protectedRegion
| bottomProtected | textOptimized.

Definition has_flag (f : zone_flag) (m : mask) : bool :=
  match f with
  | bottomInfo => has_tag bottom_info m
  | rightInfo => has_tag right_info m
  | mergedRegion => is_merged m || has_tag merged_region m
  | protectedRegion => is_protected m || has_tag protected_region m
  | bottomProtected => is_bottom_protected m
  | textOptimized => text_optimized m
  end.

Definition flags_kept (m m' : mask) : Prop :=
  forall f, has_flag f m = true -> has_flag f m' = true.

Definition box_x (b : box) : Z := let '(x, y, w, h) := b in x.
Definition box_y (b : box) : Z := let '(x, y, w, h) := b in y.
Definition box_right (b : box) : Z := let '(x, y, w, h) := b in x + w.
Definition box_bottom (b : box) : Z := let '(x, y, w, h) := b in y + h.

(** Box [a] covers box [b]. *)
Definition covers (a b : box) : Prop :=
  box_x a <= box_x b /\ box_y a <= box_y b
  /\ box_right b <= box_right a /\ box_bottom b <= box_bottom a.

Definition box_area (b : box) : Z := let '(x, y, w, h) := b in w * h.

(** The region is not marked as the protected region. *)
Definition not_protected (m : mask) : Prop :=
  is_protected m = false /\ has_tag protected_region m = false.

(** ** GeometryOps *)

Definition calculate_overlap (bbox1 bbox2 : box) : Q :=
  let '(x1, y1, w1, h1) := bbox1 in
  let '(x2, y2, w2, h2) := bbox2 in
  let x_left := Z.max x1 x2 in
  let y_top := Z.max y1 y2 in
  let x_right := Z.min (x1 + w1) (x2 + w2) in
  let y_bottom := Z.min (y1 + h1) (y2 + h2) in
  if (x_right <? x_left) || (y_bottom <? y_top) then 0%Q
  else
    let intersection := (x_right - x_left) * (y_bottom - y_top) in
    let area1 := w1 * h1 in
    let area2 := w2 * h2 in
    let union := area1 + area2 - intersection in
    if 0 <? union then (inject_Z intersection / inject_Z union)%Q else 0%Q.

(** The part of [is_bbox_inside] before its last line: either the early
    [return False], or the operands [intersection] and [area1] of the
    division the last line performs. *)
Inductive inside_path : Type :=
| EarlyFalse
| Divide (intersection area1 : Z).

Definition inside_operands (bbox1 bbox2 : box) : inside_path :=
  let '(x1, y1, w1, h1) := bbox1 in
  let '(x2, y2, w2, h2) := bbox2 in
  let x_left := Z.max x1 x2 in
  let y_top := Z.max y1 y2 in
  let x_right := Z.min (x1 + w1) (x2 + w2) in
  let y_bottom := Z.min (y1 + h1) (y2 + h2) in
  if (x_right <? x_left) || (y_bottom <? y_top) then EarlyFalse
  else
    let intersection := (x_right - x_left) * (y_bottom - y_top) in
    let area1 := w1 * h1 in
    Divide intersection area1.

Definition is_bbox_inside (bbox1 bbox2 : box) (threshold : Q) : option bool :=
  match inside_operands bbox1 bbox2 with
  | EarlyFalse => Some false
  | Divide intersection area1 =>
      match py_truediv intersection area1 with
      | None => None
      | Some ratio => Some (Qltb threshold ratio)
      end
  end.

Definition default_containment : Q := (8 # 10)%Q.

(** The closed rectangles of two boxes have no point in common. *)
Definition boxes_apart (a b : box) : Prop :=
  let '(x1, y1, w1, h1) := a in
  let '(x2, y2, w2, h2) := b in
  x1 + w1 < x2 \/ x2 + w2 < x1 \/ y1 + h1 < y2 \/ y2 + h2 < y1.

Definition positive_box (a : box) : Prop :=
  let '(x, y, w, h) := a in 0 < w /\ 0 < h.

(** ** Stable descending sort: [sorted(l, key=key, reverse=True)] *)

Fixpoint insert_desc {A} (key : A -> Q) (x : A) (l : list A) : list A :=
  match l with
  | [] => [x]
  | y :: l' =>
      if Qltb (key x) (key y) then y :: insert_desc key x l' else x :: y :: l'
  end.

Fixpoint sorted_reverse {A} (key : A -> Q) (l : list A) : list A :=
  match l with
  | [] => []
  | x :: l' => insert_desc key x (sorted_reverse key l')
  end.

Definition ge_by {A} (key : A -> Q) (a b : A) : Prop := (key b <= key a)%Q.

(** ** Deduplicator *)

Definition quality (m : mask) : Q := (inject_Z (area m) * stability_score m)%Q.

(** What the inner [for kept_mask in filtered_masks] loop decides for the
    current mask. *)
Inductive verdict : Type :=
| Discard
| Replace (kept_mask : mask)
| Keep.

Fixpoint compare_with_kept (overlap_threshold : Q) (current_mask : mask)
    (filtered_masks : list mask) : option verdict :=
  match filtered_masks with
  | [] => Some Keep
  | kept_mask :: rest =>
      let current_bbox := bbox current_mask in
      let kept_bbox := bbox kept_mask in
      let overlap := calculate_overlap current_bbox kept_bbox in
      match is_bbox_inside current_bbox kept_bbox default_containment,
            is_bbox_inside kept_bbox current_bbox default_containment with
      | Some current_inside_kept, Some kept_inside_current =>
          if Qltb overlap_threshold overlap || current_inside_kept
          then Some Discard
          else if kept_inside_current then Some (Replace kept_mask)
          else compare_with_kept overlap_threshold current_mask rest
      | _, _ => None
      end
  end.

(** One iteration of the outer loop. *)
Definition dedup_step (overlap_threshold : Q) (filtered_masks : list mask)
    (current_mask : mask) : option (list mask) :=
  match compare_with_kept overlap_threshold current_mask filtered_masks with
  | None => None
  | Some Discard => Some filtered_masks
  | Some (Replace kept_mask) =>
      Some (list_remove kept_mask filtered_masks ++ [current_mask])
  | Some Keep => Some (filtered_masks ++ [current_mask])
  end.

Fixpoint dedup_loop (overlap_threshold : Q) (masks_sorted filtered_masks : list mask)
    : option (list mask) :=
  match masks_sorted with
  | [] => Some filtered_masks
  | current_mask :: rest =>
      match dedup_step overlap_threshold filtered_masks current_mask with
      | None => None
      | Some filtered_masks' => dedup_loop overlap_threshold rest filtered_masks'
      end
  end.

Definition remove_duplicate_masks (masks : list mask) (overlap_threshold : Q)
    : option (list mask) :=
  match masks with
  | [] => Some []
  | _ => dedup_loop overlap_threshold (sorted_reverse quality masks) []
  end.

(** The verdicts of a run, one per mask of the sorted list (ghost data:
    the code does not keep them). *)
Fixpoint dedup_verdicts (overlap_threshold : Q) (masks_sorted filtered_masks : list mask)
    : list verdict :=
  match masks_sorted with
  | [] => []
  | current_mask :: rest =>
      match compare_with_kept overlap_threshold current_mask filtered_masks,
            dedup_step overlap_threshold filtered_masks current_mask with
      | Some v, Some filtered_masks' =>
          v :: dedup_verdicts overlap_threshold rest filtered_masks'
      | _, _ => []
      end
  end.

Definition is_replace (v : verdict) : bool :=
  match v with Replace _ => true | _ => false end.

(** No run of the inner loop took the replacement branch. *)
Definition replacement_free (masks : list mask) (overlap_threshold : Q) : bool :=
  forallb (fun v => negb (is_replace v))
    (dedup_verdicts overlap_threshold (sorted_reverse quality masks) []).

(** What one comparison of the inner loop can do with the current mask
    [c] and an accepted mask [k]: nothing ([quiet]), discard [c]
    ([discards]), replace [k] ([replaces]), or fail on a division
    ([raises]). *)
Definition overlaps (thr : Q) (c k : mask) : Prop :=
  (thr < calculate_overlap (bbox c) (bbox k))%Q.

Definition inside_is (a b : mask) (r : bool) : Prop :=
  is_bbox_inside (bbox a) (bbox b) default_containment = Some r.


Definition quiet (thr : Q) (c k : mask) : Prop :=
  ~ overlaps thr c k /\ inside_is c k false /\ inside_is k c false.



(** Every region of the list was appended by the [Keep] verdict against
    the regions before it. *)
Definition keep_chain (thr : Q) (acc : list mask) : Prop :=
  forall pre c post,
    acc = pre ++ c :: post -> compare_with_kept thr c pre = Some Keep.

(** ** ImportanceRanker *)

Definition calculate_importance_score (m : mask) : Q :=
  let base_score := (inject_Z (area m) * stability_score m)%Q in
  if is_protected m then (base_score * (3 # 1))%Q
  else if is_merged m then (base_score * (25 # 10))%Q
  else if is_info_region m then
    let base_score := (base_score * (18 # 10))%Q in
    let base_score :=
      if has_tag bottom_info m then (base_score * (14 # 10))%Q else base_score in
    let base_score :=
      if is_bottom_protected m then (base_score * (16 # 10))%Q else base_score in
    base_score
  else base_score.

Definition sort_masks_by_importance (masks : list mask) : list mask :=
  sorted_reverse calculate_importance_score masks.

(** [self.sort_masks_by_importance(final_masks_deduped)[:20]] in
    [split_image]. *)
Definition final_masks (final_masks_deduped : list mask) : list mask :=
  take 20 (sort_masks_by_importance final_masks_deduped).

(** The multiplier of the specification, following its words. *)
Definition spec_multiplier (m : mask) : Q :=
  if is_protected m then (3 # 1)%Q
  else if is_merged m then (25 # 10)%Q
  else if is_info_region m then
    ((18 # 10) * (if has_tag bottom_info m then 14 # 10 else 1)
               * (if is_bottom_protected m then 16 # 10 else 1))%Q
  else 1%Q.

(** ** EngineeringFilter *)

Section EngineeringFilter.
Variables h w : Z.

Definition total_area : Z := h * w.

Definition is_in_bottom_protect (m : mask) : bool :=
  let '(x, y, width, height) := bbox m in
  let bottom_protect_y := py_int (inject_Z h * (8 # 10)) in
  bottom_protect_y <? y.

Definition in_info_zone (m : mask) : bool :=
  let '(x, y, width, height) := bbox m in
  let in_bottom_info := above_0_7 h y in
  let in_right_info := above_0_7 w x in
  in_bottom_info || in_right_info.

(** [min_area_ratio <= area_ratio <= max_area_ratio]; the caller has
    checked that [total_area] is not zero. *)
Definition area_ratio_ok (m : mask) : bool :=
  let area_ratio := (inject_Z (area m) / inject_Z total_area)%Q in
  let '(min_area_ratio, max_area_ratio) :=
    if is_in_bottom_protect m then ((8 # 1000)%Q, (5 # 10)%Q)
    else if in_info_zone m then ((2 # 1000)%Q, (3 # 10)%Q)
    else ((3 # 1000)%Q, (7 # 10)%Q) in
  Qle_bool min_area_ratio area_ratio && Qle_bool area_ratio max_area_ratio.

Definition aspect_ratio_ok (m : mask) : bool :=
  let '(x, y, width, height) := bbox m in
  let aspect_ratio :=
    (inject_Z (Z.max width height) / inject_Z (Z.max (Z.min width height) 1))%Q in
  let max_aspect_ratio :=
    if is_in_bottom_protect m then 8%Q
    else if in_info_zone m then 25%Q
    else 15%Q in
  negb (Qltb max_aspect_ratio aspect_ratio).

Definition compactness_ok (m : mask) : bool :=
  let '(x, y, width, height) := bbox m in
  let perimeter := 2 * (width + height) in
  if 0 <? perimeter then
    let compactness :=
      ((4 # 1) * np_pi * inject_Z (area m) / inject_Z (perimeter * perimeter))%Q in
    let min_compactness :=
      if is_in_bottom_protect m then (1 # 10)%Q
      else if in_info_zone m then (2 # 100)%Q
      else (5 # 100)%Q in
    negb (Qltb compactness min_compactness)
  else true.

(** The boundary check: [true] when its [continue] is taken. *)
Definition margin_drop (m : mask) : bool :=
  let '(x, y, width, height) := bbox m in
  let margin := 10 in
  if ((x <? margin) && negb (in_info_zone m)) || (y <? margin) then
    Qltb (inject_Z (area m)) (inject_Z total_area * (5 # 100))
  else false.

Definition tag_protected (m : mask) : mask :=
  if is_in_bottom_protect m then
    Mask (bbox m) (area m) (stability_score m) (predicted_iou m)
      (is_info_region m) (info_type m) (is_merged m) (original_count m)
      (is_protected m) true (is_protected_text m) (Some (15 # 10)%Q)
      (text_optimized m)
  else if in_info_zone m then
    Mask (bbox m) (area m) (stability_score m) (predicted_iou m)
      (is_info_region m) (info_type m) (is_merged m) (original_count m)
      (is_protected m) (is_bottom_protected m) true (Some (13 # 10)%Q)
      (text_optimized m)
  else m.

(** The loop body: [None] when a [continue] drops the mask. *)
Definition filter_mask (m : mask) : option mask :=
  if negb (area_ratio_ok m) then None
  else if negb (aspect_ratio_ok m) then None
  else if negb (compactness_ok m) then None
  else if margin_drop m then None
  else Some (tag_protected m).

(** [area / total_area] raises on an empty image as soon as there is a
    mask to look at. *)
Definition filter_masks_by_engineering_criteria (masks : list mask)
    : option (list mask) :=
  match masks with
  | [] => Some []
  | _ => if total_area =? 0 then None else Some (omap filter_mask masks)
  end.

End EngineeringFilter.

(** ** ProximityMerger *)

Definition Zsum (l : list Z) : Z := fold_left Z.add l 0.

(** [np.mean(l)] of a non-empty list. *)
Definition np_mean (l : list Q) : Q :=
  (fold_left Qplus l 0 / inject_Z (Z.of_nat (length l)))%Q.

(** [min(l)] and [max(l)] of a list; every call site has checked that the
    list is not empty. *)
Definition py_min (l : list Z) : Z :=
  match l with
  | [] => 0
  | x :: l' => fold_left Z.min l' x
  end.

Definition py_max (l : list Z) : Z :=
  match l with
  | [] => 0
  | x :: l' => fold_left Z.max l' x
  end.

Definition merge_mask_cluster (cluster_masks : list mask) : option mask :=
  match cluster_masks with
  | [] => None
  | _ =>
      let min_x := py_min (map (fun m => box_x (bbox m)) cluster_masks) in
      let min_y := py_min (map (fun m => box_y (bbox m)) cluster_masks) in
      let max_x := py_max (map (fun m => box_right (bbox m)) cluster_masks) in
      let max_y := py_max (map (fun m => box_bottom (bbox m)) cluster_masks) in
      let merged_bbox := (min_x, min_y, max_x - min_x, max_y - min_y) in
      let total_area := Zsum (map area cluster_masks) in
      let avg_stability := np_mean (map stability_score cluster_masks) in
      let avg_iou := np_mean (map predicted_iou cluster_masks) in
      Some (oracle_mask merged_bbox total_area avg_stability avg_iou)
  end.

(** Sums as the specification writes them. *)
Definition sum_Z (l : list Z) : Z := foldr Z.add 0 l.
Definition sum_Q (l : list Q) : Q := foldr Qplus 0%Q l.

Definition mask_center (m : mask) : Q * Q :=
  let '(x, y, w, h) := bbox m in
  ((inject_Z x + inject_Z w / 2)%Q, (inject_Z y + inject_Z h / 2)%Q).

(** [set(clustering.labels_)]: the distinct labels, in increasing order. *)
Definition cluster_ids (labels : list nat) : list nat :=
  List.filter (fun c => existsb (Nat.eqb c) labels)
    (seq 0 (S (foldr Nat.max 0%nat labels))).

(** [[masks[i] for i, label in enumerate(labels) if label == cluster_id]] *)
Definition cluster_members (masks : list mask) (labels : list nat)
    (cluster_id : nat) : list mask :=
  map fst (List.filter (fun p => Nat.eqb (snd p) cluster_id) (combine masks labels)).

Definition merge_cluster (cluster_masks : list mask) : list mask :=
  match cluster_masks with
  | [m] => [m]
  | _ => match merge_mask_cluster cluster_masks with
         | Some merged_mask => [merged_mask]
         | None => []
         end
  end.

Section ProximityMerger.
(** [DBSCAN(eps=eps, min_samples=1).fit(centers).labels_]: one label per
    centre. *)
Variable dbscan_labels : Q -> list (Q * Q) -> list nat.

Definition merge_nearby_masks (masks : list mask) (distance_threshold : Q)
    : list mask :=
  if (length masks <? 2)%nat then masks
  else
    let centers := map mask_center masks in
    let labels := dbscan_labels distance_threshold centers in
    concat (map (fun cluster_id => merge_cluster (cluster_members masks labels cluster_id))
                (cluster_ids labels)).

End ProximityMerger.

(** ** InfoRegionDetector *)

Definition set_info (m : mask) (tags : list info_tag) : mask :=
  Mask (bbox m) (area m) (stability_score m) (predicted_iou m)
    true tags (is_merged m) (original_count m)
    (is_protected m) (is_bottom_protected m) (is_protected_text m)
    (priority_boost m) (text_optimized m).

Definition merge_bottom_info_regions (bottom_masks : list mask)
    (image_width image_height : Z) : option mask :=
  match bottom_masks with
  | [] => None
  | _ =>
      let all_x :=
        flat_map (fun m => [box_x (bbox m); box_right (bbox m)]) bottom_masks in
      let all_y :=
        flat_map (fun m => [box_y (bbox m); box_bottom (bbox m)]) bottom_masks in
      let total_area := Zsum (map area bottom_masks) in
      let total_stability := fold_left Qplus (map stability_score bottom_masks) 0%Q in
      let min_x := Z.max 0 (py_min all_x - 20) in
      let max_x := Z.min image_width (py_max all_x + 20) in
      let min_y := Z.max 0 (py_min all_y - 10) in
      let max_y := image_height in
      Some (Mask (min_x, min_y, max_x - min_x, max_y - min_y)
              total_area
              (total_stability / inject_Z (Z.of_nat (length bottom_masks)))%Q
              (9 # 10)%Q
              false [] true (Some (Z.of_nat (length bottom_masks)))
              false false false None false)
  end.

Definition create_bottom_info_region (h w : Z) : mask :=
  let bottom_start_y := py_int (inject_Z h * (8 # 10)) in
  Mask (0, bottom_start_y, w, h - bottom_start_y)
    (w * (h - bottom_start_y))
    (95 # 100)%Q (95 # 100)%Q
    true [bottom_info; protected_region] false None
    true false false None false.

Section InfoRegionDetector.
Variables height width : Z.

Definition is_reasonable_size (m : mask) : bool :=
  let total_area := height * width in
  let area_ratio := (inject_Z (area m) / inject_Z total_area)%Q in
  Qltb (2 # 1000) area_ratio && Qltb area_ratio (3 # 10).

Definition is_bottom_candidate (m : mask) : bool :=
  let '(x, y, w, h) := bbox m in
  let bottom_region_y := py_int (inject_Z height * (75 # 100)) in
  let center_y := (inject_Z y + inject_Z h / 2)%Q in
  Qltb (inject_Z bottom_region_y) center_y && is_reasonable_size m.

Definition is_right_candidate (m : mask) : bool :=
  let '(x, y, w, h) := bbox m in
  let right_region_x := py_int (inject_Z width * (75 # 100)) in
  let center_x := (inject_Z x + inject_Z w / 2)%Q in
  negb (is_bottom_candidate m)
  && Qltb (inject_Z right_region_x) center_x && is_reasonable_size m.

Definition detect_info_regions (masks : list mask) : option (list mask) :=
  match masks with
  | [] => Some []
  | _ =>
      if height * width =? 0 then None
      else
        let bottom_masks := List.filter is_bottom_candidate masks in
        let right_masks := List.filter is_right_candidate masks in
        let other_masks :=
          List.filter
            (fun m => negb (is_bottom_candidate m) && negb (is_right_candidate m))
            masks in
        let merged :=
          match merge_bottom_info_regions bottom_masks width height with
          | Some merged_bottom => [set_info merged_bottom [bottom_info; merged_region]]
          | None => []
          end in
        Some (merged
              ++ map (fun m => set_info m [right_info]) right_masks
              ++ List.filter (fun m => negb (is_info_region m)) other_masks)
  end.

End InfoRegionDetector.

(** ** RegionExpander *)

Definition set_bbox (m : mask) (b : box) (a : Z) : mask :=
  Mask b a (stability_score m) (predicted_iou m)
    (is_info_region m) (info_type m) (is_merged m) (original_count m)
    (is_protected m) (is_bottom_protected m) (is_protected_text m)
    (priority_boost m) (text_optimized m).

Section RegionExpander.
Variables height width : Z.

Definition expanded_bbox (m : mask) : box :=
  let '(x, y, w, h) := bbox m in
  if has_tag merged_region m then
    let expand_x := Z.max 10 (py_int (inject_Z w * (5 # 100))) in
    let expand_y := Z.max 5 (py_int (inject_Z h * (2 # 100))) in
    let new_x := Z.max 0 (x - expand_x) in
    let new_y := Z.max 0 (y - expand_y) in
    let new_w := Z.min (width - new_x) (w + 2 * expand_x) in
    let new_h := Z.min (height - new_y) (h + expand_y) in
    (new_x, new_y, new_w, new_h)
  else
    let expand_ratio := (15 # 100)%Q in
    let expand_x := py_int (inject_Z w * expand_ratio) in
    let expand_y := py_int (inject_Z h * expand_ratio) in
    let expand_x :=
      if has_tag bottom_info m then py_int (inject_Z w * (25 # 100)) else expand_x in
    let expand_y :=
      if has_tag bottom_info m then py_int (inject_Z h * (2 # 10)) else expand_y in
    let new_x := Z.max 0 (x - expand_x) in
    let new_y := Z.max 0 (y - expand_y) in
    let new_w := Z.min (width - new_x) (w + 2 * expand_x) in
    let new_h := Z.min (height - new_y) (h + 2 * expand_y) in
    (new_x, new_y, new_w, new_h).

(** The loop body: a non-info mask is appended as it is, an info mask is
    copied with its new box and area. *)
Definition expand_mask (m : mask) : mask :=
  if negb (is_info_region m) then m
  else
    let '(new_x, new_y, new_w, new_h) := expanded_bbox m in
    set_bbox m (new_x, new_y, new_w, new_h) (new_w * new_h).

Definition expand_info_regions (info_masks : list mask) : list mask :=
  map expand_mask info_masks.

End RegionExpander.

Definition in_bounds (height width : Z) (b : box) : Prop :=
  let '(x, y, w, h) := b in
  0 <= x /\ 0 <= y /\ x + w <= width /\ y + h <= height.

(** ** TextRegionRefiner

    [post_process_text_regions] assigns to the keys of the dicts it is
    given, and the same dict may occur several times in its argument.
    The dicts therefore live in a store, addressed by position, and the
    argument is a list of addresses. *)

Definition store : Type := list mask.

Definition set_text_optimized (m : mask) (b : box) (a : Z) : mask :=
  Mask b a (stability_score m) (predicted_iou m)
    (is_info_region m) (info_type m) (is_merged m) (original_count m)
    (is_protected m) (is_bottom_protected m) (is_protected_text m)
    (priority_boost m) true.

Section TextRegionRefiner.
Variables h w : Z.

(** The loop body on the dict it is handed; [None] is the
    [ZeroDivisionError] of the aspect ratio. *)
Definition refine_text_mask (m : mask) : option mask :=
  let '(x, y, w_bbox, h_bbox) := bbox m in
  let in_bottom_info := above_0_7 h y in
  let in_right_info := above_0_7 w x in
  if in_bottom_info || in_right_info then
    match py_truediv (Z.max w_bbox h_bbox) (Z.min w_bbox h_bbox) with
    | None => None
    | Some aspect_ratio =>
        let '(expand_h, expand_v) :=
          if Qltb 3 aspect_ratio && (h_bbox <? w_bbox) then
            (py_int (inject_Z w_bbox * (2 # 10)), py_int (inject_Z h_bbox * (3 # 10)))
          else if Qle_bool aspect_ratio 3 then
            (py_int (inject_Z w_bbox * (25 # 100)), py_int (inject_Z h_bbox * (25 # 100)))
          else
            (py_int (inject_Z w_bbox * (3 # 10)), py_int (inject_Z h_bbox * (2 # 10))) in
        let new_x := Z.max 0 (x - expand_h) in
        let new_w := Z.min w (x + w_bbox + expand_h) - new_x in
        let new_y := Z.max 0 (y - expand_v) in
        let new_h := Z.min h (y + h_bbox + expand_v) - new_y in
        Some (set_text_optimized m (new_x, new_y, new_w, new_h) (new_w * new_h))
    end
  else Some m.

(** [for mask in masks]: the masks are addresses into the store; the
    returned list [processed_masks] is the list of the same addresses. *)
Fixpoint post_process_text_regions (masks : list nat) (st : store) : option store :=
  match masks with
  | [] => Some st
  | a :: rest =>
      match st !! a with
      | None => None
      | Some m =>
          match refine_text_mask m with
          | None => None
          | Some m' => post_process_text_regions rest (<[a := m']> st)
          end
      end
  end.

End TextRegionRefiner.

(** ** PipelineOrchestrator, up to the injection of the protected region *)

(** A raw proposal of the oracle. *)
Record proposal : Type := Proposal {
  p_bbox : box;
  p_area : Z;
  p_stability_score : Q;
  p_predicted_iou : Q
}.

Definition mask_of_proposal (p : proposal) : mask :=
  oracle_mask (p_bbox p) (p_area p) (p_stability_score p) (p_predicted_iou p).

(** The scale factor returned by [preprocess_image]. *)
Definition preprocess_scale (h w : Z) : Q :=
  let max_dimension := 2048 in
  if max_dimension <? Z.max h w
  then (inject_Z max_dimension / inject_Z (Z.max h w))%Q
  else 1%Q.

Definition scale_bbox (b : box) (scale_factor : Q) : box :=
  if Qeq_bool scale_factor 1 then b
  else
    let '(x, y, w, h) := b in
    (py_int (inject_Z x / scale_factor), py_int (inject_Z y / scale_factor),
     py_int (inject_Z w / scale_factor), py_int (inject_Z h / scale_factor)).

Definition rescale_mask (scale_factor : Q) (m : mask) : mask :=
  if Qeq_bool scale_factor 1 then m
  else
    set_bbox m (scale_bbox (bbox m) scale_factor)
      (py_int (inject_Z (area m) / (scale_factor * scale_factor))).

(** How far [split_image] gets. *)
Inductive outcome (A : Type) : Type :=
| Raised
| ReturnedEmpty
| Reached (a : A).
Arguments Raised {A}.
Arguments ReturnedEmpty {A}.
Arguments Reached {A} a.

Section PipelineOrchestrator.
Variable dbscan_labels : Q -> list (Q * Q) -> list nat.

(** [split_image] from the proposals of the generators to the list
    [info_masks] after [info_masks.append(bottom_protection)]; [h] and
    [w] are the dimensions of the original image. *)
Definition info_masks_with_protection (h w : Z) (proposals : list proposal)
    : outcome (list mask) :=
  let all_masks := map mask_of_proposal proposals in
  match all_masks with
  | [] => ReturnedEmpty
  | _ =>
      let scale_factor := preprocess_scale h w in
      let all_masks := map (rescale_mask scale_factor) all_masks in
      match filter_masks_by_engineering_criteria h w all_masks with
      | None => Raised
      | Some filtered_masks =>
          match remove_duplicate_masks filtered_masks (3 # 10) with
          | None => Raised
          | Some unique_masks =>
              let merged_masks :=
                merge_nearby_masks dbscan_labels unique_masks 100 in
              let bottom_protection := create_bottom_info_region h w in
              match detect_info_regions h w merged_masks with
              | None => Raised
              | Some info_masks => Reached (info_masks ++ [bottom_protection])
              end
          end
      end
  end.

End PipelineOrchestrator.

(** ** binary64 rounding *)

(** The non-negative float with mantissa [m] and exponent [e], as the
    rounding functions of [SpecFloat] build it: an exponent above
    [1024 - 53] is an overflow. *)
Definition float_of_parts (m e : Z) : spec_float :=
  match m with
  | Z0 => S754_zero false
  | Zpos p => if e <=? 1024 - 53 then S754_finite false p e else S754_infinity false
  | Zneg _ => S754_nan
  end.

(** ** Preprocessing *)

(** [int(f)] on a float: truncation towards zero; the [OverflowError]
    on an infinity and the [ValueError] on a NaN are [None]. *)
Definition int_of_float (f : spec_float) : option Z :=
  match f with
  | S754_zero _ => Some 0
  | S754_finite s m e =>
      let a := if 0 <=? e then Z.pos m * 2 ^ e else Z.pos m / 2 ^ (- e) in
      Some (if s then - a else a)
  | _ => None
  end.

(** The literal [1.0]. *)
Definition float_1 : spec_float := S754_finite false 4503599627370496 (-52).

(** [preprocess_image(image)] on an image of height [h] and width [w]:
    the height and width of the image it returns and the scale factor.
    [max_dimension / max(h, w)] divides two integers; below [2^53] they
    are floats themselves and the quotient is the rounded quotient of
    the two floats.  [cv2.resize] raises on a target size with a side
    that is not positive: [None]. *)
Definition preprocess_image (h w : Z) : option (Z * Z * spec_float) :=
  let max_dimension := 2048 in
  if max_dimension <? Z.max h w then
    let scale :=
      float_div (float_of_int max_dimension) (float_of_int (Z.max h w)) in
    match int_of_float (float_mul (float_of_int h) scale),
          int_of_float (float_mul (float_of_int w) scale) with
    | Some new_h, Some new_w =>
        if (0 <? new_h) && (0 <? new_w) then Some (new_h, new_w, scale)
        else None
    | _, _ => None
    end
  else Some (h, w, float_1).

(** ** View extraction *)

(** [expand_bbox_to_include_text(image, bbox, expansion_ratio)] for an
    image of the given height and width. *)
Definition expand_bbox_to_include_text (height width : Z) (b : box)
    (expansion_ratio : Q) : box :=
  let '(x, y, w, h) := b in
  let expand_x := py_int (inject_Z w * expansion_ratio) in
  let expand_y := py_int (inject_Z h * expansion_ratio) in
  let new_x := Z.max 0 (x - expand_x) in
  let new_y := Z.max 0 (y - expand_y) in
  let new_w := Z.min (width - new_x) (w + 2 * expand_x) in
  let new_h := Z.min (height - new_y) (h + 2 * expand_y) in
  (new_x, new_y, new_w, new_h).

(** The box [split_image] crops for one final mask: [None] when the
    view is skipped as invalid. *)
Definition view_bbox (height width : Z) (m : mask) : option box :=
  let '(x, y, w, h) :=
    expand_bbox_to_include_text height width (bbox m) (15 # 100) in
  let x := Z.max 0 (Z.min x (width - 1)) in
  let y := Z.max 0 (Z.min y (height - 1)) in
  let w := Z.min w (width - x) in
  let h := Z.min h (height - y) in
  if (w <=? 0) || (h <=? 0) then None else Some (x, y, w, h).

(** The boxes of the views [split_image] saves, in order. *)
Definition saved_views (height width : Z) (final_masks_deduped : list mask)
    : list box :=
  omap (view_bbox height width) (final_masks final_masks_deduped).

(** The regions of the sorted list that the cut [[:20]] leaves out. *)
Definition dropped_masks (final_masks_deduped : list mask) : list mask :=
  drop 20 (sort_masks_by_importance final_masks_deduped).

Definition nonneg_box (a : box) : Prop :=
  let '(x, y, w, h) := a in 0 <= w /\ 0 <= h.

Definition box_w (b : box) : Z := let '(x, y, w, h) := b in w.
Definition box_h (b : box) : Z := let '(x, y, w, h) := b in h.

(** ** PipelineOrchestrator, from the merged masks to the final masks

    From here on [split_image] shares dicts between lists and assigns to
    their keys, so the dicts live in a [store].  The dicts of
    [merged_masks] sit at the addresses [0 .. n-1]; the copies made by
    [expand_info_regions] are allocated behind them.  Dicts that no list
    reaches any more (the unexpanded merged and protected regions) are
    left out of the store. *)

(** [[i for i, m in enumerate(l, start) if p(m)]] *)
Fixpoint positions_from (start : nat) (p : mask -> bool) (l : list mask)
    : list nat :=
  match l with
  | [] => []
  | m :: l' =>
      if p m then start :: positions_from (S start) p l'
      else positions_from (S start) p l'
  end.

(** [refine_text_mask] applied [n] times in a row. *)
Fixpoint refine_times (h w : Z) (n : nat) (m : mask) : option mask :=
  match n with
  | O => Some m
  | S n' =>
      match refine_text_mask h w m with
      | Some m' => refine_times h w n' m'
      | None => None
      end
  end.

Section PipelineTail.
Variables h w : Z.

(** What [detect_info_regions] does to the dict of a right candidate. *)
Definition mark_right (m : mask) : mask :=
  if is_right_candidate h w m then set_info m [right_info] else m.

Definition is_other_mask (m : mask) : bool :=
  negb (is_bottom_candidate h w m) && negb (is_right_candidate h w m)
  && negb (is_info_region m).

(** The merged bottom region as [detect_info_regions] appends it. *)
Definition merged_bottom_part (merged_masks : list mask) : list mask :=
  match merge_bottom_info_regions
          (List.filter (is_bottom_candidate h w) merged_masks) w h with
  | Some merged_bottom => [set_info merged_bottom [bottom_info; merged_region]]
  | None => []
  end.

(** The copies [expand_info_regions] makes, in the order it makes them:
    the merged bottom region, the right candidates, the protected
    region. *)
Definition expanded_copies (merged_masks : list mask) : list mask :=
  map (expand_mask h w)
    (merged_bottom_part merged_masks
     ++ map (fun m => set_info m [right_info])
          (List.filter (is_right_candidate h w) merged_masks)
     ++ [create_bottom_info_region h w]).

(** The store when [post_process_text_regions] is called. *)
Definition final_store (merged_masks : list mask) : store :=
  map mark_right merged_masks ++ expanded_copies merged_masks.

(** [all_final_masks = non_info_masks + expanded_info_masks], as
    addresses; the protected region comes last.  [None] is the
    [ZeroDivisionError] of [detect_info_regions]. *)
Definition all_final_masks (merged_masks : list mask) : option (list nat) :=
  match merged_masks with
  | [] => Some [0%nat]
  | _ =>
      if h * w =? 0 then None
      else
        let n := length merged_masks in
        let k :=
          (length (merged_bottom_part merged_masks)
           + length (List.filter (is_right_candidate h w) merged_masks))%nat in
        let non_info_masks :=
          positions_from 0 (fun m => negb (is_info_region m))
            (map mark_right merged_masks) in
        let expanded_info_masks :=
          seq n k ++ positions_from 0 is_other_mask merged_masks ++ [(n + k)%nat] in
        Some (non_info_masks ++ expanded_info_masks)
  end.

(** The rest of [split_image] up to [final_masks]. *)
Definition final_masks_of_merged (merged_masks : list mask)
    : outcome (list mask) :=
  match all_final_masks merged_masks with
  | None => Raised
  | Some all_final =>
      match post_process_text_regions h w all_final (final_store merged_masks) with
      | None => Raised
      | Some st' =>
          let text_optimized_masks := omap (fun a => st' !! a) all_final in
          match remove_duplicate_masks text_optimized_masks (4 # 10) with
          | None => Raised
          | Some [] => ReturnedEmpty
          | Some final_masks_deduped => Reached (final_masks final_masks_deduped)
          end
      end
  end.

End PipelineTail.

Section Pipeline.
Variable dbscan_labels : Q -> list (Q * Q) -> list nat.

(** [split_image] from the proposals to [merged_masks]. *)
Definition merged_masks_of (h w : Z) (proposals : list proposal)
    : outcome (list mask) :=
  let all_masks := map mask_of_proposal proposals in
  match all_masks with
  | [] => ReturnedEmpty
  | _ =>
      let scale_factor := preprocess_scale h w in
      let all_masks := map (rescale_mask scale_factor) all_masks in
      match filter_masks_by_engineering_criteria h w all_masks with
      | None => Raised
      | Some filtered_masks =>
          match remove_duplicate_masks filtered_masks (3 # 10) with
          | None => Raised
          | Some unique_masks =>
              Reached (merge_nearby_masks dbscan_labels unique_masks 100)
          end
      end
  end.

(** [split_image] from the proposals to [final_masks]. *)
Definition split_image_final_masks (h w : Z) (proposals : list proposal)
    : outcome (list mask) :=
  match merged_masks_of h w proposals with
  | Raised => Raised
  | ReturnedEmpty => ReturnedEmpty
  | Reached merged_masks => final_masks_of_merged h w merged_masks
  end.

End Pipeline.

(** ** Concrete regions used in the examples below *)

(** Three regions of a 100 x 100 drawing: a full 40 x 40 view in the top
    left corner, a sparse band over the lower half, and a sparser frame
    around the whole sheet.  Their qualities are 1600, 1500 and 1200. *)
Definition view_corner : mask := oracle_mask (0, 0, 40, 40) 1600 1 1.
Definition view_band : mask := oracle_mask (0, 50, 100, 50) 1500 1 1.
Definition view_frame : mask := oracle_mask (0, 0, 100, 100) 1200 1 1.

(** A 15 x 15 note in the right band of a 100 x 100 drawing, touching the
    top margin, and a small artifact on the left margin of the main body. *)
Definition note_top_right : mask := oracle_mask (80, 0, 15, 15) 200 1 1.
Definition artifact_left : mask := oracle_mask (0, 30, 20, 20) 400 1 1.

(** A main-body view that reaches beyond a 100 x 100 image. *)
Definition view_outside : mask := oracle_mask (50, 50, 100, 100) 10000 1 1.

(** A right-band info region of a 100 x 100 image. *)
Definition info_right : mask :=
  set_info (oracle_mask (80, 40, 15, 20) 300 1 1) [right_info].

(** Two fragments of the title block of a 1000 x 1000 drawing, as the
    oracle proposes them and as the EngineeringFilter tags them. *)
Definition title_left : mask := oracle_mask (300, 850, 100, 100) 9000 1 1.
Definition title_right : mask := oracle_mask (380, 860, 100, 100) 8500 1 1.
Definition title_left_tagged : mask := tag_protected 1000 1000 title_left.
Definition title_right_tagged : mask := tag_protected 1000 1000 title_right.

(** The labelling DBSCAN returns when all centres fall into one cluster,
    as for the two fragments above, whose centres are 81 px apart. *)
Definition one_cluster (eps : Q) (centers : list (Q * Q)) : list nat :=
  map (fun _ => 0%nat) centers.

Definition title_proposals : list proposal :=
  [Proposal (300, 850, 100, 100) 9000 1 1;
   Proposal (380, 860, 100, 100) 8500 1 1].

(** A 10 x 10 note in the bottom right corner of a 100 x 100 drawing. *)
Definition text_note : mask := oracle_mask (80, 80, 10, 10) 100 1 1.

(** A plain region in the text band of a 1000 x 1000 drawing: in the
    bottom band of the refiner, but neither a bottom nor a right
    candidate of the detector. *)
Definition band_view : mask := oracle_mask (100, 720, 200, 40) 6000 1 1.

(** Two regions whose top edge lies exactly on the line [y = 0.7 h]:
    on an image 720 high and on an image 1000 high. *)
Definition on_line_720 : mask := oracle_mask (5, 504, 200, 100) 15000 1 1.
Definition on_line_1000 : mask := oracle_mask (5, 700, 200, 100) 20000 1 1.

(** ** binary64 rounding

    What the rounding functions of [SpecFloat] compute on the
    non-negative numbers the pipeline multiplies and divides: enough to
    bound the rounded product [h * 0.7] and the rounded side
    [z * (2048 / M)] from both sides. *)

Lemma digits2_pos_bounds (p : positive) :
  2 ^ (Z.pos (digits2_pos p) - 1) <= Z.pos p < 2 ^ Z.pos (digits2_pos p).
Proof.
  induction p as [p IH|p IH|]; simpl digits2_pos.
  - rewrite Pos2Z.inj_succ. change (Z.pos p~1) with (2 * Z.pos p + 1).
    replace (Z.succ (Z.pos (digits2_pos p)) - 1) with (Z.succ (Z.pos (digits2_pos p) - 1)) by lia.
    rewrite !Z.pow_succ_r by lia.
    destruct IH as [IH1 IH2]. revert IH1 IH2.
    generalize (2 ^ (Z.pos (digits2_pos p) - 1)) (2 ^ Z.pos (digits2_pos p)). lia.
  - rewrite Pos2Z.inj_succ. change (Z.pos p~0) with (2 * Z.pos p).
    replace (Z.succ (Z.pos (digits2_pos p)) - 1) with (Z.succ (Z.pos (digits2_pos p) - 1)) by lia.
    rewrite !Z.pow_succ_r by lia.
    destruct IH as [IH1 IH2]. revert IH1 IH2.
    generalize (2 ^ (Z.pos (digits2_pos p) - 1)) (2 ^ Z.pos (digits2_pos p)). lia.
  - simpl. lia.
Qed.

Lemma Zdigits2_nonneg (m : Z) : 0 <= Zdigits2 m.
Proof. destruct m; simpl; lia. Qed.

Lemma Zdigits2_bounds (m : Z) :
  0 < m -> 2 ^ (Zdigits2 m - 1) <= m < 2 ^ Zdigits2 m.
Proof. destruct m as [|p|p]; try lia. intros _. apply digits2_pos_bounds. Qed.

Lemma Zdigits2_le (m j : Z) : 0 <= m -> 0 <= j -> m < 2 ^ j -> Zdigits2 m <= j.
Proof.
  intros Hm Hj Hlt. destruct (Z.eq_dec m 0) as [->|Hne]; [simpl; lia|].
  destruct (Zdigits2_bounds m ltac:(lia)) as [Hlo _].
  destruct (Z.le_gt_cases (Zdigits2 m) j) as [|Hgt]; [assumption|].
  assert (2 ^ j <= 2 ^ (Zdigits2 m - 1)) by (apply Z.pow_le_mono_r; lia). lia.
Qed.

Lemma shr_1_m (mrs : shr_record) :
  0 <= shr_m mrs -> shr_m (shr_1 mrs) = shr_m mrs / 2.
Proof.
  destruct mrs as [m r s]. simpl. intros Hm.
  rewrite <- Z.div2_div.
  destruct m as [|[p|p|]|p]; try reflexivity. lia.
Qed.

Lemma iter_pos_shr_1 (p : positive) (mrs : shr_record) :
  0 <= shr_m mrs ->
  shr_m (SpecFloat.iter_pos shr_1 p mrs) = shr_m mrs / 2 ^ Z.pos p.
Proof.
  revert mrs. induction p as [p IH|p IH|]; intros mrs Hm; simpl SpecFloat.iter_pos.
  - assert (0 <= shr_m (shr_1 mrs)) as H1
        by (rewrite shr_1_m by assumption; apply Z.div_pos; lia).
    assert (0 <= shr_m (SpecFloat.iter_pos shr_1 p (shr_1 mrs))) as H2
        by (rewrite IH by assumption; apply Z.div_pos; [assumption|apply Z.pow_pos_nonneg; lia]).
    rewrite IH, IH, shr_1_m by assumption.
    assert (0 < 2 ^ Z.pos p) as Hp by (apply Z.pow_pos_nonneg; lia).
    rewrite !Z.div_div by lia.
    f_equal. change (Z.pos p~1) with (2 * Z.pos p + 1).
    replace (2 * Z.pos p + 1) with (1 + Z.pos p + Z.pos p) by lia.
    rewrite !Z.pow_add_r by lia. rewrite Z.pow_1_r. ring.
  - assert (0 <= shr_m (SpecFloat.iter_pos shr_1 p mrs)) as H2
        by (rewrite IH by assumption; apply Z.div_pos; [assumption|apply Z.pow_pos_nonneg; lia]).
    rewrite IH, IH by assumption.
    assert (0 < 2 ^ Z.pos p) as Hp by (apply Z.pow_pos_nonneg; lia).
    rewrite !Z.div_div by lia.
    f_equal. change (Z.pos p~0) with (2 * Z.pos p).
    replace (2 * Z.pos p) with (Z.pos p + Z.pos p) by lia.
    rewrite !Z.pow_add_r by lia. ring.
  - apply shr_1_m, Hm.
Qed.

Lemma shr_spec (mrs : shr_record) (e n : Z) :
  0 <= shr_m mrs ->
  shr_m (fst (shr mrs e n)) = shr_m mrs / 2 ^ Z.max 0 n
  /\ snd (shr mrs e n) = e + Z.max 0 n.
Proof.
  intros Hm. destruct n as [|p|p]; simpl.
  - rewrite Z.div_1_r. split; [reflexivity|lia].
  - split; [apply iter_pos_shr_1, Hm|reflexivity].
  - rewrite Z.div_1_r. split; [reflexivity|lia].
Qed.

Lemma shr_m_of_loc (m : Z) (l : location) : shr_m (shr_record_of_loc m l) = m.
Proof. destruct l as [|[]]; reflexivity. Qed.

Lemma loc_of_shr_record_of_loc (m : Z) (l : location) :
  loc_of_shr_record (shr_record_of_loc m l) = l.
Proof. destruct l as [|[]]; reflexivity. Qed.

Lemma round_nearest_even_bounds (m : Z) (l : location) :
  m <= round_nearest_even m l <= m + 1.
Proof.
  destruct l as [|[]]; simpl; try lia. destruct (Z.even m); lia.
Qed.

Lemma shr_fexp_spec (m e : Z) (l : location) :
  0 <= m ->
  let n := Z.max 0 (fexp 53 1024 (Zdigits2 m + e) - e) in
  shr_m (fst (shr_fexp 53 1024 m e l)) = m / 2 ^ n
  /\ snd (shr_fexp 53 1024 m e l) = e + n.
Proof.
  intros Hm n. unfold shr_fexp.
  destruct (shr_spec (shr_record_of_loc m l) e (fexp 53 1024 (Zdigits2 m + e) - e))
    as [H1 H2]; [rewrite shr_m_of_loc; exact Hm|].
  rewrite shr_m_of_loc in H1. split; assumption.
Qed.

Lemma shr_fexp_exact (m e : Z) (l : location) :
  fexp 53 1024 (Zdigits2 m + e) <= e ->
  shr_fexp 53 1024 m e l = (shr_record_of_loc m l, e).
Proof.
  intros H. unfold shr_fexp, shr.
  destruct (fexp 53 1024 (Zdigits2 m + e) - e) eqn:E; try reflexivity. lia.
Qed.

(** What [binary_round_aux] returns for a non-negative mantissa: the
    result has mantissa [M] and exponent [ex + j] with
    [M * 2^j] within [2^j] of [mx]. *)
Lemma binary_round_aux_spec (mx ex : Z) (lx : location) :
  0 <= mx ->
  let f1 := fexp 53 1024 (Zdigits2 mx + ex) in
  exists M j,
    0 <= M /\ 0 <= j
    /\ binary_round_aux 53 1024 false mx ex lx = float_of_parts M (ex + j)
    /\ M * 2 ^ j <= mx + 2 ^ j
    /\ mx + 1 <= (M + 1) * 2 ^ j
    /\ (ex <= f1 -> j <= f1 - ex + 1)
    /\ (f1 <= ex -> lx = loc_Exact -> j = 0 /\ M = mx).
Proof.
  intros Hmx f1. unfold binary_round_aux.
  set (n := Z.max 0 (f1 - ex)).
  destruct (shr_fexp_spec mx ex lx Hmx) as [Hm' He'].
  fold f1 in Hm', He'. fold n in Hm', He'.
  destruct (shr_fexp 53 1024 mx ex lx) as [mrs' e'] eqn:E1. simpl in Hm', He'.
  set (m'' := round_nearest_even (shr_m mrs') (loc_of_shr_record mrs')).
  pose proof (round_nearest_even_bounds (shr_m mrs') (loc_of_shr_record mrs')) as Hr.
  fold m'' in Hr. rewrite Hm' in Hr.
  assert (0 < 2 ^ n) as Hpn by (apply Z.pow_pos_nonneg; lia).
  assert (0 <= mx / 2 ^ n) as Hq by (apply Z.div_pos; lia).
  assert (0 <= m'') as Hm''0 by lia.
  set (k := Z.max 0 (fexp 53 1024 (Zdigits2 m'' + e') - e')).
  destruct (shr_fexp_spec m'' e' loc_Exact Hm''0) as [HM HE].
  fold k in HM, HE.
  destruct (shr_fexp 53 1024 m'' e' loc_Exact) as [mrs'' e''] eqn:E2. simpl in HM, HE.
  assert (0 < 2 ^ k) as Hpk by (apply Z.pow_pos_nonneg; lia).
  exists (shr_m mrs''), (n + k).
  assert (0 <= shr_m mrs'') as HM0 by (rewrite HM; apply Z.div_pos; lia).
  assert (2 ^ (n + k) = 2 ^ n * 2 ^ k) as Hpow by (apply Z.pow_add_r; lia).
  pose proof (Z.mul_div_le mx (2 ^ n) Hpn) as Ha1.
  pose proof (Z.mul_succ_div_gt mx (2 ^ n) Hpn) as Ha2.
  pose proof (Z.mul_div_le m'' (2 ^ k) Hpk) as Hb1.
  pose proof (Z.mul_succ_div_gt m'' (2 ^ k) Hpk) as Hb2.
  rewrite <- HM in Hb1, Hb2.
  split; [exact HM0|]. split; [lia|].
  split.
  { unfold float_of_parts. rewrite HE, He'. rewrite Z.add_assoc. reflexivity. }
  split.
  { rewrite Hpow. nia. }
  split.
  { rewrite Hpow. nia. }
  split.
  - intros Hle. assert (n = f1 - ex) as Hn by lia.
    assert (k <= 1); [|lia].
    assert (Zdigits2 m'' + e' <= Z.max (Zdigits2 mx + ex + 1) (1 + e')) as Hd.
    { destruct (Z.eq_dec mx 0) as [->|Hne].
      - rewrite Z.div_0_l in Hr by lia.
        assert (Zdigits2 m'' <= 1) by (apply Zdigits2_le; simpl; lia). lia.
      - destruct (Zdigits2_bounds mx ltac:(lia)) as [_ Hhi].
        destruct (Z.le_gt_cases n (Zdigits2 mx)) as [Hnd|Hnd].
        + assert (mx / 2 ^ n < 2 ^ (Zdigits2 mx - n)).
          { apply Z.div_lt_upper_bound; [lia|].
            rewrite <- Z.pow_add_r by lia.
            replace (n + (Zdigits2 mx - n)) with (Zdigits2 mx) by lia. exact Hhi. }
          assert (Zdigits2 m'' <= Zdigits2 mx - n + 1).
          { apply Zdigits2_le; [lia|lia|].
            rewrite Z.pow_add_r by lia. lia. }
          lia.
        + assert (mx / 2 ^ n = 0) as Hz.
          { apply Z.div_small. split; [lia|].
            assert (2 ^ Zdigits2 mx <= 2 ^ n)
              by (apply Z.pow_le_mono_r; [lia|pose proof (Zdigits2_nonneg mx); lia]).
            lia. }
          rewrite Hz in Hr.
          assert (Zdigits2 m'' <= 1) by (apply Zdigits2_le; simpl; lia). lia. }
    subst k. revert Hd. subst f1 n. rewrite He' in *. unfold fexp, emin in *. lia.
  - intros Hle ->.
    rewrite shr_fexp_exact in E1 by (fold f1; lia).
    injection E1 as <- <-.
    subst m''. simpl in *.
    rewrite shr_fexp_exact in E2 by (fold f1; lia).
    injection E2 as <- <-. simpl. split; [subst n k|reflexivity].
    fold f1. lia.
Qed.

Lemma Zdigits2_unique (m d : Z) :
  0 < m -> 2 ^ (d - 1) <= m < 2 ^ d -> Zdigits2 m = d.
Proof.
  intros Hm [Hlo Hhi].
  assert (0 < d) as Hd.
  { destruct (Z.lt_ge_cases 0 d) as [|Hd]; [assumption|].
    destruct (Z.eq_dec d 0) as [->|]; [simpl in Hhi; lia|].
    rewrite (Z.pow_neg_r 2 d) in Hhi by lia. lia. }
  destruct (Zdigits2_bounds m Hm) as [Hlo' Hhi'].
  assert (Zdigits2 m <= d) by (apply Zdigits2_le; lia).
  destruct (Z.eq_dec (Zdigits2 m) d) as [|Hne]; [assumption|].
  assert (2 ^ Zdigits2 m <= 2 ^ (d - 1))
    by (apply Z.pow_le_mono_r; lia).
  lia.
Qed.

Lemma Pos_iter_xO (p k : positive) :
  Z.pos (Pos.iter xO p k) = Z.pos p * 2 ^ Z.pos k.
Proof.
  induction k as [|k IH] using Pos.peano_ind.
  - simpl Pos.iter. change (Z.pos p~0) with (2 * Z.pos p).
    rewrite Z.pow_1_r. ring.
  - rewrite Pos.iter_succ. change (Z.pos (Pos.iter xO p k)~0) with (2 * Z.pos (Pos.iter xO p k)).
    rewrite IH, Pos2Z.inj_succ, Z.pow_succ_r by lia. ring.
Qed.

(** [float(h)] is exact below [2^53]: the mantissa is [h] shifted to 53
    bits. *)
Lemma float_of_int_exact (h : Z) :
  0 < h < 2 ^ 53 ->
  exists mh,
    float_of_int h = S754_finite false mh (Zdigits2 h - 53)
    /\ Z.pos mh = h * 2 ^ (53 - Zdigits2 h)
    /\ 2 ^ 52 <= Z.pos mh < 2 ^ 53.
Proof.
  intros [Hpos Hlt]. destruct h as [|p|p]; try lia.
  set (d := Zdigits2 (Z.pos p)).
  destruct (Zdigits2_bounds (Z.pos p) Hpos) as [Hlo Hhi]. fold d in Hlo, Hhi.
  assert (1 <= d <= 53) as Hd.
  { split; [subst d; simpl; lia|].
    apply Zdigits2_le; lia. }
  unfold float_of_int, binary_normalize, binary_round.
  change (Z.pos (digits2_pos p)) with d.
  assert (fexp 53 1024 (d + 0) = d - 53) as Hf by (unfold fexp, emin; lia).
  rewrite Hf.
  assert (exists mz, shl_align p 0 (d - 53) = (mz, d - 53)
                     /\ Z.pos mz = Z.pos p * 2 ^ (53 - d)) as (mz & Hal & Hmz).
  { unfold shl_align. destruct (d - 53 - 0) as [|k|k] eqn:Ek; try lia.
    - exists p. replace (d - 53) with 0 by lia. replace (53 - d) with 0 by lia.
      split; [reflexivity|simpl; lia].
    - exists (Pos.iter xO p k). split; [reflexivity|].
      rewrite Pos_iter_xO. f_equal. f_equal. lia. }
  rewrite Hal.
  assert (2 ^ 52 <= Z.pos mz < 2 ^ 53) as Hrange.
  { rewrite Hmz.
    assert (0 < 2 ^ (53 - d)) by (apply Z.pow_pos_nonneg; lia).
    assert (2 ^ 52 = 2 ^ (d - 1) * 2 ^ (53 - d)) as ->
        by (rewrite <- Z.pow_add_r by lia; f_equal; lia).
    assert (2 ^ 53 = 2 ^ d * 2 ^ (53 - d)) as ->
        by (rewrite <- Z.pow_add_r by lia; f_equal; lia).
    split; [apply Z.mul_le_mono_nonneg_r|apply Z.mul_lt_mono_pos_r]; lia. }
  assert (Zdigits2 (Z.pos mz) = 53) as Hdz
      by (apply Zdigits2_unique; [lia|exact Hrange]).
  destruct (binary_round_aux_spec (Z.pos mz) (d - 53) loc_Exact ltac:(lia))
    as (M & j & _ & _ & Hres & _ & _ & _ & Hex).
  rewrite Hdz in Hex.
  destruct Hex as [-> ->]; [unfold fexp, emin; lia|reflexivity|].
  rewrite Hres. exists mz. unfold float_of_parts.
  rewrite Z.add_0_r.
  destruct (Z.leb_spec (d - 53) (1024 - 53)); [|lia].
  split; [reflexivity|]. split; assumption.
Qed.

(** The zone test [y > h * 0.7] agrees with the exact test
    [y > 0.7 h] off the line [10 y = 7 h]. *)
Lemma above_0_7_spec (h y : Z) :
  0 <= h < 2 ^ 40 ->
  (7 * h < 10 * y -> above_0_7 h y = true)
  /\ (above_0_7 h y = true -> 7 * h <= 10 * y).
Proof.
  intros [Hh0 Hh]. unfold above_0_7.
  destruct (Z.eq_dec h 0) as [->|Hne].
  { change (float_mul (float_of_int 0) float_0_7) with (S754_zero false).
    unfold int_gt_float.
    split; [intros; apply Z.ltb_lt; lia|intros H%Z.ltb_lt; lia]. }
  destruct (float_of_int_exact h ltac:(lia)) as (mh & -> & Hmh & Hrange).
  set (d := Zdigits2 h) in *.
  assert (1 <= d <= 40) as Hd.
  { split.
    - pose proof (Zdigits2_bounds h ltac:(lia)) as [_ Hhi].
      destruct (Z.lt_ge_cases 0 d) as [|Hd0]; [lia|].
      assert (2 ^ Zdigits2 h <= 2 ^ 0) by (apply Z.pow_le_mono_r; lia).
      simpl in *. lia.
    - apply Zdigits2_le; lia. }
  set (P := 2 ^ (53 - d)) in *.
  assert (2 ^ 13 <= P) as HP by (apply Z.pow_le_mono_r; lia).
  unfold float_mul, SFmul, float_0_7. simpl xorb.
  set (c := 6305039478318694%positive).
  set (mx := Z.pos (mh * c)).
  assert (mx = h * P * 6305039478318694) as Hmx
      by (subst mx; rewrite Pos2Z.inj_mul, Hmh; reflexivity).
  assert (2 ^ 104 <= mx < 2 ^ 106) as Hmxr.
  { subst mx. rewrite Pos2Z.inj_mul. subst c.
    change (2 ^ 104) with (2 ^ 52 * 2 ^ 52). change (2 ^ 106) with (2 ^ 53 * 2 ^ 53).
    split; nia. }
  set (ex := d - 53 + -53).
  destruct (binary_round_aux_spec mx ex loc_Exact ltac:(lia))
    as (M & j & HM0 & Hj0 & -> & Hup & Hlo & Hj & _).
  assert (105 <= Zdigits2 mx <= 106) as HD.
  { split.
    - destruct (Zdigits2_bounds mx ltac:(lia)) as [_ Hhi].
      destruct (Z.le_gt_cases 105 (Zdigits2 mx)) as [|Hgt]; [assumption|].
      assert (2 ^ Zdigits2 mx <= 2 ^ 104)
        by (apply Z.pow_le_mono_r; lia). lia.
    - apply Zdigits2_le; lia. }
  assert (j <= 54) as Hj54 by (subst ex; unfold fexp, emin in Hj; lia).
  set (T := 2 ^ j) in *.
  assert (0 < T <= 2 ^ 54) as HT
      by (split; [apply Z.pow_pos_nonneg; lia|apply Z.pow_le_mono_r; lia]).
  assert (0 < M) as HMpos by (change (2 ^ 104) with 20282409603651670423947251286016 in *;
                              change (2 ^ 54) with 18014398509481984 in *; nia).
  destruct M as [|pm|pm]; try lia.
  unfold float_of_parts.
  destruct (Z.leb_spec (ex + j) (1024 - 53)) as [_|]; [|subst ex; lia].
  unfold int_gt_float.
  (* the test in units of [2^ex] *)
  assert (2 ^ (- ex) = 2 ^ 53 * P) as Hpex.
  { subst ex P. replace (- (d - 53 + -53)) with (53 + (53 - d)) by lia.
    apply Z.pow_add_r; lia. }
  assert ((if 0 <=? ex + j then Z.pos pm * 2 ^ (ex + j) <? y
           else Z.pos pm <? y * 2 ^ (- (ex + j))) = (Z.pos pm * T <? y * (2 ^ 53 * P))) as ->.
  { rewrite <- Hpex.
    destruct (Z.leb_spec 0 (ex + j)) as [HE|HE].
    - assert (T = 2 ^ (ex + j) * 2 ^ (- ex)) as ->
          by (subst T; rewrite <- Z.pow_add_r by (subst ex; lia); f_equal; lia).
      assert (0 < 2 ^ (- ex)) by (apply Z.pow_pos_nonneg; subst ex; lia).
      rewrite Z.mul_assoc.
      destruct (Z.ltb_spec (Z.pos pm * 2 ^ (ex + j)) y), (Z.ltb_spec (Z.pos pm * 2 ^ (ex + j) * 2 ^ (- ex)) (y * 2 ^ (- ex))); try reflexivity; nia.
    - assert (2 ^ (- ex) = 2 ^ (- (ex + j)) * T) as ->
          by (subst T; rewrite <- Z.pow_add_r by lia; f_equal; lia).
      rewrite Z.mul_assoc.
      destruct (Z.ltb_spec (Z.pos pm) (y * 2 ^ (- (ex + j)))), (Z.ltb_spec (Z.pos pm * T) (y * 2 ^ (- (ex + j)) * T)); try reflexivity; nia. }
  change (2 ^ 54) with 18014398509481984 in *.
  change (2 ^ 53) with 9007199254740992 in *.
  change (2 ^ 40) with 1099511627776 in *.
  change (2 ^ 13) with 8192 in *.
  clear Hmxr HD Hj Hrange Hmh.
  set (A := h * P) in *. set (B := y * P).
  assert (A < 1099511627776 * P) as HA by (subst A; nia).
  replace (y * (9007199254740992 * P)) with (9007199254740992 * B) by (subst B; ring).
  split.
  - intros Hlt. apply Z.ltb_lt.
    assert (7 * A + P <= 10 * B) by (subst A B; nia).
    lia.
  - intros Hlt%Z.ltb_lt.
    destruct (Z.le_gt_cases (7 * h) (10 * y)) as [|Hgt]; [assumption|exfalso].
    assert (10 * B + P <= 7 * A) by (subst A B; nia).
    lia.
Qed.

Lemma SFdiv_core_binary_spec (m1 e1 m2 e2 : Z) :
  0 < m1 -> 0 < m2 ->
  let e' := Z.min (fexp 53 1024 (Zdigits2 m1 + e1 - (Zdigits2 m2 + e2))) (e1 - e2) in
  exists l,
    SFdiv_core_binary 53 1024 m1 e1 m2 e2
    = (m1 * 2 ^ (e1 - e2 - e') / m2, e', l).
Proof.
  intros H1 H2 e'. unfold SFdiv_core_binary. fold e'.
  assert (0 <= e1 - e2 - e') as Hs by lia.
  assert ((match e1 - e2 - e' with
           | 0 => m1
           | Z.pos _ => Z.shiftl m1 (e1 - e2 - e')
           | Z.neg _ => 0
           end) = m1 * 2 ^ (e1 - e2 - e')) as ->.
  { generalize dependent (e1 - e2 - e'). intros s Hs.
    destruct s as [|s|s]; try lia.
    apply Z.shiftl_mul_pow2. lia. }
  unfold Z.div.
  destruct (Z.div_eucl (m1 * 2 ^ (e1 - e2 - e')) m2) as [q r].
  eexists. reflexivity.
Qed.

Lemma Zdigits2_range (m lo hi : Z) :
  0 < m -> 0 <= lo -> 2 ^ lo <= m < 2 ^ hi -> lo + 1 <= Zdigits2 m <= hi.
Proof.
  intros Hm Hlo [H1 H2].
  assert (0 <= hi).
  { destruct (Z.lt_ge_cases hi 0) as [Hneg|]; [|assumption].
    rewrite (Z.pow_neg_r 2 hi Hneg) in H2. lia. }
  split; [|apply Zdigits2_le; lia].
  destruct (Zdigits2_bounds m Hm) as [_ Hhi].
  destruct (Z.le_gt_cases (lo + 1) (Zdigits2 m)) as [|Hgt]; [assumption|].
  assert (2 ^ Zdigits2 m <= 2 ^ lo)
    by (apply Z.pow_le_mono_r; [lia|lia]). lia.
Qed.

(** The scale factor [2048 / M] of an image whose larger side is [M]:
    its mantissa and exponent, against the integer quotient
    [q = 2^105 / (M * 2^(53 - d))]. *)
Lemma float_scale_spec (M : Z) :
  2048 < M < 2 ^ 32 ->
  let d := Zdigits2 M in
  exists ms j q,
    float_div (float_of_int 2048) (float_of_int M)
    = S754_finite false ms (- 41 - d + j)
    /\ 0 <= j <= 2
    /\ q * (M * 2 ^ (53 - d)) <= 2 ^ 105 < (q + 1) * (M * 2 ^ (53 - d))
    /\ Z.pos ms * 2 ^ j <= q + 2 ^ j
    /\ q + 1 <= (Z.pos ms + 1) * 2 ^ j.
Proof.
  intros [HM1 HM2] d.
  destruct (float_of_int_exact M ltac:(change (2 ^ 53) with 9007199254740992; change (2^32) with 4294967296 in HM2; lia))
    as (mM & -> & HmM & HrM).
  fold d in HmM |- *.
  assert (12 <= d <= 32) as Hd.
  { subst d. assert (12 <= Zdigits2 M <= 32); [|lia].
    apply (Zdigits2_range M 11 32); [lia|lia|].
    change (2 ^ 11) with 2048. lia. }
  change (float_of_int 2048) with (S754_finite false 4503599627370496 (-41)).
  unfold float_div, SFdiv. simpl xorb.
  assert (Zdigits2 (Z.pos mM) = 53) as HdM
      by (apply Zdigits2_unique; [lia|exact HrM]).
  destruct (SFdiv_core_binary_spec (Z.pos 4503599627370496) (-41) (Z.pos mM) (d - 53)
              ltac:(lia) ltac:(lia)) as (l & Hcore).
  rewrite HdM in Hcore.
  change (Zdigits2 (Z.pos 4503599627370496)) with 53 in Hcore.
  assert (Z.min (fexp 53 1024 (53 + -41 - (53 + (d - 53)))) (-41 - (d - 53)) = - 41 - d) as He'
      by (unfold fexp, emin; lia).
  rewrite He' in Hcore.
  replace (-41 - (d - 53) - (-41 - d)) with 53 in Hcore by lia.
  change (Z.pos 4503599627370496 * 2 ^ 53) with (2 ^ 105) in Hcore.
  rewrite Hcore.
  set (q := 2 ^ 105 / Z.pos mM).
  assert (0 < 2 ^ 105) as H105 by (apply Z.pow_pos_nonneg; lia).
  pose proof (Z.mul_div_le (2 ^ 105) (Z.pos mM) ltac:(lia)) as Hq1.
  pose proof (Z.mul_succ_div_gt (2 ^ 105) (Z.pos mM) ltac:(lia)) as Hq2.
  fold q in Hq1, Hq2.
  assert (2 ^ 52 <= q <= 2 ^ 53) as Hqr.
  { split.
    - apply Z.div_le_lower_bound; [lia|].
      change (2 ^ 105) with (2 ^ 53 * 2 ^ 52). nia.
    - apply Z.div_le_upper_bound; [lia|].
      change (2 ^ 105) with (2 ^ 52 * 2 ^ 53). nia. }
  destruct (binary_round_aux_spec q (-41 - d) l ltac:(lia))
    as (Ms & j & HMs0 & Hj0 & -> & Hup & Hlo & Hj & _).
  assert (53 <= Zdigits2 q <= 54) as Hdq.
  { assert (52 + 1 <= Zdigits2 q <= 54); [|lia].
    apply (Zdigits2_range q 52 54); [lia|lia|].
    change (2 ^ 54) with (2 * 2 ^ 53). lia. }
  assert (j <= 2) as Hj2 by (unfold fexp, emin in Hj; lia).
  assert (0 < 2 ^ j <= 4) as HT.
  { split; [apply Z.pow_pos_nonneg; lia|].
    change 4 with (2 ^ 2). apply Z.pow_le_mono_r; lia. }
  assert (0 < Ms) as HMspos.
  { change (2 ^ 52) with 4503599627370496 in Hqr. nia. }
  destruct Ms as [|ms|ms]; try lia.
  exists ms, j, q. unfold float_of_parts.
  destruct (Z.leb_spec (-41 - d + j) (1024 - 53)); [|lia].
  rewrite <- HmM.
  split; [reflexivity|]. split; [lia|].
  split; [rewrite (Z.mul_comm q); lia|]. split; assumption.
Qed.

(** [int(f)] of a positive float, in units of [2^-k]. *)
Lemma int_of_float_units (m : positive) (e k t : Z) :
  0 <= t -> 0 <= k -> e = t - k ->
  int_of_float (S754_finite false m e) = Some (Z.pos m * 2 ^ t / 2 ^ k).
Proof.
  intros Ht Hk ->. unfold int_of_float. f_equal.
  assert (0 < 2 ^ t) by (apply Z.pow_pos_nonneg; lia).
  assert (0 < 2 ^ k) by (apply Z.pow_pos_nonneg; lia).
  destruct (Z.leb_spec 0 (t - k)) as [HE|HE].
  - replace t with ((t - k) + k) at 2 by lia.
    rewrite Z.pow_add_r by lia. rewrite Z.mul_assoc, Z.div_mul by lia. reflexivity.
  - replace k with (- (t - k) + t) at 2 by lia.
    rewrite Z.pow_add_r by lia.
    rewrite Z.div_mul_cancel_r by (try apply Z.pow_nonzero; lia). reflexivity.
Qed.

(** One side [z] of an image whose larger side is [M > 2048], scaled
    as [int(z * (2048 / M))]: the result is the exact quotient
    [2048 z / M] rounded down, or one less when the quotient is an
    integer. *)
Lemma scaled_side_spec (z M : Z) :
  0 < z <= M -> 2048 < M < 2 ^ 32 ->
  exists n,
    int_of_float
      (float_mul (float_of_int z)
         (float_div (float_of_int 2048) (float_of_int M))) = Some n
    /\ 2048 * z - M <= n * M <= 2048 * z.
Proof.
  intros [Hz0 HzM] HM.
  destruct (float_scale_spec M HM) as (ms & j & q & -> & Hj & [Hq1 Hq2] & Hs1 & Hs2).
  destruct HM as [HM1 HM2]. change (2 ^ 32) with 4294967296 in HM2.
  set (dM := Zdigits2 M) in *.
  assert (12 <= dM <= 32) as HdM.
  { subst dM. assert (11 + 1 <= Zdigits2 M <= 32); [|lia].
    apply (Zdigits2_range M 11 32); [lia|lia|].
    change (2 ^ 11) with 2048. change (2 ^ 32) with 4294967296. lia. }
  destruct (float_of_int_exact z ltac:(change (2 ^ 53) with 9007199254740992; lia))
    as (mz & -> & Hmz & Hrz).
  set (dz := Zdigits2 z) in *.
  assert (1 <= dz <= 32) as Hdz.
  { subst dz. assert (0 + 1 <= Zdigits2 z <= 32); [|lia].
    apply (Zdigits2_range z 0 32); [lia|lia|].
    change (2 ^ 0) with 1. change (2 ^ 32) with 4294967296. lia. }
  set (Pz := 2 ^ (53 - dz)) in *. set (PM := 2 ^ (53 - dM)) in *.
  set (Tj := 2 ^ j) in *.
  assert (0 < Pz) as HPz by (apply Z.pow_pos_nonneg; lia).
  assert (0 < PM) as HPM by (apply Z.pow_pos_nonneg; lia).
  assert (0 < Tj <= 4) as HTj.
  { split; [apply Z.pow_pos_nonneg; lia|].
    change 4 with (2 ^ 2). apply Z.pow_le_mono_r; lia. }
  set (b := M * PM) in *.
  assert (2 ^ 52 <= b < 2 ^ 53) as Hb.
  { subst b PM.
    destruct (Zdigits2_bounds M ltac:(lia)) as [Hlo Hhi]. fold dM in Hlo, Hhi.
    assert (2 ^ 52 = 2 ^ (dM - 1) * 2 ^ (53 - dM)) as ->
        by (rewrite <- Z.pow_add_r by lia; f_equal; lia).
    assert (2 ^ 53 = 2 ^ dM * 2 ^ (53 - dM)) as ->
        by (rewrite <- Z.pow_add_r by lia; f_equal; lia).
    split; [apply Z.mul_le_mono_nonneg_r|apply Z.mul_lt_mono_pos_r]; lia. }
  change (2 ^ 52) with 4503599627370496 in *.
  change (2 ^ 53) with 9007199254740992 in *.
  change (2 ^ 105) with 40564819207303340847894502572032 in *.
  set (Ms := Z.pos ms) in *.
  assert (4503599627370496 <= q <= 9007199254740992) as Hqr by nia.
  assert (1125899906842624 <= Ms <= 9007199254740996) as HMsr by nia.
  (* the product *)
  unfold float_mul, SFmul. simpl xorb.
  set (mx := Z.pos (mz * ms)).
  assert (mx = z * Pz * Ms) as Hmx
      by (subst mx Ms; rewrite Pos2Z.inj_mul, Hmz; reflexivity).
  set (a := z * Pz) in *.
  assert (2 ^ 102 <= mx < 2 ^ 107) as Hmxr.
  { rewrite Hmx. fold a.
    change (2 ^ 102) with (4503599627370496 * 1125899906842624).
    change (2 ^ 107) with (9007199254740992 * 18014398509481984).
    split; nia. }
  set (ex := dz - 53 + (-41 - dM + j)).
  destruct (binary_round_aux_spec mx ex loc_Exact ltac:(lia))
    as (M2 & j2 & HM20 & Hj20 & -> & Hup & Hlo & Hj2 & _).
  assert (103 <= Zdigits2 mx <= 107) as HD
      by (apply (Zdigits2_range mx 102 107); lia).
  set (D := Zdigits2 mx) in *.
  assert (j2 <= D - 52) as Hj2' by (subst ex; unfold fexp, emin in Hj2; lia).
  set (T2 := 2 ^ j2) in *.
  assert (0 < T2) as HT2 by (apply Z.pow_pos_nonneg; lia).
  assert (T2 * 2 ^ 51 <= mx) as HT2rel.
  { destruct (Zdigits2_bounds mx ltac:(lia)) as [HloD _]. fold D in HloD.
    assert (T2 * 2 ^ 51 <= 2 ^ (D - 1)); [|lia].
    subst T2. rewrite <- Z.pow_add_r by lia.
    apply Z.pow_le_mono_r; lia. }
  change (2 ^ 51) with 2251799813685248 in HT2rel.
  assert (0 < M2) as HM2pos.
  { change (2 ^ 102) with 5070602400912917605986812821504 in Hmxr. nia. }
  destruct M2 as [|m2|m2]; try lia.
  unfold float_of_parts.
  destruct (Z.leb_spec (ex + j2) (1024 - 53)) as [_|]; [|subst ex; lia].
  (* the truncation, in units of [W = 2^(-ex)] *)
  rewrite (int_of_float_units m2 (ex + j2) (- ex) j2) by (subst ex; lia).
  fold T2.
  set (W := 2 ^ (- ex)).
  assert (0 < W) as HW by (apply Z.pow_pos_nonneg; subst ex; lia).
  assert (mx + 1 <= Z.pos m2 * T2 + T2) as Hlo' by lia. clear Hlo.
  set (U := Z.pos m2 * T2) in *.
  set (n := U / W).
  pose proof (Z.mul_div_le U W HW) as Hn1.
  pose proof (Z.mul_succ_div_gt U W HW) as Hn2.
  fold n in Hn1, Hn2.
  exists n. split; [reflexivity|].
  assert (W * PM * Tj = Pz * 2 ^ 94) as HWeq.
  { subst W PM Tj Pz ex. rewrite <- !Z.pow_add_r by lia. f_equal. lia. }
  change (2 ^ 94) with 19807040628566084398385987584 in HWeq.
  clear Hj2 Hj2' HD Hmxr Hrz Hmz Hj Hdz HdM.
  clearbody W U n T2 Tj PM Pz D mx. clear ex dz dM D HM20 Hj20 HM2pos.
  subst mx b a.
  set (X := z * Pz * Ms) in *.
  set (b := M * PM) in *.
  set (s := Ms * Tj) in *.
  assert (s * b <= 40564819207303376876691521536000) as Hsb1 by nia.
  assert (40564819207303304819097483608064 <= s * b) as Hsb2 by nia.
  assert (0 < Tj * b) as HTb by nia.
  assert (0 <= z * Pz) as HA by nia.
  assert (W * Tj * b = Pz * 19807040628566084398385987584 * M) as HWb
      by (subst b; rewrite <- HWeq; ring).
  split.
  - assert ((n + 1) * W * 2251799813685248 > X * (2251799813685248 - 1)) as E1 by lia.
    assert ((n + 1) * W * 2251799813685248 * (Tj * b) > X * (2251799813685248 - 1) * (Tj * b)) as E2
        by (apply Z.lt_gt, Z.mul_lt_mono_pos_r; lia).
    assert (X * (2251799813685248 - 1) * (Tj * b) = z * Pz * (s * b) * (2251799813685248 - 1)) as E3
        by (subst X s; ring).
    assert (z * Pz * 40564819207303304819097483608064 <= z * Pz * (s * b)) as E4
        by (apply Z.mul_le_mono_nonneg_l; lia).
    assert ((n + 1) * W * 2251799813685248 * (Tj * b) = ((n + 1) * M * 44601490397061246283071436545296723011960832) * Pz) as E5.
    { transitivity ((n + 1) * 2251799813685248 * (W * Tj * b)); [ring|]. rewrite HWb. ring. }
    assert (z * 91343852333181310693272680134781173842007031808 * Pz < ((n + 1) * M * 44601490397061246283071436545296723011960832) * Pz) as E6 by lia.
    apply Z.mul_lt_mono_pos_r in E6; [|exact HPz].
    lia.
  - assert (n * W * 2251799813685248 <= X * (2251799813685248 + 1)) as E1 by lia.
    assert (n * W * 2251799813685248 * (Tj * b) <= X * (2251799813685248 + 1) * (Tj * b)) as E2
        by (apply Z.mul_le_mono_nonneg_r; lia).
    assert (X * (2251799813685248 + 1) * (Tj * b) = z * Pz * (s * b) * (2251799813685248 + 1)) as E3
        by (subst X s; ring).
    assert (z * Pz * (s * b) <= z * Pz * 40564819207303376876691521536000) as E4
        by (apply Z.mul_le_mono_nonneg_l; lia).
    assert (n * W * 2251799813685248 * (Tj * b) = (n * M * 44601490397061246283071436545296723011960832) * Pz) as E5.
    { transitivity (n * 2251799813685248 * (W * Tj * b)); [ring|]. rewrite HWb. ring. }
    assert ((n * M * 44601490397061246283071436545296723011960832) * Pz <= z * 91343852333181554082187923954826261209022464000 * Pz) as E6 by lia.
    apply Z.mul_le_mono_pos_r in E6; [|exact HPz].
    lia.
Qed.

(** The literal [0.7] is the double nearest to 7/10: the quotient of
    the floats 7 and 10. *)
Lemma float_0_7_nearest :
  float_0_7 = float_div (float_of_int 7) (float_of_int 10).
Proof. vm_compute. reflexivity. Qed.

(** * Properties *)

(** ** Python numbers *)

Lemma Qltb_lt (a b : Q) : Qltb a b = true <-> (a < b)%Q.
Proof.
  unfold Qltb. rewrite negb_true_iff. split.
  - intros H. apply Qnot_le_lt. intros Hle.
    apply Qle_bool_iff in Hle. congruence.
  - intros H. destruct (Qle_bool b a) eqn:E; [|reflexivity].
    apply Qle_bool_iff in E. exfalso. apply (Qlt_not_le _ _ H E).
Qed.

Lemma Qltb_ge (a b : Q) : Qltb a b = false <-> (b <= a)%Q.
Proof.
  unfold Qltb. rewrite negb_false_iff. apply Qle_bool_iff.
Qed.

Lemma py_truediv_Some (a b : Z) :
  b <> 0 -> py_truediv a b = Some (inject_Z a / inject_Z b)%Q.
Proof.
  intros H. unfold py_truediv. destruct (Z.eqb_spec b 0); congruence.
Qed.

(** ** GeometryOps *)

Lemma inside_operands_area (a b : box) (i a1 : Z) :
  inside_operands a b = Divide i a1 ->
  a1 = (let '(x, y, w, h) := a in w * h).
Proof.
  destruct a as [[[x1 y1] w1] h1], b as [[[x2 y2] w2] h2]. simpl.
  destruct (_ || _); [discriminate|]. intros [= _ <-]. reflexivity.
Qed.

Lemma boxes_apart_early (a b : box) :
  boxes_apart a b -> inside_operands a b = EarlyFalse.
Proof.
  destruct a as [[[x1 y1] w1] h1], b as [[[x2 y2] w2] h2]. simpl.
  intros Hap.
  assert ((Z.min (x1 + w1) (x2 + w2) <? Z.max x1 x2)
          || (Z.min (y1 + h1) (y2 + h2) <? Z.max y1 y2) = true) as ->;
    [|reflexivity].
  apply orb_true_iff. rewrite !Z.ltb_lt. lia.
Qed.

Lemma calculate_overlap_apart (a b : box) :
  boxes_apart a b -> calculate_overlap a b = 0%Q.
Proof.
  destruct a as [[[x1 y1] w1] h1], b as [[[x2 y2] w2] h2]. simpl.
  intros Hap.
  assert ((Z.min (x1 + w1) (x2 + w2) <? Z.max x1 x2)
          || (Z.min (y1 + h1) (y2 + h2) <? Z.max y1 y2) = true) as ->;
    [|reflexivity].
  apply orb_true_iff. rewrite !Z.ltb_lt. lia.
Qed.

(** C9 (as amended).  [calculate_overlap] is symmetric in its two boxes;
    the overlap of a box with itself is 1 when the box has positive width
    and height, and 0 for any other box; and two boxes whose rectangles
    have no point in common have overlap 0. *)
Theorem calculate_overlap_properties (a b : box) :
  calculate_overlap a b = calculate_overlap b a
  /\ (positive_box a -> Qeq (calculate_overlap a a) 1)
  /\ (~ positive_box a -> calculate_overlap a a = 0%Q)
  /\ (boxes_apart a b -> calculate_overlap a b = 0%Q).
Proof.
  split; [|split; [|split]].
  - destruct a as [[[x1 y1] w1] h1], b as [[[x2 y2] w2] h2]. simpl.
    rewrite (Z.max_comm x2 x1), (Z.max_comm y2 y1).
    rewrite (Z.min_comm (x2 + w2)), (Z.min_comm (y2 + h2)).
    rewrite (Z.add_comm (w2 * h2)). reflexivity.
  - destruct a as [[[x y] w] h]. simpl. intros [Hw Hh].
    rewrite !Z.max_id, !Z.min_id.
    destruct (Z.ltb_spec (x + w) x); [lia|].
    destruct (Z.ltb_spec (y + h) y); [lia|]. simpl.
    replace (x + w - x) with w by lia. replace (y + h - y) with h by lia.
    replace (w * h + w * h - w * h) with (w * h) by lia.
    destruct (Z.ltb_spec 0 (w * h)); [|nia].
    apply Qmult_inv_r. intros Heq.
    unfold Qeq, inject_Z in Heq. simpl in Heq. lia.
  - destruct a as [[[x y] w] h]. simpl. intros Hn.
    rewrite !Z.max_id, !Z.min_id.
    destruct (Z.ltb_spec (x + w) x); [reflexivity|].
    destruct (Z.ltb_spec (y + h) y); [reflexivity|]. simpl.
    destruct (Z.ltb_spec 0 (w * h + w * h - (x + w - x) * (y + h - y)));
      [|reflexivity].
    exfalso. apply Hn. nia.
  - apply calculate_overlap_apart.
Qed.

Lemma calculate_overlap_properties_witness :
  Qeq (calculate_overlap (3, 4, 20, 10) (3, 4, 20, 10)) 1
  /\ calculate_overlap (0, 0, 10, 10) (11, 0, 10, 10) = 0%Q.
Proof.
  split.
  - apply (calculate_overlap_properties (3, 4, 20, 10) (3, 4, 20, 10)).
    simpl. lia.
  - apply (calculate_overlap_properties (0, 0, 10, 10) (11, 0, 10, 10)).
    simpl. lia.
Defined.

(** C9 fails as stated: a box of width 0 overlaps itself with ratio 0,
    not 1 (the guard [if union > 0 else 0.0]). *)
Lemma calculate_overlap_self_degenerate :
  ~ Qeq (calculate_overlap (5, 5, 0, 7) (5, 5, 0, 7)) 1.
Proof. vm_compute. discriminate. Qed.

Lemma is_bbox_inside_defined (a b : box) (threshold : Q) :
  positive_box a -> exists r, is_bbox_inside a b threshold = Some r.
Proof.
  intros Hpos. unfold is_bbox_inside.
  destruct (inside_operands a b) as [|i a1] eqn:Hop; [eauto|].
  apply inside_operands_area in Hop. subst a1.
  destruct a as [[[x y] w] h]. simpl in Hpos.
  rewrite py_truediv_Some by nia. eauto.
Qed.

(** C10.  For a first box of positive width and height [is_bbox_inside]
    returns a value for every second box and threshold: when it divides,
    the divisor is the area [w * h] of the first box and is positive, and
    when the two rectangles have no point in common it returns [False]
    on the early path, without dividing.  No guard protects the
    division otherwise: whenever the early test does not fire for a
    first box of area 0 the call raises, as it does for the box
    [(0, 0, 0, 0)] against [(0, 0, 1, 1)]. *)
Theorem is_bbox_inside_total (a b : box) (threshold : Q) :
  (positive_box a ->
     (exists r, is_bbox_inside a b threshold = Some r)
     /\ (forall i a1, inside_operands a b = Divide i a1 ->
           a1 = (let '(x, y, w, h) := a in w * h) /\ 0 < a1)
     /\ (boxes_apart a b ->
           inside_operands a b = EarlyFalse
           /\ is_bbox_inside a b threshold = Some false))
  /\ (forall i, inside_operands a b = Divide i 0 ->
        is_bbox_inside a b threshold = None)
  /\ is_bbox_inside (0, 0, 0, 0) (0, 0, 1, 1) threshold = None.
Proof.
  split; [|split].
  - intros Hpos.
    assert (forall i a1, inside_operands a b = Divide i a1 ->
              a1 = (let '(x, y, w, h) := a in w * h) /\ 0 < a1) as Hdiv.
    { intros i a1 Hop. pose proof (inside_operands_area _ _ _ _ Hop) as Ha.
      split; [exact Ha|]. subst a1.
      destruct a as [[[x y] w] h]. simpl in Hpos. nia. }
    split; [|split].
    + apply is_bbox_inside_defined, Hpos.
    + exact Hdiv.
    + intros Hap. unfold is_bbox_inside.
      rewrite (boxes_apart_early a b Hap). split; reflexivity.
  - intros i Hop. unfold is_bbox_inside. rewrite Hop. reflexivity.
  - reflexivity.
Qed.

Lemma is_bbox_inside_total_witness :
  exists r, is_bbox_inside (0, 0, 10, 10) (5, 5, 10, 10) (8 # 10) = Some r.
Proof.
  apply (is_bbox_inside_total (0, 0, 10, 10) (5, 5, 10, 10) (8 # 10)).
  simpl. lia.
Defined.

(** ** Stable descending sort *)

Section SortedReverse.
Context {A : Type} (key : A -> Q).

Lemma insert_desc_perm (x : A) (l : list A) :
  Permutation (x :: l) (insert_desc key x l).
Proof.
  induction l as [|y l IH]; simpl; [reflexivity|].
  destruct (Qltb (key x) (key y)); [|reflexivity].
  rewrite perm_swap. apply perm_skip, IH.
Qed.

Lemma sorted_reverse_perm (l : list A) : Permutation l (sorted_reverse key l).
Proof.
  induction l as [|x l IH]; simpl; [reflexivity|].
  rewrite <- insert_desc_perm. apply perm_skip, IH.
Qed.

Lemma ge_by_trans (a b c : A) : ge_by key a b -> ge_by key b c -> ge_by key a c.
Proof. unfold ge_by. intros H1 H2. apply (Qle_trans _ _ _ H2 H1). Qed.

Lemma insert_desc_sorted (x : A) (l : list A) :
  StronglySorted (ge_by key) l -> StronglySorted (ge_by key) (insert_desc key x l).
Proof.
  induction 1 as [|y l Hs IH Hy]; simpl.
  - repeat constructor.
  - destruct (Qltb (key x) (key y)) eqn:E.
    + constructor; [exact IH|].
      apply (Permutation_Forall (insert_desc_perm x l)).
      constructor; [|exact Hy].
      apply Qltb_lt in E. unfold ge_by. apply Qlt_le_weak, E.
    + apply Qltb_ge in E.
      constructor; [constructor; assumption|].
      constructor; [exact E|].
      eapply Forall_impl; [exact Hy|].
      intros z Hz. apply (ge_by_trans x y z); assumption.
Qed.

Lemma sorted_reverse_sorted (l : list A) :
  StronglySorted (ge_by key) (sorted_reverse key l).
Proof.
  induction l as [|x l IH]; simpl; [constructor|].
  apply insert_desc_sorted, IH.
Qed.

(** The sort is stable, so it leaves a list that is already in
    non-increasing order as it is. *)
Lemma sorted_reverse_id (l : list A) :
  StronglySorted (ge_by key) l -> sorted_reverse key l = l.
Proof.
  induction 1 as [|x l Hs IH Hx]; simpl; [reflexivity|].
  rewrite IH. destruct l as [|y l]; simpl; [reflexivity|].
  inversion Hx as [|? ? Hxy _]; subst.
  apply Qltb_ge in Hxy. rewrite Hxy. reflexivity.
Qed.

Lemma StronglySorted_take (n : nat) (l : list A) :
  StronglySorted (ge_by key) l -> StronglySorted (ge_by key) (take n l).
Proof.
  intros Hs. revert n. induction Hs as [|x l Hs IH Hx]; intros [|n]; simpl;
    try constructor.
  - apply IH.
  - apply Forall_take, Hx.
Qed.

Lemma StronglySorted_sublist (l1 l2 : list A) :
  sublist l1 l2 -> StronglySorted (ge_by key) l2 -> StronglySorted (ge_by key) l1.
Proof.
  induction 1 as [|x l1 l2 Hsub IH|x l1 l2 Hsub IH]; intros Hs.
  - constructor.
  - inversion Hs as [|? ? Hs' Hx]; subst. constructor; [apply IH, Hs'|].
    rewrite Forall_forall in Hx |- *. intros y Hy. apply Hx.
    eapply elem_of_sublist; eassumption.
  - inversion Hs; subst. apply IH. assumption.
Qed.

End SortedReverse.

(** ** ImportanceRanker *)

Lemma importance_score_multiplier (m : mask) :
  Qeq (calculate_importance_score m)
      (inject_Z (area m) * stability_score m * spec_multiplier m).
Proof.
  unfold calculate_importance_score, spec_multiplier.
  destruct (is_protected m); [reflexivity|].
  destruct (is_merged m); [reflexivity|].
  destruct (is_info_region m); [|ring].
  destruct (has_tag bottom_info m), (is_bottom_protected m); ring.
Qed.

(** C3.  Whatever list of regions reaches the ranker, the list
    [sort_masks_by_importance(masks)[:20]] that [split_image] keeps has
    at most 20 entries and is in non-increasing order of the importance
    score; it is the front of a rearrangement of the input, and the score
    is [area * stability_score] times 3.0 for a protected region, else
    2.5 for a merged region, else 1.8 for an info region, times 1.4 more
    with [bottom_info] and 1.6 more with [is_bottom_protected]. *)
Theorem final_masks_ranked (masks : list mask) :
  (length (final_masks masks) <= 20)%nat
  /\ StronglySorted (ge_by calculate_importance_score) (final_masks masks)
  /\ final_masks masks = take 20 (sort_masks_by_importance masks)
  /\ Permutation masks (sort_masks_by_importance masks)
  /\ (forall m, Qeq (calculate_importance_score m)
                    (inject_Z (area m) * stability_score m * spec_multiplier m)).
Proof.
  unfold final_masks, sort_masks_by_importance.
  split; [|split; [|split; [|split]]].
  - rewrite length_take. lia.
  - apply StronglySorted_take, sorted_reverse_sorted.
  - reflexivity.
  - apply sorted_reverse_perm.
  - apply importance_score_multiplier.
Qed.

(** ** Deduplicator *)

Lemma Forall_of_sublist {A} (P : A -> Prop) (l1 l2 : list A) :
  sublist l1 l2 -> Forall P l2 -> Forall P l1.
Proof.
  rewrite !Forall_forall. intros Hsub H x Hx.
  apply H. eapply elem_of_sublist; eassumption.
Qed.

Lemma sublist_list_remove (k : mask) (l : list mask) :
  sublist (list_remove k l) l.
Proof.
  induction l as [|y l IH]; simpl; [constructor|].
  destruct (mask_eqb y k).
  - apply sublist_cons. reflexivity.
  - apply sublist_skip, IH.
Qed.





Lemma compare_with_kept_defined thr c acc :
  positive_box (bbox c) -> Forall (fun k => positive_box (bbox k)) acc ->
  exists v, compare_with_kept thr c acc = Some v.
Proof.
  intros Hc. induction 1 as [|k acc Hk _ IH]; simpl; [eauto|].
  destruct (is_bbox_inside_defined (bbox c) (bbox k) default_containment Hc)
    as [cik ->].
  destruct (is_bbox_inside_defined (bbox k) (bbox c) default_containment Hk)
    as [kic ->].
  destruct (_ || _); [eauto|]. destruct kic; eauto.
Qed.

Lemma dedup_step_sublist thr acc c acc' (P : list mask) :
  dedup_step thr acc c = Some acc' ->
  sublist acc P -> sublist acc' (P ++ [c]).
Proof.
  unfold dedup_step. intros Hstep Hsub.
  destruct (compare_with_kept thr c acc) as [[|k|]|]; simplify_eq.
  - apply sublist_inserts_r, Hsub.
  - apply sublist_app; [|reflexivity].
    etransitivity; [apply sublist_list_remove|exact Hsub].
  - apply sublist_app; [exact Hsub|reflexivity].
Qed.

Lemma dedup_loop_sublist thr l acc out (P : list mask) :
  dedup_loop thr l acc = Some out ->
  sublist acc P -> sublist out (P ++ l).
Proof.
  revert acc P. induction l as [|c l IH]; simpl; intros acc P Hloop Hsub.
  - simplify_eq. rewrite app_nil_r. exact Hsub.
  - destruct (dedup_step thr acc c) as [acc'|] eqn:Hstep; [|discriminate].
    replace (P ++ c :: l) with ((P ++ [c]) ++ l) by (rewrite <- app_assoc; reflexivity).
    eapply IH; [exact Hloop|]. eapply dedup_step_sublist; eassumption.
Qed.

Lemma remove_duplicate_masks_sublist masks thr out :
  remove_duplicate_masks masks thr = Some out ->
  sublist out (sorted_reverse quality masks).
Proof.
  unfold remove_duplicate_masks. intros H.
  destruct masks as [|m masks]; [simplify_eq; constructor|].
  apply (dedup_loop_sublist thr _ [] out [] H). constructor.
Qed.

Lemma dedup_loop_defined thr l acc :
  Forall (fun k => positive_box (bbox k)) l ->
  Forall (fun k => positive_box (bbox k)) acc ->
  exists out, dedup_loop thr l acc = Some out.
Proof.
  intros Hl. revert acc. induction Hl as [|c l Hc _ IH]; simpl; intros acc Hacc;
    [eauto|].
  destruct (compare_with_kept_defined thr c acc Hc Hacc) as [v Hv].
  unfold dedup_step. rewrite Hv.
  assert (Forall (fun k => positive_box (bbox k)) (acc ++ [c])) as Hsnoc.
  { apply Forall_app. split; [exact Hacc|]. constructor; [exact Hc|constructor]. }
  destruct v as [|k|]; apply IH; try assumption.
  apply Forall_app. split; [|constructor; [exact Hc|constructor]].
  eapply Forall_of_sublist; [apply sublist_list_remove|exact Hacc].
Qed.

Lemma remove_duplicate_masks_defined masks thr :
  Forall (fun k => positive_box (bbox k)) masks ->
  exists out, remove_duplicate_masks masks thr = Some out.
Proof.
  intros H. unfold remove_duplicate_masks.
  destruct masks as [|m masks]; [eauto|].
  apply dedup_loop_defined; [|constructor].
  eapply Permutation_Forall; [apply sorted_reverse_perm|exact H].
Qed.







(** *** Running the Deduplicator on its own output *)

Lemma keep_chain_nil thr : keep_chain thr [].
Proof. intros [|? ?] c post H; discriminate. Qed.

Lemma keep_chain_snoc thr acc c :
  keep_chain thr acc -> compare_with_kept thr c acc = Some Keep ->
  keep_chain thr (acc ++ [c]).
Proof.
  intros Hacc Hc pre c' post Heq.
  destruct post as [|d post _] using rev_ind.
  - apply app_inj_tail in Heq as [-> ->]. exact Hc.
  - rewrite app_comm_cons, app_assoc in Heq.
    apply app_inj_tail in Heq as [-> _]. eapply Hacc. reflexivity.
Qed.

Lemma dedup_loop_keep_chain thr l acc out :
  dedup_loop thr l acc = Some out ->
  forallb (fun v => negb (is_replace v)) (dedup_verdicts thr l acc) = true ->
  keep_chain thr acc -> keep_chain thr out.
Proof.
  revert acc. induction l as [|c l IH]; simpl; intros acc Hloop Hfree Hacc.
  - simplify_eq. exact Hacc.
  - unfold dedup_step in *.
    destruct (compare_with_kept thr c acc) as [[|k|]|] eqn:Hv; try discriminate.
    + simpl in Hfree. eapply IH; eassumption.
    + simpl in Hfree. eapply IH; [eassumption|exact Hfree|].
      apply keep_chain_snoc; assumption.
Qed.

Lemma dedup_loop_of_keep_chain thr l pre :
  keep_chain thr (pre ++ l) -> dedup_loop thr l pre = Some (pre ++ l).
Proof.
  revert pre. induction l as [|c l IH]; simpl; intros pre Hchain.
  - rewrite app_nil_r. reflexivity.
  - unfold dedup_step. rewrite (Hchain pre c l eq_refl).
    rewrite IH; rewrite <- app_assoc; [reflexivity|exact Hchain].
Qed.

Lemma remove_duplicate_masks_sorted masks thr out :
  remove_duplicate_masks masks thr = Some out ->
  sorted_reverse quality out = out.
Proof.
  intros H. apply sorted_reverse_id.
  eapply StronglySorted_sublist;
    [eapply remove_duplicate_masks_sublist; exact H|apply sorted_reverse_sorted].
Qed.

(** C2 (as amended).  When the first run of [remove_duplicate_masks]
    never takes the replacement branch, running it again on its own
    output, with the same threshold, returns that output unchanged.  In
    every case the output of the first run is already in sorted order,
    and a second run that returns yields a sub-list of it: it adds and
    reorders nothing, but may remove further regions. *)
Theorem remove_duplicate_masks_idempotent (masks out : list mask) (thr : Q) :
  remove_duplicate_masks masks thr = Some out ->
  (replacement_free masks thr = true ->
     remove_duplicate_masks out thr = Some out)
  /\ sorted_reverse quality out = out
  /\ (forall out', remove_duplicate_masks out thr = Some out' -> sublist out' out).
Proof.
  intros Hrun.
  pose proof (remove_duplicate_masks_sorted masks thr out Hrun) as Hsorted.
  split; [|split].
  - intros Hfree. unfold remove_duplicate_masks.
    destruct out as [|o out]; [reflexivity|]. rewrite Hsorted.
    apply (dedup_loop_of_keep_chain thr (o :: out) []). simpl.
    unfold remove_duplicate_masks in Hrun.
    destruct masks as [|m masks]; [discriminate|].
    eapply dedup_loop_keep_chain; [exact Hrun|exact Hfree|apply keep_chain_nil].
  - exact Hsorted.
  - intros out' Hrun'.
    rewrite <- Hsorted. eapply remove_duplicate_masks_sublist, Hrun'.
Qed.

Lemma remove_duplicate_masks_idempotent_witness :
  remove_duplicate_masks [view_corner; view_band] (3 # 10)
  = Some [view_corner; view_band].
Proof.
  apply (remove_duplicate_masks_idempotent
           [view_band; view_corner] [view_corner; view_band] (3 # 10));
    reflexivity.
Defined.

(** C2 fails as stated: the three regions pass the EngineeringFilter of
    a 100 x 100 drawing; the first run on them keeps the band and the
    frame, and the second run, given these two, discards the frame. *)
Lemma remove_duplicate_masks_not_idempotent :
  filter_masks_by_engineering_criteria 100 100
    [view_frame; view_corner; view_band]
  = Some [view_frame; view_corner; view_band]
  /\ remove_duplicate_masks [view_frame; view_corner; view_band] (3 # 10)
     = Some [view_band; view_frame]
  /\ remove_duplicate_masks [view_band; view_frame] (3 # 10) = Some [view_band].
Proof. repeat split; reflexivity. Qed.

(** ** EngineeringFilter *)

(** C8 (as amended).  A candidate that passes the area-ratio,
    aspect-ratio and compactness checks is dropped by the boundary check
    exactly when (its x is below 10 and it lies outside the info zones,
    or its y is below 10) and its area is strictly below 5% of the image
    area.  The zone test exempts a region only from the left-margin
    rule: an info-zone region is kept when its y is at least 10, and is
    dropped like any other when it touches the top margin with a small
    area.  A candidate that is not dropped is kept with its zone tag.
    The zones are those of the filter's own test
    [y > h * 0.7 or x > w * 0.7], decided in binary64. *)
Theorem margin_exception (h w : Z) (m : mask) :
  area_ratio_ok h w m = true ->
  aspect_ratio_ok h w m = true ->
  compactness_ok h w m = true ->
  (filter_mask h w m = None <->
     ((box_x (bbox m) < 10 /\ in_info_zone h w m = false)
      \/ box_y (bbox m) < 10)
     /\ (inject_Z (area m) < inject_Z (h * w) * (5 # 100))%Q)
  /\ (in_info_zone h w m = true -> 10 <= box_y (bbox m) ->
        filter_mask h w m = Some (tag_protected h w m))
  /\ (filter_mask h w m <> None ->
        filter_mask h w m = Some (tag_protected h w m)).
Proof.
  intros Ha Hr Hc. unfold filter_mask. rewrite Ha, Hr, Hc. simpl.
  assert (margin_drop h w m = true <->
          ((box_x (bbox m) < 10 /\ in_info_zone h w m = false)
           \/ box_y (bbox m) < 10)
          /\ (inject_Z (area m) < inject_Z (h * w) * (5 # 100))%Q) as Hdrop.
  { unfold margin_drop, total_area.
    destruct (bbox m) as [[[x y] width] height] eqn:Hb. simpl.
    destruct (in_info_zone h w m) eqn:Hz; simpl;
      rewrite ?andb_false_r, ?andb_true_r; simpl;
      destruct (Z.ltb_spec x 10), (Z.ltb_spec y 10); simpl;
      rewrite ?Qltb_lt; split; intros H'; try discriminate;
      try (split; [lia || (left; split; [lia|reflexivity])|exact H']);
      try (destruct H' as [[[? ?]|?] ?]; (assumption || lia || discriminate)). }
  destruct (margin_drop h w m).
  - apply proj1 in Hdrop. specialize (Hdrop eq_refl).
    split; [|split].
    + split; [intros _; exact Hdrop|reflexivity].
    + intros Hz Hy. destruct Hdrop as [[[_ E]|E] _]; [congruence|lia].
    + intros H'. contradiction.
  - apply proj2 in Hdrop.
    split; [|split]; [|reflexivity|reflexivity].
    split; [discriminate|]. intros H'. apply Hdrop in H'. discriminate.
Qed.

Lemma margin_exception_witness : filter_mask 100 100 artifact_left = None.
Proof.
  apply (margin_exception 100 100 artifact_left); try reflexivity.
  split; [left; split; [simpl; lia|reflexivity]|reflexivity].
Defined.

(** C8 fails as stated: the note lies in the right info zone, passes
    the three checks, and is dropped by the boundary check because it
    touches the top margin. *)
Lemma margin_exception_drops_info_region :
  area_ratio_ok 100 100 note_top_right = true
  /\ aspect_ratio_ok 100 100 note_top_right = true
  /\ compactness_ok 100 100 note_top_right = true
  /\ in_info_zone 100 100 note_top_right = true
  /\ margin_drop 100 100 note_top_right = true
  /\ filter_masks_by_engineering_criteria 100 100 [note_top_right] = Some [].
Proof. repeat split; reflexivity. Qed.

(** ** RegionExpander *)

Lemma expanded_bbox_in_bounds (height width : Z) (m : mask) :
  in_bounds height width (expanded_bbox height width m).
Proof.
  unfold expanded_bbox, in_bounds.
  destruct (bbox m) as [[[x y] w] h].
  destruct (has_tag merged_region m); [lia|].
  destruct (has_tag bottom_info m); lia.
Qed.

Lemma expand_mask_spec (height width : Z) (m : mask) :
  (is_info_region m = false -> expand_mask height width m = m)
  /\ (is_info_region m = true ->
        in_bounds height width (bbox (expand_mask height width m))
        /\ area (expand_mask height width m)
           = box_area (bbox (expand_mask height width m))).
Proof.
  unfold expand_mask. split; intros ->; simpl; [reflexivity|].
  pose proof (expanded_bbox_in_bounds height width m) as Hb.
  destruct (expanded_bbox height width m) as [[[x y] w] h]. simpl.
  split; [exact Hb|reflexivity].
Qed.

(** C6 (as amended).  [expand_info_regions] returns one region per
    input region, in order.  A non-info region is passed through
    unchanged; an info region comes out with a box that satisfies
    [0 <= x], [0 <= y], [x + w <= width] and [y + h <= height] and with
    its area recomputed as [w * h] of that box.  Hence every output box
    lies within the image as soon as the boxes of the non-info inputs
    do. *)
Theorem expand_info_regions_bounds (height width : Z) (info_masks : list mask) :
  Forall2
    (fun m m' =>
       (is_info_region m = false -> m' = m)
       /\ (is_info_region m = true ->
             in_bounds height width (bbox m')
             /\ area m' = box_area (bbox m')))
    info_masks (expand_info_regions height width info_masks)
  /\ (Forall (fun m => is_info_region m = false ->
                       in_bounds height width (bbox m)) info_masks ->
      Forall (fun m' => in_bounds height width (bbox m'))
        (expand_info_regions height width info_masks)).
Proof.
  unfold expand_info_regions. split.
  - induction info_masks as [|m l IH]; simpl; constructor; [|exact IH].
    apply expand_mask_spec.
  - induction 1 as [|m l Hm _ IH]; simpl; constructor; [|exact IH].
    destruct (expand_mask_spec height width m) as [H0 H1].
    destruct (is_info_region m) eqn:E.
    + apply H1. reflexivity.
    + rewrite H0 by reflexivity. apply Hm. reflexivity.
Qed.

Lemma expand_info_regions_bounds_witness :
  Forall (fun m' => in_bounds 100 100 (bbox m'))
    (expand_info_regions 100 100 [view_frame; info_right]).
Proof.
  apply (expand_info_regions_bounds 100 100 [view_frame; info_right]).
  repeat constructor; simpl; lia.
Defined.

(** C6 fails as stated: a non-info region whose box reaches beyond the
    image is handed back as it is. *)
Lemma expand_info_regions_passes_outside_box :
  expand_info_regions 100 100 [view_outside] = [view_outside]
  /\ ~ in_bounds 100 100 (bbox view_outside).
Proof. split; [reflexivity|]. simpl. lia. Qed.

(** ** ProximityMerger *)

Lemma fold_left_min_spec (l : list Z) (d : Z) :
  fold_left Z.min l d <= d
  /\ Forall (fun x => fold_left Z.min l d <= x) l
  /\ (forall B, B <= d -> Forall (fun x => B <= x) l -> B <= fold_left Z.min l d).
Proof.
  revert d. induction l as [|x l IH]; simpl; intros d.
  - split; [lia|]. split; [constructor|]. intros B HB _. exact HB.
  - destruct (IH (Z.min d x)) as (H1 & H2 & H3).
    split; [lia|]. split; [constructor; [lia|exact H2]|].
    intros B HB HF. inversion HF; subst. apply H3; [lia|assumption].
Qed.

Lemma fold_left_max_spec (l : list Z) (d : Z) :
  d <= fold_left Z.max l d
  /\ Forall (fun x => x <= fold_left Z.max l d) l
  /\ (forall B, d <= B -> Forall (fun x => x <= B) l -> fold_left Z.max l d <= B).
Proof.
  revert d. induction l as [|x l IH]; simpl; intros d.
  - split; [lia|]. split; [constructor|]. intros B HB _. exact HB.
  - destruct (IH (Z.max d x)) as (H1 & H2 & H3).
    split; [lia|]. split; [constructor; [lia|exact H2]|].
    intros B HB HF. inversion HF; subst. apply H3; [lia|assumption].
Qed.

Lemma py_min_spec (l : list Z) :
  Forall (fun x => py_min l <= x) l
  /\ (forall B, l <> [] -> Forall (fun x => B <= x) l -> B <= py_min l).
Proof.
  destruct l as [|x l]; simpl; [split; [constructor|congruence]|].
  destruct (fold_left_min_spec l x) as (H1 & H2 & H3).
  split; [constructor; assumption|].
  intros B _ HF. inversion HF; subst. apply H3; assumption.
Qed.

Lemma py_max_spec (l : list Z) :
  Forall (fun x => x <= py_max l) l
  /\ (forall B, l <> [] -> Forall (fun x => x <= B) l -> py_max l <= B).
Proof.
  destruct l as [|x l]; simpl; [split; [constructor|congruence]|].
  destruct (fold_left_max_spec l x) as (H1 & H2 & H3).
  split; [constructor; assumption|].
  intros B _ HF. inversion HF; subst. apply H3; assumption.
Qed.

Lemma fold_left_add_sum (l : list Z) (d : Z) :
  fold_left Z.add l d = d + sum_Z l.
Proof.
  revert d. induction l as [|x l IH]; simpl; intros d; [lia|].
  rewrite IH. lia.
Qed.

Lemma Zsum_sum (l : list Z) : Zsum l = sum_Z l.
Proof. unfold Zsum. rewrite fold_left_add_sum. lia. Qed.

Lemma sum_Z_ge_member (l : list Z) :
  Forall (fun x => 0 <= x) l -> Forall (fun x => x <= sum_Z l) l /\ 0 <= sum_Z l.
Proof.
  induction 1 as [|x l Hx _ [IH1 IH2]]; simpl; [split; [constructor|lia]|].
  split; [|lia]. constructor; [lia|].
  eapply Forall_impl; [exact IH1|]. intros y Hy. simpl in Hy. lia.
Qed.

Lemma fold_left_Qplus_sum (l : list Q) (d : Q) :
  Qeq (fold_left Qplus l d) (d + sum_Q l).
Proof.
  revert d. induction l as [|x l IH]; simpl; intros d; [ring|].
  rewrite IH. ring.
Qed.

Lemma np_mean_sum (l : list Q) :
  l <> [] ->
  Qeq (np_mean l * inject_Z (Z.of_nat (length l))) (sum_Q l).
Proof.
  intros Hne. unfold np_mean. rewrite fold_left_Qplus_sum.
  assert (~ Qeq (inject_Z (Z.of_nat (length l))) 0) as Hn.
  { destruct l; [congruence|]. unfold Qeq, inject_Z. simpl. lia. }
  field. exact Hn.
Qed.

Lemma merge_mask_cluster_spec (cluster_masks : list mask) :
  cluster_masks <> [] ->
  exists r,
    merge_mask_cluster cluster_masks = Some r
    /\ Forall (fun m => covers (bbox r) (bbox m)) cluster_masks
    /\ (forall B, Forall (fun m => covers B (bbox m)) cluster_masks ->
          covers B (bbox r))
    /\ area r = sum_Z (map area cluster_masks)
    /\ Qeq (stability_score r * inject_Z (Z.of_nat (length cluster_masks)))
           (sum_Q (map stability_score cluster_masks))
    /\ Qeq (predicted_iou r * inject_Z (Z.of_nat (length cluster_masks)))
           (sum_Q (map predicted_iou cluster_masks))
    /\ original_count r = None
    /\ (forall f, has_flag f r = false).
Proof.
  intros Hne. unfold merge_mask_cluster.
  destruct cluster_masks as [|m0 rest] eqn:Hc; [congruence|].
  rewrite <- Hc in *. clear Hc m0 rest.
  eexists. split; [reflexivity|]. simpl.
  pose proof (py_min_spec (map (fun m => box_x (bbox m)) cluster_masks)) as [Hx1 Hx2].
  pose proof (py_min_spec (map (fun m => box_y (bbox m)) cluster_masks)) as [Hy1 Hy2].
  pose proof (py_max_spec (map (fun m => box_right (bbox m)) cluster_masks)) as [Hr1 Hr2].
  pose proof (py_max_spec (map (fun m => box_bottom (bbox m)) cluster_masks)) as [Hb1 Hb2].
  rewrite Forall_map in Hx1, Hy1, Hr1, Hb1.
  assert (forall T (g : mask -> T), map g cluster_masks <> []) as Hmap.
  { intros T g Hg. apply map_eq_nil in Hg. congruence. }
  split; [|split; [|split; [|split; [|split; [|split]]]]].
  - rewrite Forall_forall in Hx1, Hy1, Hr1, Hb1. rewrite Forall_forall.
    intros m Hm. unfold covers. simpl.
    specialize (Hx1 m Hm). specialize (Hy1 m Hm).
    specialize (Hr1 m Hm). specialize (Hb1 m Hm). simpl in *. lia.
  - intros B HB. unfold covers in *. simpl.
    assert (box_x B <= py_min (map (fun m => box_x (bbox m)) cluster_masks)).
    { apply Hx2; [apply Hmap|]. rewrite Forall_map.
      eapply Forall_impl; [exact HB|]. simpl. tauto. }
    assert (box_y B <= py_min (map (fun m => box_y (bbox m)) cluster_masks)).
    { apply Hy2; [apply Hmap|]. rewrite Forall_map.
      eapply Forall_impl; [exact HB|]. simpl. tauto. }
    assert (py_max (map (fun m => box_right (bbox m)) cluster_masks) <= box_right B).
    { apply Hr2; [apply Hmap|]. rewrite Forall_map.
      eapply Forall_impl; [exact HB|]. simpl. tauto. }
    assert (py_max (map (fun m => box_bottom (bbox m)) cluster_masks) <= box_bottom B).
    { apply Hb2; [apply Hmap|]. rewrite Forall_map.
      eapply Forall_impl; [exact HB|]. simpl. tauto. }
    lia.
  - apply Zsum_sum.
  - rewrite <- (length_map stability_score cluster_masks).
    apply np_mean_sum, Hmap.
  - rewrite <- (length_map predicted_iou cluster_masks).
    apply np_mean_sum, Hmap.
  - reflexivity.
  - intros []; reflexivity.
Qed.

Lemma cluster_ids_complete (labels : list nat) (c : nat) :
  In c labels -> In c (cluster_ids labels).
Proof.
  intros Hc. unfold cluster_ids. apply List.filter_In. split.
  - apply in_seq. split; [lia|]. simpl.
    induction labels as [|x l IH]; simpl in *; [contradiction|].
    destruct Hc as [->|Hc]; [lia|]. specialize (IH Hc). lia.
  - apply existsb_exists. exists c. split; [exact Hc|apply Nat.eqb_refl].
Qed.

Lemma cluster_members_label masks labels c m :
  In m (cluster_members masks labels c) -> In c labels /\ In m masks.
Proof.
  unfold cluster_members. intros H. apply in_map_iff in H as [[m' lab] [<- H]].
  apply List.filter_In in H as [H E]. simpl in *.
  apply Nat.eqb_eq in E. subst lab.
  split; [eapply in_combine_r|eapply in_combine_l]; exact H.
Qed.

Lemma cluster_members_length masks labels c :
  (length (cluster_members masks labels c) <= length masks)%nat.
Proof.
  unfold cluster_members. rewrite length_map.
  etransitivity; [apply List.filter_length_le|].
  rewrite length_combine. lia.
Qed.

Lemma merge_cluster_of_several (cluster_masks : list mask) (r : mask) :
  (1 < length cluster_masks)%nat ->
  merge_mask_cluster cluster_masks = Some r ->
  merge_cluster cluster_masks = [r].
Proof.
  intros Hlen Hr. unfold merge_cluster. rewrite Hr.
  destruct cluster_masks as [|m1 [|m2 rest]]; simpl in Hlen; try lia.
  reflexivity.
Qed.

Lemma merge_nearby_masks_In dbscan_labels masks eps c r :
  (2 <= length masks)%nat ->
  In c (dbscan_labels eps (map mask_center masks)) ->
  In r (merge_cluster
          (cluster_members masks (dbscan_labels eps (map mask_center masks)) c)) ->
  In r (merge_nearby_masks dbscan_labels masks eps).
Proof.
  intros Hlen Hc Hr. unfold merge_nearby_masks.
  destruct (Nat.ltb_spec (length masks) 2); [lia|].
  apply in_concat. eexists. split; [|exact Hr].
  apply in_map_iff. exists c. split; [reflexivity|].
  apply cluster_ids_complete, Hc.
Qed.

(** C5 (as amended).  Whatever labelling the clustering returns, every
    cluster with more than one member contributes one region to the
    output of [merge_nearby_masks], the one [merge_mask_cluster]
    synthesizes: its box covers every member box and is covered by every
    box that does; its area is the exact sum of the member areas, hence
    at least each member area when these are non-negative; its
    stability score and predicted IoU are the arithmetic means over the
    members.  The region records no member count and carries no flag. *)
Theorem merged_cluster_region
    (dbscan_labels : Q -> list (Q * Q) -> list nat)
    (masks : list mask) (eps : Q) (cluster_id : nat) :
  let labels := dbscan_labels eps (map mask_center masks) in
  let members := cluster_members masks labels cluster_id in
  (1 < length members)%nat ->
  exists r,
    merge_mask_cluster members = Some r
    /\ In r (merge_nearby_masks dbscan_labels masks eps)
    /\ Forall (fun m => covers (bbox r) (bbox m)) members
    /\ (forall B, Forall (fun m => covers B (bbox m)) members ->
          covers B (bbox r))
    /\ area r = sum_Z (map area members)
    /\ (Forall (fun m => 0 <= area m) members ->
          Forall (fun m => area m <= area r) members)
    /\ Qeq (stability_score r * inject_Z (Z.of_nat (length members)))
           (sum_Q (map stability_score members))
    /\ Qeq (predicted_iou r * inject_Z (Z.of_nat (length members)))
           (sum_Q (map predicted_iou members))
    /\ original_count r = None
    /\ (forall f, has_flag f r = false).
Proof.
  intros labels members Hlen.
  assert (members <> []) as Hne by (destruct members; simpl in Hlen; [lia|congruence]).
  destruct (merge_mask_cluster_spec members Hne)
    as (r & Hr & Hcov & Hmin & Harea & Hstab & Hiou & Hcount & Hflags).
  exists r. split; [exact Hr|]. split; [|split; [exact Hcov|]].
  { pose proof (cluster_members_length masks labels cluster_id) as Hle.
    fold members in Hle.
    destruct members as [|m0 rest] eqn:Hm; [congruence|].
    assert (In m0 (cluster_members masks labels cluster_id)) as Hin.
    { fold members. rewrite Hm. left. reflexivity. }
    apply cluster_members_label in Hin as [Hc _].
    apply (merge_nearby_masks_In dbscan_labels masks eps cluster_id);
      [simpl in *; lia|exact Hc|].
    fold labels. fold members. rewrite Hm.
    rewrite (merge_cluster_of_several _ r); [left; reflexivity|exact Hlen|exact Hr]. }
  split; [exact Hmin|]. split; [exact Harea|]. split.
  { intros Hpos. rewrite Harea.
    assert (Forall (fun x => 0 <= x) (map area members)) as Hp.
    { apply Forall_forall. intros x Hx.
      apply list_elem_of_In, in_map_iff in Hx as [m [<- Hm]].
      apply (proj1 (Forall_forall _ _) Hpos), list_elem_of_In, Hm. }
    destruct (sum_Z_ge_member _ Hp) as [Hge _].
    apply Forall_forall. intros m Hm.
    apply (proj1 (Forall_forall _ _) Hge (area m)).
    apply list_elem_of_In, in_map, list_elem_of_In, Hm. }
  split; [exact Hstab|]. split; [exact Hiou|]. split; [exact Hcount|exact Hflags].
Qed.

Lemma merged_cluster_region_witness :
  exists r,
    In r (merge_nearby_masks one_cluster
            [title_left_tagged; title_right_tagged] 100)
    /\ area r = 17500
    /\ bbox r = (300, 850, 180, 110).
Proof.
  destruct (merged_cluster_region one_cluster
              [title_left_tagged; title_right_tagged] 100 0%nat)
    as (r & Hr & Hin & _ & _ & Harea & _); [vm_compute; lia|].
  exists r. split; [exact Hin|]. split; [exact Harea|].
  vm_compute in Hr. injection Hr as <-. reflexivity.
Defined.

(** C5 fails as stated: the region synthesized from the two-member
    cluster records no member count (the key is written only by
    [merge_bottom_info_regions]). *)
Lemma merge_nearby_masks_records_no_count :
  length (cluster_members [title_left_tagged; title_right_tagged]
            (one_cluster 100 (map mask_center
                                [title_left_tagged; title_right_tagged])) 0)
  = 2%nat
  /\ map original_count
       (merge_nearby_masks one_cluster
          [title_left_tagged; title_right_tagged] 100)
     = [None].
Proof. split; reflexivity. Qed.

(** ** The stages before the injection of the protected region *)

Lemma py_int_ge_1 (q : Q) : (1 <= q)%Q -> 0 < py_int q.
Proof.
  unfold Qle, py_int. simpl. intros H.
  assert (1 <= Z.quot (Qnum q) (Z.pos (Qden q))); [|lia].
  apply Z.quot_le_lower_bound; lia.
Qed.

Lemma py_int_scaled_positive (z : Z) (s : Q) :
  0 < z -> (0 < s)%Q -> (s <= 1)%Q -> 0 < py_int (inject_Z z / s).
Proof.
  intros Hz Hs Hs1. apply py_int_ge_1.
  apply Qle_shift_div_l; [exact Hs|].
  rewrite Qmult_1_l. apply (Qle_trans _ 1); [exact Hs1|].
  unfold Qle, inject_Z. simpl. lia.
Qed.

Lemma preprocess_scale_range (h w : Z) :
  (0 < preprocess_scale h w)%Q /\ (preprocess_scale h w <= 1)%Q.
Proof.
  unfold preprocess_scale.
  destruct (Z.ltb_spec 2048 (Z.max h w)) as [Hm|Hm].
  - assert (0 < inject_Z (Z.max h w))%Q as Hpos
        by (unfold Qlt, inject_Z; simpl; lia).
    split.
    + apply Qlt_shift_div_l; [exact Hpos|]. rewrite Qmult_0_l. reflexivity.
    + apply Qle_shift_div_r; [exact Hpos|]. rewrite Qmult_1_l.
      unfold Qle, inject_Z. simpl. lia.
  - split; [reflexivity|apply Qle_refl].
Qed.

Lemma rescale_mask_positive (s : Q) (m : mask) :
  (0 < s)%Q -> (s <= 1)%Q ->
  positive_box (bbox m) -> positive_box (bbox (rescale_mask s m)).
Proof.
  intros Hs Hs1 Hpos. unfold rescale_mask, scale_bbox.
  destruct (Qeq_bool s 1); [exact Hpos|]. simpl.
  destruct (bbox m) as [[[x y] bw] bh]. simpl in *.
  split; apply py_int_scaled_positive; tauto.
Qed.

Lemma rescale_mask_not_protected (s : Q) (m : mask) :
  not_protected m -> not_protected (rescale_mask s m).
Proof.
  unfold rescale_mask. destruct (Qeq_bool s 1); [tauto|]. intros H. exact H.
Qed.

Lemma tag_protected_keeps (h w : Z) (m : mask) :
  bbox (tag_protected h w m) = bbox m
  /\ area (tag_protected h w m) = area m
  /\ is_protected (tag_protected h w m) = is_protected m
  /\ info_type (tag_protected h w m) = info_type m
  /\ flags_kept m (tag_protected h w m).
Proof.
  unfold tag_protected.
  destruct (is_in_bottom_protect h m); [|destruct (in_info_zone h w m)];
    repeat split; try reflexivity; intros [] Hf; try exact Hf; reflexivity.
Qed.

Lemma omap_filter_mask (h w : Z) (masks : list mask) :
  Forall (fun m' => exists m, In m masks /\ m' = tag_protected h w m)
    (omap (filter_mask h w) masks).
Proof.
  induction masks as [|m l IH]; simpl; [constructor|].
  assert (Forall (fun m' => exists m0, In m0 (m :: l) /\ m' = tag_protected h w m0)
            (omap (filter_mask h w) l)) as IH'.
  { eapply Forall_impl; [exact IH|]. intros m' [m0 [Hin ->]].
    exists m0. split; [right; exact Hin|reflexivity]. }
  destruct (filter_mask h w m) as [m'|] eqn:E; [|exact IH'].
  constructor; [|exact IH'].
  exists m. split; [left; reflexivity|].
  unfold filter_mask in E.
  repeat match type of E with
         | (if ?b then _ else _) = _ => destruct b; try discriminate
         end.
  congruence.
Qed.

Lemma filter_masks_spec (h w : Z) (masks out : list mask) :
  filter_masks_by_engineering_criteria h w masks = Some out ->
  Forall (fun m' => exists m, In m masks /\ m' = tag_protected h w m) out.
Proof.
  unfold filter_masks_by_engineering_criteria.
  destruct masks as [|m l]; [intros [= <-]; constructor|].
  destruct (total_area h w =? 0); [discriminate|].
  intros [= <-]. apply omap_filter_mask.
Qed.

Lemma filter_masks_defined (h w : Z) (masks : list mask) :
  0 < h -> 0 < w ->
  exists out, filter_masks_by_engineering_criteria h w masks = Some out.
Proof.
  intros Hh Hw. unfold filter_masks_by_engineering_criteria, total_area.
  destruct masks; [eauto|].
  destruct (Z.eqb_spec (h * w) 0); [nia|eauto].
Qed.

Lemma remove_duplicate_masks_Forall (P : mask -> Prop) masks thr out :
  remove_duplicate_masks masks thr = Some out ->
  Forall P masks -> Forall P out.
Proof.
  intros Hrun HP.
  eapply Forall_of_sublist; [eapply remove_duplicate_masks_sublist, Hrun|].
  eapply Permutation_Forall; [apply sorted_reverse_perm|exact HP].
Qed.

Lemma merge_cluster_Forall (P : mask -> Prop) (cluster_masks : list mask) :
  Forall P cluster_masks ->
  (forall b a s i, P (oracle_mask b a s i)) ->
  Forall P (merge_cluster cluster_masks).
Proof.
  intros HP Hnew. unfold merge_cluster.
  destruct cluster_masks as [|m1 [|m2 rest]]; [constructor|exact HP|].
  simpl. constructor; [apply Hnew|constructor].
Qed.

Lemma merge_nearby_masks_Forall (P : mask -> Prop) dbscan_labels masks eps :
  Forall P masks ->
  (forall b a s i, P (oracle_mask b a s i)) ->
  Forall P (merge_nearby_masks dbscan_labels masks eps).
Proof.
  intros HP Hnew. unfold merge_nearby_masks.
  destruct (length masks <? 2)%nat; [exact HP|].
  apply Forall_concat, Forall_forall. intros cl Hcl.
  apply list_elem_of_In, in_map_iff in Hcl as [c [<- _]].
  apply merge_cluster_Forall; [|exact Hnew].
  apply Forall_forall. intros m Hm.
  apply list_elem_of_In, cluster_members_label in Hm as [_ Hm].
  apply (proj1 (Forall_forall _ _) HP), list_elem_of_In, Hm.
Qed.

Lemma detect_info_regions_not_protected (h w : Z) (masks out : list mask) :
  detect_info_regions h w masks = Some out ->
  Forall not_protected masks -> Forall not_protected out.
Proof.
  unfold detect_info_regions. intros Hd HP.
  destruct masks as [|m0 l] eqn:Hm; [simplify_eq; constructor|].
  rewrite <- Hm in *. clear Hm m0 l.
  destruct (h * w =? 0); [discriminate|]. simplify_eq.
  apply Forall_app. split; [|apply Forall_app; split].
  - unfold merge_bottom_info_regions.
    destruct (List.filter (is_bottom_candidate h w) masks); [constructor|].
    constructor; [split; reflexivity|constructor].
  - apply Forall_forall. intros m' Hm'.
    apply list_elem_of_In, in_map_iff in Hm' as [m [<- Hm]].
    apply List.filter_In in Hm as [Hm _].
    apply list_elem_of_In in Hm.
    destruct (proj1 (Forall_forall _ _) HP m Hm) as [Hp _].
    split; [exact Hp|reflexivity].
  - apply Forall_forall. intros m Hm.
    apply list_elem_of_In in Hm.
    apply List.filter_In in Hm as [Hm _]. apply List.filter_In in Hm as [Hm _].
    apply (proj1 (Forall_forall _ _) HP), list_elem_of_In, Hm.
Qed.

Lemma detect_info_regions_defined (h w : Z) (masks : list mask) :
  0 < h -> 0 < w -> exists out, detect_info_regions h w masks = Some out.
Proof.
  intros Hh Hw. unfold detect_info_regions.
  destruct masks; [eauto|].
  destruct (Z.eqb_spec (h * w) 0); [nia|eauto].
Qed.

Lemma create_bottom_info_region_bbox (h w : Z) :
  0 <= h ->
  bbox (create_bottom_info_region h w) = (0, 8 * h / 10, w, h - 8 * h / 10).
Proof.
  intros Hh. unfold create_bottom_info_region, py_int. simpl.
  rewrite Z.quot_div_nonneg by lia.
  replace (h * 8) with (8 * h) by lia. reflexivity.
Qed.

(** C4 (as amended).  Whenever the generators proposed at least one
    candidate, whatever the candidates are, [split_image] does not take
    its early [return []], and when the stages before the injection
    complete, the list [info_masks] is the detector's output followed by
    the synthetic protected region, and no other region of that list is
    marked protected.  The stages do complete for an image of positive
    height and width and candidate boxes of positive width and height.
    The protected region has the box
    [(0, floor(0.8 * h), w, h - floor(0.8 * h))], stability score and
    predicted IoU 0.95, and the flags [protected_region] and
    [bottom_info]. *)
Theorem protected_region_injected
    (dbscan_labels : Q -> list (Q * Q) -> list nat)
    (h w : Z) (proposals : list proposal) :
  proposals <> [] ->
  info_masks_with_protection dbscan_labels h w proposals <> ReturnedEmpty
  /\ (forall info_masks,
        info_masks_with_protection dbscan_labels h w proposals
        = Reached info_masks ->
        exists detected,
          info_masks = detected ++ [create_bottom_info_region h w]
          /\ Forall not_protected detected)
  /\ (0 < h -> 0 < w ->
      Forall (fun p => positive_box (p_bbox p)) proposals ->
      exists info_masks,
        info_masks_with_protection dbscan_labels h w proposals
        = Reached info_masks)
  /\ (0 <= h ->
      bbox (create_bottom_info_region h w) = (0, 8 * h / 10, w, h - 8 * h / 10))
  /\ stability_score (create_bottom_info_region h w) = (95 # 100)%Q
  /\ predicted_iou (create_bottom_info_region h w) = (95 # 100)%Q
  /\ is_protected (create_bottom_info_region h w) = true
  /\ has_flag protectedRegion (create_bottom_info_region h w) = true
  /\ has_flag bottomInfo (create_bottom_info_region h w) = true.
Proof.
  intros Hne. unfold info_masks_with_protection.
  destruct proposals as [|p0 ps] eqn:Hp; [congruence|].
  rewrite <- Hp in *. clear Hp p0 ps.
  destruct (map mask_of_proposal proposals) as [|m0 ms] eqn:Hall.
  { apply map_eq_nil in Hall. congruence. }
  rewrite <- Hall. clear Hall m0 ms.
  set (all_masks := map (rescale_mask (preprocess_scale h w))
                        (map mask_of_proposal proposals)).
  assert (Forall not_protected all_masks) as Hnp.
  { unfold all_masks. apply Forall_forall. intros m Hm.
    apply list_elem_of_In, in_map_iff in Hm as [m1 [<- Hm]].
    apply in_map_iff in Hm as [p [<- _]].
    apply rescale_mask_not_protected. split; reflexivity. }
  split; [|split; [|split; [|split]]].
  - destruct (filter_masks_by_engineering_criteria h w all_masks); [|discriminate].
    destruct (remove_duplicate_masks l (3 # 10)); [|discriminate].
    destruct (detect_info_regions h w _); discriminate.
  - intros info_masks Hrun.
    destruct (filter_masks_by_engineering_criteria h w all_masks)
      as [filtered|] eqn:Hf; [|discriminate].
    destruct (remove_duplicate_masks filtered (3 # 10))
      as [unique|] eqn:Hu; [|discriminate].
    destruct (detect_info_regions h w (merge_nearby_masks dbscan_labels unique 100))
      as [detected|] eqn:Hd; [|discriminate].
    injection Hrun as <-. exists detected. split; [reflexivity|].
    eapply detect_info_regions_not_protected; [exact Hd|].
    apply merge_nearby_masks_Forall; [|split; reflexivity].
    eapply remove_duplicate_masks_Forall; [exact Hu|].
    apply filter_masks_spec in Hf.
    eapply Forall_impl; [exact Hf|]. intros m' [m [Hm ->]].
    apply list_elem_of_In in Hm.
    destruct (proj1 (Forall_forall _ _) Hnp m Hm) as [H1 H2].
    destruct (tag_protected_keeps h w m) as (_ & _ & Hip & Hit & _).
    split; [rewrite Hip; exact H1|].
    unfold has_tag in *. rewrite Hit. exact H2.
  - intros Hh Hw Hpos.
    destruct (filter_masks_defined h w all_masks Hh Hw) as [filtered Hf].
    rewrite Hf.
    assert (Forall (fun m => positive_box (bbox m)) filtered) as Hfp.
    { apply filter_masks_spec in Hf.
      eapply Forall_impl; [exact Hf|]. intros m' [m [Hm ->]].
      destruct (tag_protected_keeps h w m) as (-> & _).
      unfold all_masks in Hm.
      apply in_map_iff in Hm as [m1 [<- Hm]].
      apply in_map_iff in Hm as [p [<- Hp]].
      destruct (preprocess_scale_range h w) as [Hs Hs1].
      apply rescale_mask_positive; [exact Hs|exact Hs1|].
      apply (proj1 (Forall_forall _ _) Hpos), list_elem_of_In, Hp. }
    destruct (remove_duplicate_masks_defined filtered (3 # 10) Hfp) as [unique Hu].
    rewrite Hu.
    destruct (detect_info_regions_defined h w
                (merge_nearby_masks dbscan_labels unique 100) Hh Hw)
      as [detected Hd].
    rewrite Hd. eauto.
  - apply create_bottom_info_region_bbox.
  - repeat split; reflexivity.
Qed.

Lemma protected_region_injected_witness :
  exists info_masks,
    info_masks_with_protection one_cluster 1000 1000 title_proposals
    = Reached info_masks.
Proof.
  apply (protected_region_injected one_cluster 1000 1000 title_proposals).
  - discriminate.
  - lia.
  - lia.
  - repeat constructor.
Defined.

(** C4 fails as stated: when the generators propose nothing,
    [split_image] returns its empty result before the protected region
    is created. *)
Lemma protected_region_not_injected_without_proposals :
  info_masks_with_protection one_cluster 1000 1000 [] = ReturnedEmpty.
Proof. reflexivity. Qed.

(** ** Zone flags through the stages *)

Lemma flags_kept_refl (m : mask) : flags_kept m m.
Proof. intros f H. exact H. Qed.

Lemma flags_kept_trans (m1 m2 m3 : mask) :
  flags_kept m1 m2 -> flags_kept m2 m3 -> flags_kept m1 m3.
Proof. intros H12 H23 f H. apply H23, H12, H. Qed.

Lemma Forall2_flags_kept_refl (l : list mask) : Forall2 flags_kept l l.
Proof. induction l; constructor; [apply flags_kept_refl|assumption]. Qed.

Lemma Forall2_flags_kept_trans (l1 l2 l3 : list mask) :
  Forall2 flags_kept l1 l2 -> Forall2 flags_kept l2 l3 ->
  Forall2 flags_kept l1 l3.
Proof.
  intros H12. revert l3. induction H12 as [|a b l1 l2 Hab _ IH]; intros l3 H23;
    inversion H23; subst; constructor.
  - eapply flags_kept_trans; eassumption.
  - apply IH. assumption.
Qed.

Lemma Forall2_flags_kept_insert (st : store) (a : nat) (m m' : mask) :
  st !! a = Some m -> flags_kept m m' ->
  Forall2 flags_kept st (<[a := m']> st).
Proof.
  revert a. induction st as [|x st IH]; intros [|a] Hl Hk; simpl in *;
    try discriminate.
  - injection Hl as ->. constructor; [exact Hk|apply Forall2_flags_kept_refl].
  - constructor; [apply flags_kept_refl|apply IH; assumption].
Qed.

Lemma expand_mask_flags (height width : Z) (m : mask) :
  flags_kept m (expand_mask height width m).
Proof.
  unfold expand_mask. destruct (is_info_region m); simpl;
    [|apply flags_kept_refl].
  destruct (expanded_bbox height width m) as [[[x y] w] h].
  intros [] H; exact H.
Qed.

Lemma refine_text_mask_flags (h w : Z) (m m' : mask) :
  refine_text_mask h w m = Some m' -> flags_kept m m'.
Proof.
  unfold refine_text_mask. destruct (bbox m) as [[[x y] w_bbox] h_bbox].
  destruct (_ || _); [|intros [= <-]; apply flags_kept_refl].
  destruct (py_truediv _ _) as [aspect_ratio|]; [|discriminate].
  destruct (if Qltb 3 aspect_ratio && (h_bbox <? w_bbox) then _ else _)
    as [expand_h expand_v].
  intros [= <-]. intros [] H; try exact H. reflexivity.
Qed.

Lemma post_process_text_regions_flags (h w : Z) (masks : list nat) (st st' : store) :
  post_process_text_regions h w masks st = Some st' ->
  Forall2 flags_kept st st'.
Proof.
  revert st. induction masks as [|a rest IH]; simpl; intros st Hrun.
  - injection Hrun as <-. apply Forall2_flags_kept_refl.
  - destruct (st !! a) as [m|] eqn:Hl; [|discriminate].
    destruct (refine_text_mask h w m) as [m'|] eqn:Hr; [|discriminate].
    eapply Forall2_flags_kept_trans; [|apply IH, Hrun].
    eapply Forall2_flags_kept_insert; [exact Hl|].
    eapply refine_text_mask_flags, Hr.
Qed.

Lemma final_masks_In (masks : list mask) (m : mask) :
  In m (final_masks masks) -> In m masks.
Proof.
  unfold final_masks, sort_masks_by_importance. intros H.
  apply list_elem_of_In in H. apply list_elem_of_In.
  eapply elem_of_sublist in H; [|apply sublist_take].
  rewrite (sorted_reverse_perm calculate_importance_score masks). exact H.
Qed.

Lemma merge_bottom_info_regions_flags (bottom_masks : list mask)
    (image_width image_height : Z) (r : mask) :
  merge_bottom_info_regions bottom_masks image_width image_height = Some r ->
  original_count r = Some (Z.of_nat (length bottom_masks))
  /\ forall f, has_flag f r = true <-> f = mergedRegion.
Proof.
  unfold merge_bottom_info_regions.
  destruct bottom_masks as [|m0 rest] eqn:Hb; [discriminate|].
  intros [= <-]. split; [reflexivity|].
  intros []; unfold has_flag, has_tag; simpl; split; intros H;
    (reflexivity || discriminate).
Qed.

Lemma detect_info_regions_origin (h w : Z) (masks out : list mask) :
  detect_info_regions h w masks = Some out ->
  Forall (fun m' =>
            In m' masks
            \/ (exists m, In m masks /\ m' = set_info m [right_info])
            \/ (exists r,
                  merge_bottom_info_regions
                    (List.filter (is_bottom_candidate h w) masks) w h = Some r
                  /\ m' = set_info r [bottom_info; merged_region])) out.
Proof.
  unfold detect_info_regions. intros Hd.
  destruct masks as [|m0 l] eqn:Hm; [simplify_eq; constructor|].
  rewrite <- Hm in *. clear Hm m0 l.
  destruct (h * w =? 0); [discriminate|]. simplify_eq.
  apply Forall_app. split; [|apply Forall_app; split].
  - destruct (merge_bottom_info_regions _ w h) as [r|]; [|constructor].
    constructor; [|constructor]. right. right. exists r. split; reflexivity.
  - apply Forall_forall. intros m' Hm'.
    apply list_elem_of_In, in_map_iff in Hm' as [m [<- Hm]].
    apply List.filter_In in Hm as [Hm _].
    right. left. exists m. split; [exact Hm|reflexivity].
  - apply Forall_forall. intros m Hm.
    apply list_elem_of_In in Hm.
    apply List.filter_In in Hm as [Hm _]. apply List.filter_In in Hm as [Hm _].
    left. exact Hm.
Qed.

Lemma set_info_right_flags (m : mask) :
  info_type m = [] -> flags_kept m (set_info m [right_info]).
Proof.
  intros Ht f. unfold has_flag, has_tag. rewrite Ht. simpl.
  destruct f; simpl; rewrite ?orb_false_r; (discriminate || tauto).
Qed.

(** C7 (as amended).  The stages that pass a region on or rewrite its box
    never remove a zone flag: every output region of the
    EngineeringFilter is an input region with the same box and at least
    its flags; every output region of the Deduplicator and of the
    ImportanceRanker is an input region as it was; the RegionExpander
    and the TextRegionRefiner keep the flags of each region they
    process, and a cluster of one region passes the ProximityMerger as
    it is.  The InfoRegionDetector hands on every region that is not a
    candidate unchanged and marks a right candidate, which keeps its
    flags when it arrives without an [info_type] list.  The two merge
    steps do not carry flags over: the region
    [merge_mask_cluster] synthesizes has no flag at all, and the region
    [merge_bottom_info_regions] synthesizes has the merged flag and no
    other, whatever flags their member regions had. *)
Theorem zone_flags_through_stages (h w : Z) :
  (forall masks out,
     filter_masks_by_engineering_criteria h w masks = Some out ->
     Forall (fun m' => exists m,
                In m masks /\ bbox m' = bbox m /\ flags_kept m m') out)
  /\ (forall masks thr out,
        remove_duplicate_masks masks thr = Some out ->
        Forall (fun m' => In m' masks) out)
  /\ (forall m, merge_cluster [m] = [m])
  /\ (forall masks out,
        detect_info_regions h w masks = Some out ->
        Forall (fun m' =>
                  In m' masks
                  \/ (exists m, In m masks /\ m' = set_info m [right_info]
                                /\ (info_type m = [] -> flags_kept m m'))
                  \/ (exists r,
                        merge_bottom_info_regions
                          (List.filter (is_bottom_candidate h w) masks) w h
                        = Some r
                        /\ m' = set_info r [bottom_info; merged_region])) out)
  /\ (forall masks, Forall2 flags_kept masks (expand_info_regions h w masks))
  /\ (forall masks st st',
        post_process_text_regions h w masks st = Some st' ->
        Forall2 flags_kept st st')
  /\ (forall masks, Forall (fun m' => In m' masks) (final_masks masks))
  /\ (forall cluster_masks r,
        merge_mask_cluster cluster_masks = Some r ->
        forall f, has_flag f r = false)
  /\ (forall bottom_masks r,
        merge_bottom_info_regions bottom_masks w h = Some r ->
        forall f, has_flag f r = true <-> f = mergedRegion).
Proof.
  split; [|split; [|split; [|split; [|split; [|split; [|split; [|split]]]]]]].
  - intros masks out Hf. apply filter_masks_spec in Hf.
    eapply Forall_impl; [exact Hf|]. intros m' [m [Hm ->]].
    exists m. destruct (tag_protected_keeps h w m) as (Hb & _ & _ & _ & Hk).
    auto.
  - intros masks thr out Hrun.
    eapply remove_duplicate_masks_Forall; [exact Hrun|].
    apply Forall_forall. intros m Hm. apply list_elem_of_In, Hm.
  - reflexivity.
  - intros masks out Hd. apply detect_info_regions_origin in Hd.
    eapply Forall_impl; [exact Hd|]. intros m' [Hin|[[m [Hin ->]]|Hr]].
    + left. exact Hin.
    + right. left. exists m. split; [exact Hin|]. split; [reflexivity|].
      apply set_info_right_flags.
    + right. right. exact Hr.
  - intros masks. unfold expand_info_regions.
    induction masks; simpl; constructor; [apply expand_mask_flags|assumption].
  - apply post_process_text_regions_flags.
  - intros masks. apply Forall_forall. intros m Hm.
    apply final_masks_In, list_elem_of_In, Hm.
  - intros cluster_masks r Hr.
    destruct cluster_masks as [|m0 rest]; [discriminate|].
    destruct (merge_mask_cluster_spec (m0 :: rest)) as (r' & Hr' & H);
      [discriminate|].
    rewrite Hr in Hr'. injection Hr' as <-. apply H.
  - intros bottom_masks r Hr.
    apply (merge_bottom_info_regions_flags _ _ _ _ Hr).
Qed.

Lemma zone_flags_through_stages_witness :
  Forall (fun m' => exists m,
            In m [title_left; title_right]
            /\ bbox m' = bbox m /\ flags_kept m m')
    [title_left_tagged; title_right_tagged].
Proof.
  apply (proj1 (zone_flags_through_stages 1000 1000)
               [title_left; title_right]).
  reflexivity.
Defined.

(** C7 fails as stated: the filter marks both title fragments as
    bottom-protected, the Deduplicator keeps both, and the region the
    ProximityMerger builds from them no longer has the flag. *)
Lemma merge_drops_zone_flags :
  filter_masks_by_engineering_criteria 1000 1000 [title_left; title_right]
  = Some [title_left_tagged; title_right_tagged]
  /\ map (has_flag bottomProtected) [title_left_tagged; title_right_tagged]
     = [true; true]
  /\ remove_duplicate_masks [title_left_tagged; title_right_tagged] (3 # 10)
     = Some [title_left_tagged; title_right_tagged]
  /\ map (has_flag bottomProtected)
       (merge_nearby_masks one_cluster
          [title_left_tagged; title_right_tagged] 100)
     = [false].
Proof. repeat split; reflexivity. Qed.

(** * Further properties of the code *)

(** ** GeometryOps *)

Lemma Qdiv_Z_range (i u : Z) :
  0 <= i -> i <= u -> 0 < u ->
  (0 <= inject_Z i / inject_Z u)%Q /\ (inject_Z i / inject_Z u <= 1)%Q.
Proof.
  intros Hi Hiu Hu.
  assert (0 < inject_Z u)%Q as Hpos by (unfold Qlt, inject_Z; simpl; lia).
  split.
  - apply Qle_shift_div_l; [exact Hpos|]. rewrite Qmult_0_l.
    unfold Qle, inject_Z. simpl. lia.
  - apply Qle_shift_div_r; [exact Hpos|]. rewrite Qmult_1_l.
    unfold Qle, inject_Z. simpl. lia.
Qed.

(** X1.  For two boxes of non-negative width and height the overlap
    ratio lies between 0 and 1. *)
Theorem calculate_overlap_range (a b : box) :
  nonneg_box a -> nonneg_box b ->
  (0 <= calculate_overlap a b)%Q /\ (calculate_overlap a b <= 1)%Q.
Proof.
  destruct a as [[[x1 y1] w1] h1], b as [[[x2 y2] w2] h2]. simpl.
  intros [Hw1 Hh1] [Hw2 Hh2].
  destruct (Z.ltb_spec (Z.min (x1 + w1) (x2 + w2)) (Z.max x1 x2)) as [|Hx];
    [split; [apply Qle_refl|discriminate]|].
  destruct (Z.ltb_spec (Z.min (y1 + h1) (y2 + h2)) (Z.max y1 y2)) as [|Hy];
    [split; [apply Qle_refl|discriminate]|].
  simpl.
  set (dx := Z.min (x1 + w1) (x2 + w2) - Z.max x1 x2) in *.
  set (dy := Z.min (y1 + h1) (y2 + h2) - Z.max y1 y2) in *.
  assert (0 <= dx /\ dx <= w1 /\ dx <= w2) as (Hdx0 & Hdx1 & Hdx2)
      by (unfold dx; lia).
  assert (0 <= dy /\ dy <= h1 /\ dy <= h2) as (Hdy0 & Hdy1 & Hdy2)
      by (unfold dy; lia).
  assert (dx * dy <= w1 * h1) by nia.
  assert (dx * dy <= w2 * h2) by nia.
  destruct (Z.ltb_spec 0 (w1 * h1 + w2 * h2 - dx * dy)) as [Hu|Hu];
    [|split; [apply Qle_refl|discriminate]].
  apply Qdiv_Z_range; nia.
Qed.

Lemma calculate_overlap_range_witness :
  Qle 0 (calculate_overlap (0, 0, 10, 10) (5, 5, 10, 10))
  /\ Qle (calculate_overlap (0, 0, 10, 10) (5, 5, 10, 10)) 1.
Proof.
  apply (calculate_overlap_range (0, 0, 10, 10) (5, 5, 10, 10));
    simpl; lia.
Defined.

Lemma Qltb_proper (t q r : Q) : Qeq q r -> Qltb t q = Qltb t r.
Proof.
  intros Hqr. destruct (Qltb t r) eqn:E.
  - apply Qltb_lt. apply Qltb_lt in E. rewrite Hqr. exact E.
  - apply Qltb_ge. apply Qltb_ge in E. rewrite Hqr. exact E.
Qed.

(** X2.  When the first box has positive width and height and the second
    box covers it, [is_bbox_inside] returns the ratio 1 compared with the
    threshold: [True] for every threshold below 1 (so a box is inside
    itself at the default 0.8) and [False] for a threshold of 1 or
    more. *)
Theorem is_bbox_inside_covered (a b : box) (threshold : Q) :
  positive_box a -> covers b a ->
  is_bbox_inside a b threshold = Some (Qltb threshold 1).
Proof.
  destruct a as [[[x1 y1] w1] h1], b as [[[x2 y2] w2] h2].
  unfold covers, is_bbox_inside. simpl. intros [Hw Hh] (Hx & Hy & Hr & Hb).
  replace (Z.max x1 x2) with x1 by lia.
  replace (Z.max y1 y2) with y1 by lia.
  replace (Z.min (x1 + w1) (x2 + w2)) with (x1 + w1) by lia.
  replace (Z.min (y1 + h1) (y2 + h2)) with (y1 + h1) by lia.
  destruct (Z.ltb_spec (x1 + w1) x1); [lia|].
  destruct (Z.ltb_spec (y1 + h1) y1); [lia|]. simpl.
  replace (x1 + w1 - x1) with w1 by lia. replace (y1 + h1 - y1) with h1 by lia.
  rewrite py_truediv_Some by nia. f_equal. apply Qltb_proper.
  apply Qmult_inv_r. unfold Qeq, inject_Z. simpl. nia.
Qed.

Lemma is_bbox_inside_covered_witness :
  is_bbox_inside (3, 4, 20, 10) (3, 4, 20, 10) default_containment
  = Some (Qltb default_containment 1).
Proof.
  apply (is_bbox_inside_covered (3, 4, 20, 10) (3, 4, 20, 10)).
  - simpl. lia.
  - unfold covers. simpl. lia.
Defined.

(** X3.  The overlap ratio never exceeds the containment ratio: for a
    first box of positive width and height, a second box of non-negative
    width and height and a non-negative threshold, an overlap above the
    threshold makes [is_bbox_inside] return [True] at that threshold. *)
Theorem overlap_implies_inside (a b : box) (t : Q) :
  positive_box a -> nonneg_box b -> (0 <= t)%Q ->
  (t < calculate_overlap a b)%Q ->
  is_bbox_inside a b t = Some true.
Proof.
  destruct a as [[[x1 y1] w1] h1], b as [[[x2 y2] w2] h2].
  unfold is_bbox_inside. simpl. intros [Hw1 Hh1] [Hw2 Hh2] Ht.
  destruct ((Z.min (x1 + w1) (x2 + w2) <? Z.max x1 x2)
            || (Z.min (y1 + h1) (y2 + h2) <? Z.max y1 y2)) eqn:E.
  { intros Hlt. exfalso. apply (Qlt_not_le _ _ Hlt Ht). }
  apply orb_false_iff in E as [Hx Hy]. apply Z.ltb_ge in Hx, Hy.
  set (dx := Z.min (x1 + w1) (x2 + w2) - Z.max x1 x2) in *.
  set (dy := Z.min (y1 + h1) (y2 + h2) - Z.max y1 y2) in *.
  assert (0 <= dx /\ dx <= w1 /\ dx <= w2) as (Hdx0 & Hdx1 & Hdx2)
      by (unfold dx; lia).
  assert (0 <= dy /\ dy <= h1 /\ dy <= h2) as (Hdy0 & Hdy1 & Hdy2)
      by (unfold dy; lia).
  assert (dx * dy <= w2 * h2) by nia.
  assert (0 <= dx * dy) by nia.
  assert (0 < w1 * h1) by nia.
  destruct (Z.ltb_spec 0 (w1 * h1 + w2 * h2 - dx * dy)) as [Hu|Hu]; [|lia].
  intros Hlt. rewrite py_truediv_Some by lia. f_equal. apply Qltb_lt.
  eapply Qlt_le_trans; [exact Hlt|].
  assert (0 < inject_Z (w1 * h1 + w2 * h2 - dx * dy))%Q as Hpu
      by (unfold Qlt, inject_Z; simpl; lia).
  assert (0 < inject_Z (w1 * h1))%Q as Hpa
      by (unfold Qlt, inject_Z; simpl; lia).
  apply Qle_shift_div_r; [exact Hpu|].
  unfold Qdiv. rewrite <- Qmult_assoc, (Qmult_comm (/ _)), Qmult_assoc.
  apply Qle_shift_div_l; [exact Hpa|].
  unfold Qle, inject_Z. simpl. nia.
Qed.

Lemma overlap_implies_inside_witness :
  is_bbox_inside (0, 0, 10, 10) (0, 1, 10, 10) (8 # 10) = Some true.
Proof.
  apply (overlap_implies_inside (0, 0, 10, 10) (0, 1, 10, 10) (8 # 10)).
  - simpl. lia.
  - simpl. lia.
  - discriminate.
  - reflexivity.
Defined.

(** ** Deduplicator and the sorts *)

Lemma dedup_step_nonempty thr acc c acc' :
  dedup_step thr acc c = Some acc' ->
  acc' <> [] /\ (acc <> [] \/ acc' = [c]).
Proof.
  unfold dedup_step.
  destruct (compare_with_kept thr c acc) as [[|k|]|] eqn:E; intros H;
    try discriminate; injection H as <-.
  - destruct acc as [|k acc]; [simpl in E; discriminate|].
    split; [discriminate|left; discriminate].
  - destruct acc as [|k' acc]; [simpl in E; discriminate|].
    split; [|left; discriminate].
    intros H. apply app_eq_nil in H as [_ H]. discriminate.
  - split; [intros H; apply app_eq_nil in H as [_ H]; discriminate|].
    destruct acc; [right; reflexivity|left; discriminate].
Qed.

Lemma dedup_loop_nonempty thr l acc out :
  dedup_loop thr l acc = Some out -> acc <> [] \/ l <> [] -> out <> [].
Proof.
  revert acc. induction l as [|c l IH]; simpl; intros acc Hloop Hne.
  - simplify_eq. destruct Hne; congruence.
  - destruct (dedup_step thr acc c) as [acc'|] eqn:Hs; [|discriminate].
    apply dedup_step_nonempty in Hs as [Hs _].
    eapply IH; [exact Hloop|left; exact Hs].
Qed.

(** X4.  When [remove_duplicate_masks] returns, its output is a sub-list
    of the sorted input: it has at most as many regions as the input,
    they are input regions in non-increasing order of quality, and a
    non-empty input never yields an empty output. *)
Theorem remove_duplicate_masks_output (masks out : list mask) (thr : Q) :
  remove_duplicate_masks masks thr = Some out ->
  sublist out (sorted_reverse quality masks)
  /\ (length out <= length masks)%nat
  /\ StronglySorted (ge_by quality) out
  /\ (masks <> [] -> out <> []).
Proof.
  intros Hrun.
  pose proof (remove_duplicate_masks_sublist masks thr out Hrun) as Hsub.
  split; [exact Hsub|]. split; [|split].
  - rewrite (Permutation_length (sorted_reverse_perm quality masks)).
    apply sublist_length, Hsub.
  - eapply StronglySorted_sublist; [exact Hsub|apply sorted_reverse_sorted].
  - intros Hne. unfold remove_duplicate_masks in Hrun.
    destruct masks as [|m masks]; [congruence|].
    eapply dedup_loop_nonempty; [exact Hrun|right].
    intros Hnil.
    pose proof (Permutation_length (sorted_reverse_perm quality (m :: masks))) as Hl.
    rewrite Hnil in Hl. discriminate.
Qed.

Lemma remove_duplicate_masks_output_witness :
  (length [view_band; view_frame] <= length [view_frame; view_corner; view_band])%nat.
Proof.
  apply (remove_duplicate_masks_output
           [view_frame; view_corner; view_band] [view_band; view_frame] (3 # 10)).
  reflexivity.
Defined.

Lemma compare_with_kept_Keep thr c acc :
  compare_with_kept thr c acc = Some Keep -> Forall (quiet thr c) acc.
Proof.
  induction acc as [|k acc IH]; simpl; [constructor|].
  destruct (is_bbox_inside (bbox c) (bbox k) default_containment)
    as [cik|] eqn:E1; [|discriminate].
  destruct (is_bbox_inside (bbox k) (bbox c) default_containment)
    as [kic|] eqn:E2; [|discriminate].
  destruct (Qltb thr (calculate_overlap (bbox c) (bbox k))) eqn:E3;
    [discriminate|].
  destruct cik; [discriminate|]. destruct kic; [discriminate|]. simpl.
  intros H. constructor; [|apply IH, H].
  split; [|split; assumption].
  intros Hov. apply Qltb_lt in Hov. congruence.
Qed.

(** X5.  After a run of [remove_duplicate_masks] that never took the
    replacement branch, every output region is quiet against every
    output region before it: their overlap does not exceed the
    threshold and neither is inside the other. *)
Theorem remove_duplicate_masks_pairwise (masks out : list mask) (thr : Q) :
  remove_duplicate_masks masks thr = Some out ->
  replacement_free masks thr = true ->
  forall pre c post, out = pre ++ c :: post -> Forall (quiet thr c) pre.
Proof.
  intros Hrun Hfree pre c post Hout.
  apply (compare_with_kept_Keep thr c pre).
  unfold remove_duplicate_masks in Hrun.
  destruct masks as [|m masks].
  - simplify_eq. destruct pre; discriminate.
  - eapply (dedup_loop_keep_chain thr _ [] out Hrun Hfree (keep_chain_nil thr)).
    exact Hout.
Qed.

Lemma remove_duplicate_masks_pairwise_witness :
  Forall (quiet (3 # 10) view_band) [view_corner].
Proof.
  apply (remove_duplicate_masks_pairwise
           [view_band; view_corner] [view_corner; view_band] (3 # 10)
           eq_refl eq_refl [view_corner] view_band []).
  reflexivity.
Defined.

Lemma StronglySorted_app_cross {A} (R : A -> A -> Prop) (l1 l2 : list A) :
  StronglySorted R (l1 ++ l2) ->
  forall a b, In a l1 -> In b l2 -> R a b.
Proof.
  induction l1 as [|x l1 IH]; simpl; intros Hs a b Ha Hb; [contradiction|].
  inversion Hs as [|? ? Hs' Hx]; subst.
  destruct Ha as [<-|Ha]; [|eapply IH; eassumption].
  apply (proj1 (Forall_forall _ _) Hx), list_elem_of_In, in_or_app.
  right. exact Hb.
Qed.

(** X7.  The cut to 20 entries keeps the best: the kept and the dropped
    regions together are a rearrangement of the input, and no dropped
    region has a higher importance score than a kept one. *)
Theorem final_masks_are_top (masks : list mask) :
  Permutation masks (final_masks masks ++ dropped_masks masks)
  /\ forall kept dropped,
       In kept (final_masks masks) -> In dropped (dropped_masks masks) ->
       (calculate_importance_score dropped
        <= calculate_importance_score kept)%Q.
Proof.
  unfold final_masks, dropped_masks. rewrite take_drop. split.
  - apply sorted_reverse_perm.
  - intros kept dropped Hk Hd.
    apply (StronglySorted_app_cross (ge_by calculate_importance_score)
             (take 20 (sort_masks_by_importance masks))
             (drop 20 (sort_masks_by_importance masks))); try assumption.
    rewrite take_drop. apply sorted_reverse_sorted.
Qed.

(** ** EngineeringFilter *)

Lemma filter_checks_ext (h w : Z) (m1 m2 : mask) :
  bbox m1 = bbox m2 -> area m1 = area m2 ->
  is_in_bottom_protect h m1 = is_in_bottom_protect h m2
  /\ in_info_zone h w m1 = in_info_zone h w m2
  /\ area_ratio_ok h w m1 = area_ratio_ok h w m2
  /\ aspect_ratio_ok h w m1 = aspect_ratio_ok h w m2
  /\ compactness_ok h w m1 = compactness_ok h w m2
  /\ margin_drop h w m1 = margin_drop h w m2.
Proof.
  intros Hb Ha.
  assert (is_in_bottom_protect h m1 = is_in_bottom_protect h m2) as Hp
      by (unfold is_in_bottom_protect; rewrite Hb; reflexivity).
  assert (in_info_zone h w m1 = in_info_zone h w m2) as Hz
      by (unfold in_info_zone; rewrite Hb; reflexivity).
  repeat split; try assumption.
  - unfold area_ratio_ok. rewrite Hp, Hz, Ha. reflexivity.
  - unfold aspect_ratio_ok. rewrite Hp, Hz, Hb. reflexivity.
  - unfold compactness_ok. rewrite Hp, Hz, Hb, Ha. reflexivity.
  - unfold margin_drop. rewrite Hz, Hb, Ha. reflexivity.
Qed.

Lemma tag_protected_idem (h w : Z) (m : mask) :
  tag_protected h w (tag_protected h w m) = tag_protected h w m.
Proof.
  destruct (tag_protected_keeps h w m) as (Hb & Ha & _).
  destruct (filter_checks_ext h w _ _ Hb Ha) as (Hp & Hz & _).
  unfold tag_protected at 1. rewrite Hp, Hz.
  unfold tag_protected.
  destruct (is_in_bottom_protect h m); [reflexivity|].
  destruct (in_info_zone h w m); reflexivity.
Qed.

Lemma filter_mask_tagged (h w : Z) (m m' : mask) :
  filter_mask h w m = Some m' -> filter_mask h w m' = Some m'.
Proof.
  intros Hf.
  assert (m' = tag_protected h w m) as ->.
  { unfold filter_mask in Hf.
    repeat match type of Hf with
           | (if ?b then _ else _) = _ => destruct b; try discriminate
           end.
    congruence. }
  destruct (tag_protected_keeps h w m) as (Hb & Ha & _).
  destruct (filter_checks_ext h w _ _ Hb Ha) as (_ & _ & H1 & H2 & H3 & H4).
  unfold filter_mask in *. rewrite H1, H2, H3, H4.
  repeat match type of Hf with
         | (if ?b then _ else _) = _ => destruct b; try discriminate
         end.
  rewrite tag_protected_idem. reflexivity.
Qed.

Lemma omap_cons_eq {A B} (f : A -> option B) (x : A) (l : list A) :
  omap f (x :: l)
  = match f x with Some y => y :: omap f l | None => omap f l end.
Proof. reflexivity. Qed.

Lemma omap_filter_mask_idem (h w : Z) (masks : list mask) :
  omap (filter_mask h w) (omap (filter_mask h w) masks)
  = omap (filter_mask h w) masks.
Proof.
  induction masks as [|m l IH]; [reflexivity|].
  rewrite (omap_cons_eq _ m l).
  destruct (filter_mask h w m) as [m'|] eqn:E; [|exact IH].
  rewrite omap_cons_eq, (filter_mask_tagged h w m m' E), IH. reflexivity.
Qed.

(** X8.  The EngineeringFilter is idempotent: filtering its own output
    again, for the same image, returns that output unchanged. *)
Theorem filter_masks_idempotent (h w : Z) (masks out : list mask) :
  filter_masks_by_engineering_criteria h w masks = Some out ->
  filter_masks_by_engineering_criteria h w out = Some out.
Proof.
  unfold filter_masks_by_engineering_criteria.
  destruct masks as [|m l]; [intros [= <-]; reflexivity|].
  destruct (total_area h w =? 0) eqn:E; [discriminate|].
  intros Hf.
  assert (omap (filter_mask h w) (m :: l) = out) as Hout by congruence.
  pose proof (omap_filter_mask_idem h w (m :: l)) as Hid.
  rewrite Hout in Hid.
  destruct out as [|o out']; [reflexivity|]. rewrite Hid. reflexivity.
Qed.

Lemma filter_masks_idempotent_witness :
  filter_masks_by_engineering_criteria 1000 1000
    [title_left_tagged; title_right_tagged]
  = Some [title_left_tagged; title_right_tagged].
Proof.
  apply (filter_masks_idempotent 1000 1000 [title_left; title_right]).
  reflexivity.
Defined.

Lemma omap_filter_mask_kept (h w : Z) (masks : list mask) :
  exists kept,
    sublist kept masks
    /\ omap (filter_mask h w) masks = map (tag_protected h w) kept.
Proof.
  induction masks as [|m l (kept & Hsub & Hk)].
  - exists []. split; [constructor|reflexivity].
  - rewrite omap_cons_eq. destruct (filter_mask h w m) as [m'|] eqn:E.
    + exists (m :: kept). split; [apply sublist_skip, Hsub|].
      rewrite Hk. simpl. f_equal. unfold filter_mask in E.
      repeat match type of E with
             | (if ?b then _ else _) = _ => destruct b; try discriminate
             end.
      congruence.
    + exists kept. split; [apply sublist_cons, Hsub|exact Hk].
Qed.

(** X9.  The EngineeringFilter only selects and tags: its output is the
    list of tagged versions of a sub-list of its input, in input order,
    and tagging changes neither box, area nor scores of a region. *)
Theorem filter_masks_selects (h w : Z) (masks out : list mask) :
  filter_masks_by_engineering_criteria h w masks = Some out ->
  exists kept,
    sublist kept masks
    /\ out = map (tag_protected h w) kept
    /\ map bbox out = map bbox kept
    /\ map area out = map area kept
    /\ map stability_score out = map stability_score kept
    /\ map predicted_iou out = map predicted_iou kept.
Proof.
  unfold filter_masks_by_engineering_criteria. intros Hf.
  assert (out = omap (filter_mask h w) masks) as ->.
  { destruct masks; [injection Hf as <-; reflexivity|].
    destruct (total_area h w =? 0); [discriminate|]. congruence. }
  destruct (omap_filter_mask_kept h w masks) as (kept & Hsub & ->).
  exists kept. split; [exact Hsub|]. split; [reflexivity|].
  rewrite !map_map.
  repeat split; apply map_ext; intros m; unfold tag_protected;
    destruct (is_in_bottom_protect h m); try reflexivity;
    destruct (in_info_zone h w m); reflexivity.
Qed.

Lemma filter_masks_selects_witness :
  exists kept,
    sublist kept [note_top_right; artifact_left; view_corner]
    /\ [view_corner] = map (tag_protected 100 100) kept.
Proof.
  destruct (filter_masks_selects 100 100
              [note_top_right; artifact_left; view_corner] [view_corner])
    as (kept & Hsub & Hout & _); [reflexivity|].
  exists kept. split; assumption.
Defined.

Lemma filter_mask_envelope (h w : Z) (m m' : mask) :
  filter_mask h w m = Some m' ->
  let '(x, y, width, height) := bbox m' in
  ((2 # 1000) <= inject_Z (area m') / inject_Z (h * w))%Q
  /\ (inject_Z (area m') / inject_Z (h * w) <= (7 # 10))%Q
  /\ (inject_Z (Z.max width height)
      / inject_Z (Z.max (Z.min width height) 1) <= 25)%Q.
Proof.
  intros Hf.
  assert (m' = tag_protected h w m) as ->.
  { unfold filter_mask in Hf.
    repeat match type of Hf with
           | (if ?b then _ else _) = _ => destruct b; try discriminate
           end.
    congruence. }
  destruct (tag_protected_keeps h w m) as (-> & -> & _).
  unfold filter_mask in Hf.
  destruct (area_ratio_ok h w m) eqn:Ha; [|discriminate].
  destruct (aspect_ratio_ok h w m) eqn:Hr; [|discriminate]. clear Hf.
  unfold area_ratio_ok, total_area in Ha. unfold aspect_ratio_ok in Hr.
  destruct (bbox m) as [[[x y] width] height].
  apply negb_true_iff, Qltb_ge in Hr.
  destruct (is_in_bottom_protect h m); [|destruct (in_info_zone h w m)];
    apply andb_true_iff in Ha as [Ha1 Ha2];
    apply Qle_bool_iff in Ha1, Ha2;
    (split; [eapply Qle_trans; [|exact Ha1]; discriminate|]);
    (split; [eapply Qle_trans; [exact Ha2|]; discriminate|]);
    (eapply Qle_trans; [exact Hr|]; discriminate).
Qed.

(** X10.  Whatever its zone, a region that survives the
    EngineeringFilter has an area between 0.2% and 70% of the image
    area and an aspect ratio [max(w, h) / max(min(w, h), 1)] of at
    most 25. *)
Theorem filter_masks_envelope (h w : Z) (masks out : list mask) :
  filter_masks_by_engineering_criteria h w masks = Some out ->
  Forall (fun m' =>
            ((2 # 1000) <= inject_Z (area m') / inject_Z (h * w))%Q
            /\ (inject_Z (area m') / inject_Z (h * w) <= (7 # 10))%Q
            /\ (inject_Z (Z.max (box_w (bbox m')) (box_h (bbox m')))
                / inject_Z (Z.max (Z.min (box_w (bbox m')) (box_h (bbox m'))) 1)
                <= 25)%Q) out.
Proof.
  unfold filter_masks_by_engineering_criteria. intros Hf.
  assert (out = omap (filter_mask h w) masks) as ->.
  { destruct masks; [injection Hf as <-; reflexivity|].
    destruct (total_area h w =? 0); [discriminate|]. congruence. }
  clear Hf. induction masks as [|m l IH]; [constructor|].
  rewrite omap_cons_eq.
  destruct (filter_mask h w m) as [m'|] eqn:E; [|exact IH].
  constructor; [|exact IH].
  pose proof (filter_mask_envelope h w m m' E) as He.
  destruct (bbox m') as [[[x y] width] height]. exact He.
Qed.

Lemma filter_masks_envelope_witness :
  Forall (fun m' =>
            ((2 # 1000) <= inject_Z (area m') / inject_Z (1000 * 1000))%Q
            /\ (inject_Z (area m') / inject_Z (1000 * 1000) <= (7 # 10))%Q
            /\ (inject_Z (Z.max (box_w (bbox m')) (box_h (bbox m')))
                / inject_Z (Z.max (Z.min (box_w (bbox m')) (box_h (bbox m'))) 1)
                <= 25)%Q)
    [title_left_tagged; title_right_tagged].
Proof.
  apply (filter_masks_envelope 1000 1000 [title_left; title_right]).
  reflexivity.
Defined.

(** ** ProximityMerger *)

Lemma merge_cluster_length (cluster_masks : list mask) :
  (length (merge_cluster cluster_masks) <= length cluster_masks)%nat.
Proof.
  destruct cluster_masks as [|m1 [|m2 rest]]; simpl; lia.
Qed.

Lemma concat_map_length_le {A B} (f g : A -> list B) (l : list A) :
  (forall a, (length (f a) <= length (g a))%nat) ->
  (length (concat (map f l)) <= length (concat (map g l)))%nat.
Proof.
  intros Hfg. induction l as [|a l IH]; simpl; [lia|].
  rewrite !length_app. specialize (Hfg a). lia.
Qed.

Lemma filter_eqb_NoDup (x : nat) (ids : list nat) :
  NoDup ids -> (length (List.filter (Nat.eqb x) ids) <= 1)%nat.
Proof.
  induction 1 as [|c ids Hc _ IH]; simpl; [lia|].
  destruct (Nat.eqb_spec x c) as [->|Hne]; [|exact IH]. simpl.
  assert (List.filter (Nat.eqb c) ids = []) as ->; [|simpl; lia].
  destruct (List.filter (Nat.eqb c) ids) as [|d rest] eqn:E; [reflexivity|].
  exfalso. assert (In d (List.filter (Nat.eqb c) ids)) as Hd
      by (rewrite E; left; reflexivity).
  apply List.filter_In in Hd as [Hd Heq]. apply Nat.eqb_eq in Heq. subst d.
  apply Hc, list_elem_of_In, Hd.
Qed.

Lemma members_of_pairs_length (pairs : list (mask * nat)) (ids : list nat) :
  NoDup ids ->
  (length (concat
             (map (fun c => map fst
                              (List.filter (fun p => Nat.eqb (snd p) c) pairs))
                  ids))
   <= length pairs)%nat.
Proof.
  intros Hnd. induction pairs as [|p ps IH]; simpl.
  - induction ids as [|c ids IHi]; simpl; [lia|].
    apply NoDup_cons in Hnd as [_ Hnd]. apply IHi, Hnd.
  - assert (length
              (concat
                 (map (fun c =>
                         map fst
                           (if Nat.eqb (snd p) c
                            then p :: List.filter (fun p0 => Nat.eqb (snd p0) c) ps
                            else List.filter (fun p0 => Nat.eqb (snd p0) c) ps))
                    ids))
            = (length
                 (concat
                    (map (fun c =>
                            map fst
                              (List.filter (fun p0 => Nat.eqb (snd p0) c) ps))
                       ids))
               + length (List.filter (Nat.eqb (snd p)) ids))%nat) as ->.
    { clear. induction ids as [|c ids IHi]; simpl; [reflexivity|].
      rewrite !length_app, IHi.
      destruct (Nat.eqb (snd p) c); simpl; lia. }
    pose proof (filter_eqb_NoDup (snd p) ids Hnd). lia.
Qed.

Lemma cluster_ids_NoDup (labels : list nat) : NoDup (cluster_ids labels).
Proof.
  unfold cluster_ids. apply NoDup_ListNoDup, List.NoDup_filter, List.seq_NoDup.
Qed.

(** X11.  The ProximityMerger never increases the number of regions,
    whatever labelling the clustering returns. *)
Theorem merge_nearby_masks_length
    (dbscan_labels : Q -> list (Q * Q) -> list nat)
    (masks : list mask) (eps : Q) :
  (length (merge_nearby_masks dbscan_labels masks eps) <= length masks)%nat.
Proof.
  unfold merge_nearby_masks.
  destruct (length masks <? 2)%nat; [lia|].
  set (labels := dbscan_labels eps (map mask_center masks)).
  etransitivity.
  { apply (concat_map_length_le _ (cluster_members masks labels)).
    intros c. apply merge_cluster_length. }
  etransitivity.
  { apply (members_of_pairs_length (combine masks labels)).
    apply cluster_ids_NoDup. }
  rewrite length_combine. lia.
Qed.

(** ** InfoRegionDetector *)

Lemma merge_bottom_info_regions_spec (bottom_masks : list mask)
    (image_width image_height : Z) :
  (merge_bottom_info_regions bottom_masks image_width image_height = None
   <-> bottom_masks = [])
  /\ forall r,
       merge_bottom_info_regions bottom_masks image_width image_height = Some r ->
       0 <= box_x (bbox r) /\ 0 <= box_y (bbox r)
       /\ box_right (bbox r) <= image_width
       /\ box_bottom (bbox r) = image_height
       /\ area r = sum_Z (map area bottom_masks)
       /\ predicted_iou r = (9 # 10)%Q
       /\ original_count r = Some (Z.of_nat (length bottom_masks)).
Proof.
  unfold merge_bottom_info_regions.
  destruct bottom_masks as [|m0 rest] eqn:Hb.
  - split; [split; reflexivity|discriminate].
  - rewrite <- Hb. split; [split; [discriminate|subst; discriminate]|].
    intros r [= <-]. simpl. rewrite Zsum_sum.
    repeat split; lia.
Qed.

(** X12.  [merge_bottom_info_regions] returns nothing exactly for the
    empty list; otherwise the merged region starts within the image,
    ends at most at its right edge and exactly at its bottom edge, has
    the sum of the member areas as area, predicted IoU 0.9, and records
    the number of members. *)
Theorem merge_bottom_info_regions_shape (bottom_masks : list mask)
    (image_width image_height : Z) :
  (merge_bottom_info_regions bottom_masks image_width image_height = None
   <-> bottom_masks = [])
  /\ forall r,
       merge_bottom_info_regions bottom_masks image_width image_height = Some r ->
       0 <= box_x (bbox r) /\ 0 <= box_y (bbox r)
       /\ box_right (bbox r) <= image_width
       /\ box_bottom (bbox r) = image_height
       /\ area r = sum_Z (map area bottom_masks)
       /\ predicted_iou r = (9 # 10)%Q
       /\ original_count r = Some (Z.of_nat (length bottom_masks)).
Proof.
  destruct (merge_bottom_info_regions_spec bottom_masks image_width image_height)
    as [Hnone Hsome].
  split; [exact Hnone|exact Hsome].
Qed.

Lemma merge_bottom_info_regions_shape_witness :
  exists r,
    merge_bottom_info_regions [title_left; title_right] 1000 1000 = Some r
    /\ box_bottom (bbox r) = 1000.
Proof.
  destruct (merge_bottom_info_regions_shape [title_left; title_right] 1000 1000)
    as [_ H].
  eexists. split; [reflexivity|]. apply H. reflexivity.
Defined.

Lemma filter_partition_length {A} (p q : A -> bool) (l : list A) :
  (length (List.filter p l)
   + length (List.filter (fun a => negb (p a) && q a) l)
   + length (List.filter (fun a => negb (p a) && negb (negb (p a) && q a)) l)
   = length l)%nat.
Proof.
  induction l as [|a l IH]; simpl; [reflexivity|].
  destruct (p a), (q a); simpl; lia.
Qed.

(** X13.  The InfoRegionDetector never increases the number of regions:
    all bottom candidates together are replaced by one merged region,
    so its output has at most as many regions as its input, and at most
    one more than the input without its bottom candidates. *)
Theorem detect_info_regions_length (h w : Z) (masks out : list mask) :
  detect_info_regions h w masks = Some out ->
  (length out <= length masks)%nat
  /\ (length out + length (List.filter (is_bottom_candidate h w) masks)
      <= length masks + 1)%nat.
Proof.
  unfold detect_info_regions.
  destruct masks as [|m0 l] eqn:Hm; [intros [= <-]; simpl; lia|].
  rewrite <- Hm. clear Hm m0 l.
  destruct (h * w =? 0); [discriminate|]. intros [= <-].
  rewrite !length_app, length_map.
  pose proof (filter_partition_length (is_bottom_candidate h w)
                (fun m => let '(x, y, bw, bh) := bbox m in
                          Qltb (inject_Z (py_int (inject_Z w * (75 # 100))))
                               (inject_Z x + inject_Z bw / 2)
                          && is_reasonable_size h w m) masks) as Hpart.
  assert (forall m, is_right_candidate h w m
                    = negb (is_bottom_candidate h w m)
                      && (let '(x, y, bw, bh) := bbox m in
                          Qltb (inject_Z (py_int (inject_Z w * (75 # 100))))
                               (inject_Z x + inject_Z bw / 2)
                          && is_reasonable_size h w m)) as Hright.
  { intros m. unfold is_right_candidate.
    destruct (bbox m) as [[[x y] bw] bh].
    rewrite andb_assoc. reflexivity. }
  rewrite (List.filter_ext _ _ Hright) in *.
  assert (length (List.filter (fun m => negb (is_info_region m))
            (List.filter
               (fun m => negb (is_bottom_candidate h w m)
                         && negb (is_right_candidate h w m)) masks))
          <= length (List.filter
               (fun m => negb (is_bottom_candidate h w m)
                         && negb (is_right_candidate h w m)) masks))%nat
    as Hother by apply List.filter_length_le.
  assert (List.filter
            (fun m => negb (is_bottom_candidate h w m)
                      && negb (is_right_candidate h w m)) masks
          = List.filter
              (fun a => negb (is_bottom_candidate h w a)
                        && negb (negb (is_bottom_candidate h w a)
                                 && (let '(x, y, bw, bh) := bbox a in
                                     Qltb (inject_Z (py_int (inject_Z w * (75 # 100))))
                                          (inject_Z x + inject_Z bw / 2)
                                     && is_reasonable_size h w a))) masks)
    as Heq.
  { apply List.filter_ext. intros m. rewrite Hright. reflexivity. }
  rewrite Heq in *.
  unfold merge_bottom_info_regions.
  destruct (List.filter (is_bottom_candidate h w) masks) as [|b bs] eqn:Hb;
    simpl in *; lia.
Qed.

Lemma detect_info_regions_length_witness :
  exists out,
    detect_info_regions 1000 1000 [title_left; title_right] = Some out
    /\ (length out <= 2)%nat.
Proof.
  eexists. split; [reflexivity|].
  apply (detect_info_regions_length 1000 1000 [title_left; title_right]).
  reflexivity.
Defined.

(** ** RegionExpander and the info regions *)

Lemma py_int_nonneg (q : Q) : (0 <= q)%Q -> 0 <= py_int q.
Proof.
  unfold Qle, py_int. simpl. intros H. apply Z.quot_pos; lia.
Qed.

Lemma py_int_scaled_nonneg (z : Z) (r : Q) :
  0 <= z -> (0 <= r)%Q -> 0 <= py_int (inject_Z z * r).
Proof.
  intros Hz Hr. apply py_int_nonneg.
  apply Qmult_le_0_compat; [|exact Hr].
  unfold Qle, inject_Z. simpl. lia.
Qed.

Lemma py_int_four_fifths (h : Z) :
  0 <= h -> 0 <= py_int (inject_Z h * (8 # 10)) <= h.
Proof.
  intros Hh. split; [apply py_int_scaled_nonneg; [exact Hh|discriminate]|].
  unfold py_int. simpl. apply Z.quot_le_upper_bound; lia.
Qed.

(** X14.  For an image of non-negative height and width the protected
    bottom region lies within the image, and the RegionExpander leaves
    it spanning the full width and reaching the bottom edge: only its
    top edge moves up, never above the image. *)
Theorem protected_region_expanded (h w : Z) :
  0 <= h -> 0 <= w ->
  in_bounds h w (bbox (create_bottom_info_region h w))
  /\ nonneg_box (bbox (create_bottom_info_region h w))
  /\ box_x (bbox (expand_mask h w (create_bottom_info_region h w))) = 0
  /\ box_w (bbox (expand_mask h w (create_bottom_info_region h w))) = w
  /\ box_bottom (bbox (expand_mask h w (create_bottom_info_region h w))) = h
  /\ 0 <= box_y (bbox (expand_mask h w (create_bottom_info_region h w)))
     <= box_y (bbox (create_bottom_info_region h w)).
Proof.
  intros Hh Hw. pose proof (py_int_four_fifths h Hh) as Hy.
  unfold expand_mask, expanded_bbox, create_bottom_info_region. simpl.
  set (y0 := py_int (inject_Z h * (8 # 10))) in *.
  pose proof (py_int_scaled_nonneg w (25 # 100) Hw ltac:(discriminate)) as Hex.
  assert (0 <= py_int (inject_Z (h - y0) * (2 # 10))) as Hey
      by (apply py_int_scaled_nonneg; [lia|discriminate]).
  unfold has_tag. simpl. lia.
Qed.

Lemma protected_region_expanded_witness :
  box_bottom (bbox (expand_mask 1000 1000 (create_bottom_info_region 1000 1000)))
  = 1000.
Proof.
  apply (protected_region_expanded 1000 1000); lia.
Defined.

(** X15.  The merged bottom region still ends exactly at the bottom edge
    of the image after the InfoRegionDetector has marked it and the
    RegionExpander has grown it, and its expanded box lies within the
    image. *)
Theorem merged_bottom_region_expanded (bottom_masks : list mask)
    (h w : Z) (r : mask) :
  merge_bottom_info_regions bottom_masks w h = Some r ->
  box_bottom
    (bbox (expand_mask h w (set_info r [bottom_info; merged_region]))) = h
  /\ in_bounds h w
       (bbox (expand_mask h w (set_info r [bottom_info; merged_region])))
  /\ is_merged (expand_mask h w (set_info r [bottom_info; merged_region]))
     = true.
Proof.
  intros Hr.
  destruct (merge_bottom_info_regions_spec bottom_masks w h) as [_ Hs].
  destruct (Hs r Hr) as (_ & _ & _ & Hb & _). clear Hs.
  assert (is_merged r = true) as Hm.
  { unfold merge_bottom_info_regions in Hr.
    destruct bottom_masks; [discriminate|]. injection Hr as <-. reflexivity. }
  pose proof (expanded_bbox_in_bounds h w (set_info r [bottom_info; merged_region]))
    as Hin.
  unfold expand_mask. simpl.
  unfold expanded_bbox in *. unfold has_tag in *. simpl in *.
  destruct (bbox r) as [[[x y] bw] bh]. simpl in *.
  repeat split; try lia. exact Hm.
Qed.

Lemma merged_bottom_region_expanded_witness :
  exists r,
    merge_bottom_info_regions [title_left; title_right] 1000 1000 = Some r
    /\ box_bottom
         (bbox (expand_mask 1000 1000 (set_info r [bottom_info; merged_region])))
       = 1000.
Proof.
  eexists. split; [reflexivity|].
  apply (merged_bottom_region_expanded [title_left; title_right] 1000 1000).
  reflexivity.
Defined.

(** X16.  The RegionExpander only grows: for an info region whose box
    lies within the image and has non-negative width and height, the
    expanded box covers the original box. *)
Theorem expand_mask_covers (height width : Z) (m : mask) :
  is_info_region m = true ->
  in_bounds height width (bbox m) -> nonneg_box (bbox m) ->
  covers (bbox (expand_mask height width m)) (bbox m).
Proof.
  intros Hinfo Hin Hnn. unfold expand_mask. rewrite Hinfo. simpl.
  unfold expanded_bbox, covers.
  destruct (bbox m) as [[[x y] w] h]. simpl in *.
  destruct Hnn as [Hw Hh].
  pose proof (py_int_scaled_nonneg w (5 # 100) Hw ltac:(discriminate)).
  pose proof (py_int_scaled_nonneg h (2 # 100) Hh ltac:(discriminate)).
  pose proof (py_int_scaled_nonneg w (15 # 100) Hw ltac:(discriminate)).
  pose proof (py_int_scaled_nonneg h (15 # 100) Hh ltac:(discriminate)).
  pose proof (py_int_scaled_nonneg w (25 # 100) Hw ltac:(discriminate)).
  pose proof (py_int_scaled_nonneg h (2 # 10) Hh ltac:(discriminate)).
  destruct (has_tag merged_region m); [simpl; lia|].
  destruct (has_tag bottom_info m); simpl; lia.
Qed.

Lemma expand_mask_covers_witness :
  covers (bbox (expand_mask 100 100 info_right)) (bbox info_right).
Proof.
  apply (expand_mask_covers 100 100 info_right).
  - reflexivity.
  - simpl. lia.
  - simpl. lia.
Defined.

(** ** TextRegionRefiner *)

Lemma refine_text_mask_out_of_band (h w : Z) (m : mask) :
  in_info_zone h w m = false -> refine_text_mask h w m = Some m.
Proof.
  unfold in_info_zone, refine_text_mask.
  destruct (bbox m) as [[[x y] bw] bh]. intros ->. reflexivity.
Qed.

(** X17.  [refine_text_mask] leaves a region as it is when the zone
    test [y > h * 0.7 or x > w * 0.7] fails, as binary64 decides it.
    For a region that passes the test it fails with a division by zero
    when the box has width or height 0; otherwise it marks the region
    [text_optimized], gives it a box within the image, and recomputes
    the area from that box; the new box covers the old one when the old
    box lay within the image and had positive width and height. *)
Theorem refine_text_mask_cases (h w : Z) (m : mask) :
  (in_info_zone h w m = false -> refine_text_mask h w m = Some m)
  /\ (in_info_zone h w m = true ->
      Z.min (box_w (bbox m)) (box_h (bbox m)) = 0 ->
      refine_text_mask h w m = None)
  /\ (in_info_zone h w m = true ->
      Z.min (box_w (bbox m)) (box_h (bbox m)) <> 0 ->
      exists m',
        refine_text_mask h w m = Some m'
        /\ text_optimized m' = true
        /\ in_bounds h w (bbox m')
        /\ area m' = box_area (bbox m')
        /\ (in_bounds h w (bbox m) -> positive_box (bbox m) ->
            covers (bbox m') (bbox m))).
Proof.
  split; [apply refine_text_mask_out_of_band|].
  unfold in_info_zone, refine_text_mask, py_truediv, covers.
  destruct (bbox m) as [[[x y] bw] bh]. simpl.
  split; intros -> Hmin.
  - rewrite Hmin. reflexivity.
  - destruct (Z.eqb_spec (Z.min bw bh) 0) as [|_]; [contradiction|].
    set (aspect_ratio := (inject_Z (Z.max bw bh) / inject_Z (Z.min bw bh))%Q).
    assert (forall r, (0 <= r)%Q -> 0 < bw -> 0 <= py_int (inject_Z bw * r)) as Hpw
        by (intros r Hr Hb; apply py_int_scaled_nonneg; [lia|exact Hr]).
    assert (forall r, (0 <= r)%Q -> 0 < bh -> 0 <= py_int (inject_Z bh * r)) as Hph
        by (intros r Hr Hb; apply py_int_scaled_nonneg; [lia|exact Hr]).
    pose proof (Hpw (2 # 10) ltac:(discriminate)).
    pose proof (Hpw (3 # 10) ltac:(discriminate)).
    pose proof (Hpw (25 # 100) ltac:(discriminate)).
    pose proof (Hph (2 # 10) ltac:(discriminate)).
    pose proof (Hph (3 # 10) ltac:(discriminate)).
    pose proof (Hph (25 # 100) ltac:(discriminate)).
    destruct (Qltb 3 aspect_ratio && (bh <? bw));
      [|destruct (Qle_bool aspect_ratio 3)];
      (eexists; split; [reflexivity|]; simpl;
       split; [reflexivity|]; split; [lia|]; split; [reflexivity|];
       intros Hin [Hbw Hbh]; lia).
Qed.

Lemma refine_text_mask_cases_witness :
  exists m',
    refine_text_mask 100 100 text_note = Some m'
    /\ text_optimized m' = true
    /\ in_bounds 100 100 (bbox m').
Proof.
  destruct (refine_text_mask_cases 100 100 text_note) as (_ & _ & H).
  destruct H as (m' & H1 & H2 & H3 & _); [reflexivity|simpl; lia|].
  exists m'. repeat split; assumption.
Defined.

(** X18.  [post_process_text_regions] changes only the dicts it is
    handed: the store keeps its size, and every address that does not
    occur in the list keeps its dict. *)
Theorem post_process_text_regions_frame (h w : Z) (masks : list nat)
    (st st' : store) :
  post_process_text_regions h w masks st = Some st' ->
  length st' = length st
  /\ forall a, ~ In a masks -> st' !! a = st !! a.
Proof.
  revert st. induction masks as [|b rest IH]; simpl; intros st Hrun.
  - injection Hrun as <-. split; reflexivity.
  - destruct (st !! b) as [m|] eqn:Hl; [|discriminate].
    destruct (refine_text_mask h w m) as [m'|] eqn:Hr; [|discriminate].
    destruct (IH _ Hrun) as [Hlen Hframe]. split.
    + rewrite Hlen. apply length_insert.
    + intros a Ha. rewrite Hframe by tauto.
      apply list_lookup_insert_ne. intros ->. apply Ha. left. reflexivity.
Qed.

Lemma post_process_text_regions_frame_witness :
  exists st',
    post_process_text_regions 100 100 [0%nat] [text_note; view_corner] = Some st'
    /\ st' !! 1%nat = [text_note; view_corner] !! 1%nat.
Proof.
  eexists. split; [reflexivity|].
  apply (post_process_text_regions_frame 100 100 [0%nat]
           [text_note; view_corner]); [reflexivity|].
  simpl. intros [H|H]; [discriminate|exact H].
Defined.

(** ** View extraction *)

Lemma view_bbox_valid (height width : Z) (m : mask) (b : box) :
  view_bbox height width m = Some b ->
  in_bounds height width b /\ positive_box b.
Proof.
  unfold view_bbox, expand_bbox_to_include_text.
  destruct (bbox m) as [[[x y] w] h].
  set (ex := py_int (inject_Z w * (15 # 100))).
  set (ey := py_int (inject_Z h * (15 # 100))).
  destruct (_ || _) eqn:E; [discriminate|]. intros [= <-].
  apply orb_false_iff in E as [E1 E2]. apply Z.leb_gt in E1, E2.
  simpl. lia.
Qed.

Lemma omap_length_le {A B} (f : A -> option B) (l : list A) :
  (length (omap f l) <= length l)%nat.
Proof.
  induction l as [|a l IH]; [simpl; lia|].
  rewrite omap_cons_eq. destruct (f a); simpl; lia.
Qed.

(** X19.  [split_image] saves at most 20 views, and the box of every
    view it saves has positive width and height and lies within the
    image. *)
Theorem saved_views_valid (height width : Z) (final_masks_deduped : list mask) :
  (length (saved_views height width final_masks_deduped) <= 20)%nat
  /\ Forall (fun b => in_bounds height width b /\ positive_box b)
       (saved_views height width final_masks_deduped).
Proof.
  unfold saved_views. split.
  - etransitivity; [apply omap_length_le|].
    unfold final_masks. rewrite length_take. lia.
  - generalize (final_masks final_masks_deduped). intros l.
    induction l as [|m l IH]; [constructor|].
    rewrite omap_cons_eq. destruct (view_bbox height width m) as [b|] eqn:E;
      [|exact IH].
    constructor; [eapply view_bbox_valid, E|exact IH].
Qed.

(** ** Preprocessing *)

(** X20.  [preprocess_image] on an image with sides below [2^32] and
    larger side [M].  When [M <= 2048] the image is returned as it is,
    with scale factor [1.0].  Otherwise the scale factor is the float
    [2048 / M], and when the call returns, each new side [n] satisfies
    [2048 z / M - 1 <= n <= 2048 z / M] for the old side [z]: it is the
    exact quotient rounded down, or one less where the binary64 product
    falls below an integer quotient; so both sides lie between 1 and
    2048 and the larger one is 2047 or 2048.  The call returns whenever
    [M <= 1024 * min(h, w)], and it raises, in [cv2.resize], whenever
    [2048 * min(h, w) < M]. *)
Theorem preprocess_image_shape (h w : Z) :
  0 < h < 2 ^ 32 -> 0 < w < 2 ^ 32 ->
  let M := Z.max h w in
  (M <= 2048 -> preprocess_image h w = Some (h, w, float_1))
  /\ (2048 < M ->
      forall new_h new_w scale,
        preprocess_image h w = Some (new_h, new_w, scale) ->
        scale = float_div (float_of_int 2048) (float_of_int M)
        /\ 1 <= new_h <= 2048 /\ 1 <= new_w <= 2048
        /\ 2048 * h - M <= new_h * M <= 2048 * h
        /\ 2048 * w - M <= new_w * M <= 2048 * w
        /\ 2047 <= Z.max new_h new_w)
  /\ (2048 < M -> M <= 1024 * Z.min h w -> preprocess_image h w <> None)
  /\ (2048 * Z.min h w < M -> preprocess_image h w = None).
Proof.
  intros Hh Hw M. unfold preprocess_image. fold M.
  change (2 ^ 32) with 4294967296 in Hh, Hw.
  destruct (Z.ltb_spec 2048 M) as [HM|HM].
  - assert (2048 < M < 2 ^ 32) as HM'
        by (change (2 ^ 32) with 4294967296; subst M; lia).
    destruct (scaled_side_spec h M ltac:(subst M; lia) HM') as (nh & -> & Hnh).
    destruct (scaled_side_spec w M ltac:(subst M; lia) HM') as (nw & -> & Hnw).
    split; [lia|]. split; [|split].
    + intros _ new_h new_w scale Hres.
      destruct (Z.ltb_spec 0 nh), (Z.ltb_spec 0 nw); simpl in Hres; try discriminate.
      injection Hres as <- <- <-.
      split; [reflexivity|].
      assert (nh <= 2048) by nia. assert (nw <= 2048) by nia.
      assert (2047 <= Z.max nh nw).
      { destruct (Z.max_spec h w) as [[_ E]|[_ E]]; fold M in E.
        - rewrite <- E in Hnw. assert (2047 <= nw) by nia. lia.
        - rewrite <- E in Hnh. assert (2047 <= nh) by nia. lia. }
      lia.
    + intros _ Hmin.
      assert (0 < nh) by nia. assert (0 < nw) by nia.
      destruct (Z.ltb_spec 0 nh), (Z.ltb_spec 0 nw); try lia. discriminate.
    + intros Hthin.
      destruct (Z.ltb_spec 0 nh), (Z.ltb_spec 0 nw); try reflexivity.
      exfalso. destruct (Z.min_spec h w) as [[_ E]|[_ E]]; rewrite E in Hthin; nia.
  - split; [reflexivity|]. split; [lia|]. split; [lia|].
    intros Hthin. subst M. lia.
Qed.

Lemma preprocess_image_shape_witness :
  preprocess_image 1000 2215 <> None.
Proof.
  apply (preprocess_image_shape 1000 2215); simpl; lia.
Defined.

(** An image 2215 wide comes out 2047 wide, since
    [2215 * (2048 / 2215)] is [2047.9999999999998]; an image 1 x 5000
    is rejected by [cv2.resize]. *)
Lemma preprocess_image_examples :
  preprocess_image 1000 2215
  = Some (924, 2047, S754_finite false 8328101161945621 (-53))
  /\ preprocess_image 3000 4096
     = Some (1500, 2048, S754_finite false 4503599627370496 (-53))
  /\ preprocess_image 1 5000 = None.
Proof. vm_compute. repeat split; reflexivity. Qed.


(** ** Rescaling to the original image *)

Lemma py_int_ge (q : Q) (n : Z) : (inject_Z n <= q)%Q -> n <= py_int q.
Proof.
  unfold Qle, py_int. simpl. intros H.
  apply Z.quot_le_lower_bound; lia.
Qed.

Lemma py_int_unscale_ge (z : Z) (s : Q) :
  0 <= z -> (0 < s)%Q -> (s <= 1)%Q -> z <= py_int (inject_Z z / s).
Proof.
  intros Hz Hs Hs1. apply py_int_ge.
  apply Qle_shift_div_l; [exact Hs|].
  assert (0 <= inject_Z z)%Q as Hq by (unfold Qle, inject_Z; simpl; lia).
  assert (0 <= inject_Z z * (1 - s))%Q as Hp
      by (apply Qmult_le_0_compat; [exact Hq|lra]).
  lra.
Qed.

(** X21.  Scaling a region back to the original image never shrinks it:
    with the scale factor of [preprocess_image], a mask whose box
    coordinates, box sizes and area are non-negative gets coordinates,
    sizes and an area at least as large, and it is returned unchanged
    when the image needed no downscaling. *)
Theorem rescale_mask_grows (h w : Z) (m : mask) :
  (Z.max h w <= 2048 -> rescale_mask (preprocess_scale h w) m = m)
  /\ (0 <= box_x (bbox m) -> 0 <= box_y (bbox m) ->
      nonneg_box (bbox m) -> 0 <= area m ->
      box_x (bbox m) <= box_x (bbox (rescale_mask (preprocess_scale h w) m))
      /\ box_y (bbox m) <= box_y (bbox (rescale_mask (preprocess_scale h w) m))
      /\ box_w (bbox m) <= box_w (bbox (rescale_mask (preprocess_scale h w) m))
      /\ box_h (bbox m) <= box_h (bbox (rescale_mask (preprocess_scale h w) m))
      /\ area m <= area (rescale_mask (preprocess_scale h w) m)).
Proof.
  split.
  - intros Hm. unfold preprocess_scale.
    destruct (Z.ltb_spec 2048 (Z.max h w)); [lia|]. reflexivity.
  - destruct (preprocess_scale_range h w) as [Hs Hs1].
    set (s := preprocess_scale h w) in *.
    unfold rescale_mask, scale_bbox.
    destruct (Qeq_bool s 1); [intros; lia|]. simpl.
    destruct (bbox m) as [[[x y] bw] bh]. simpl. intros Hx Hy [Hw Hh] Ha.
    repeat split; try (apply py_int_unscale_ge; assumption).
    apply py_int_unscale_ge; [exact Ha| |].
    + apply Qmult_lt_0_compat; exact Hs.
    + assert (0 <= (1 - s) * s)%Q
          by (apply Qmult_le_0_compat; lra).
      lra.
Qed.

Lemma rescale_mask_grows_witness :
  area view_corner <= area (rescale_mask (preprocess_scale 3000 4096) view_corner).
Proof.
  apply (rescale_mask_grows 3000 4096 view_corner); simpl; lia.
Defined.

(** ** Shared dicts in the last stages of [split_image] *)

Lemma post_process_text_regions_count_occ (h w : Z) (masks : list nat)
    (st st' : store) (a : nat) (m : mask) :
  post_process_text_regions h w masks st = Some st' ->
  st !! a = Some m ->
  exists m',
    st' !! a = Some m'
    /\ refine_times h w (count_occ Nat.eq_dec masks a) m = Some m'.
Proof.
  revert st m. induction masks as [|b rest IH]; intros st m Hrun Hl.
  - simpl in Hrun. injection Hrun as <-. exists m. split; [exact Hl|reflexivity].
  - simpl in Hrun.
    destruct (st !! b) as [mb|] eqn:Hb; [|discriminate].
    destruct (refine_text_mask h w mb) as [mb'|] eqn:Hr; [|discriminate].
    simpl. destruct (Nat.eq_dec b a) as [->|Hne].
    + rewrite Hl in Hb. injection Hb as <-.
      destruct (IH (<[a := mb']> st) mb' Hrun) as (m' & Hm' & Ht).
      { apply list_lookup_insert_eq. eapply lookup_lt_Some, Hl. }
      exists m'. split; [exact Hm'|]. simpl. rewrite Hr. exact Ht.
    + apply (IH (<[b := mb']> st) m Hrun).
      etransitivity; [apply list_lookup_insert_ne; exact Hne|exact Hl].
Qed.

(** X22.  [post_process_text_regions] refines every dict once per
    occurrence in its argument: when the call returns, the dict at an
    address is the result of applying [refine_text_mask] to the
    original dict as many times as the address occurs in the list
    (not at all when it does not occur). *)
Theorem post_process_text_regions_counts (h w : Z) (masks : list nat)
    (st st' : store) (a : nat) (m : mask) :
  post_process_text_regions h w masks st = Some st' ->
  st !! a = Some m ->
  exists m',
    st' !! a = Some m'
    /\ refine_times h w (count_occ Nat.eq_dec masks a) m = Some m'.
Proof.
  intros Hrun Hl.
  exact (post_process_text_regions_count_occ h w masks st st' a m Hrun Hl).
Qed.

Lemma post_process_text_regions_counts_witness :
  exists m',
    [set_text_optimized text_note (75, 75, 20, 20) 400] !! 0%nat = Some m'
    /\ refine_times 100 100 (count_occ Nat.eq_dec [0%nat; 0%nat] 0%nat) text_note
       = Some m'.
Proof.
  apply (post_process_text_regions_counts 100 100 [0%nat; 0%nat] [text_note]);
    reflexivity.
Defined.

Lemma lookup_map_list {A B} (f : A -> B) (l : list A) (i : nat) :
  map f l !! i = option_map f (l !! i).
Proof.
  revert i. induction l as [|x l IH]; intros [|i]; simpl; try reflexivity.
  apply IH.
Qed.

Lemma count_occ_positions_from (start : nat) (p : mask -> bool)
    (l : list mask) (a : nat) :
  count_occ Nat.eq_dec (positions_from start p l) a
  = match l !! (a - start)%nat with
    | Some m => if (start <=? a)%nat && p m then 1%nat else 0%nat
    | None => 0%nat
    end.
Proof.
  revert start. induction l as [|m l IH]; intros start; simpl.
  - destruct (a - start)%nat; reflexivity.
  - assert (count_occ Nat.eq_dec
              (if p m then start :: positions_from (S start) p l
               else positions_from (S start) p l) a
            = ((if p m then if Nat.eq_dec start a then 1 else 0 else 0)
               + count_occ Nat.eq_dec (positions_from (S start) p l) a)%nat) as ->.
    { destruct (p m); simpl; [|reflexivity].
      destruct (Nat.eq_dec start a); reflexivity. }
    rewrite IH.
    destruct (Nat.eq_dec start a) as [->|Hne].
    + rewrite Nat.sub_diag, Nat.leb_refl.
      replace (a - S a)%nat with 0%nat by lia.
      assert ((S a <=? a)%nat = false) as -> by (apply Nat.leb_gt; lia).
      change ((m :: l) !! 0%nat) with (Some m).
      destruct (l !! 0%nat), (p m); reflexivity.
    + destruct (Nat.leb_spec start a) as [Hle|Hgt].
      * replace (a - start)%nat with (S (a - S start)) by lia.
        change ((m :: l) !! S (a - S start)) with (l !! (a - S start)%nat).
        assert ((S start <=? a)%nat = true) as -> by (apply Nat.leb_le; lia).
        destruct (p m); reflexivity.
      * replace (a - start)%nat with 0%nat by lia.
        replace (a - S start)%nat with 0%nat by lia.
        assert ((S start <=? a)%nat = false) as -> by (apply Nat.leb_gt; lia).
        change ((m :: l) !! 0%nat) with (Some m).
        destruct (l !! 0%nat), (p m); reflexivity.
Qed.

Lemma count_occ_seq_below (n k a : nat) :
  (a < n)%nat -> count_occ Nat.eq_dec (seq n k) a = 0%nat.
Proof.
  intros Ha. apply count_occ_not_In. intros Hin.
  apply in_seq in Hin. lia.
Qed.

Lemma all_final_masks_count_occ (h w : Z) (merged_masks : list mask)
    (all_final : list nat) (a : nat) (m : mask) :
  all_final_masks h w merged_masks = Some all_final ->
  merged_masks !! a = Some m ->
  (is_other_mask h w m = true ->
     count_occ Nat.eq_dec all_final a = 2%nat)
  /\ (is_bottom_candidate h w m = true -> is_info_region m = false ->
        count_occ Nat.eq_dec all_final a = 1%nat)
  /\ (is_right_candidate h w m = true ->
        count_occ Nat.eq_dec all_final a = 0%nat).
Proof.
  intros Hall Hl.
  assert (a < length merged_masks)%nat as Ha by (eapply lookup_lt_Some, Hl).
  unfold all_final_masks in Hall.
  destruct merged_masks as [|m0 l] eqn:Hm; [discriminate|].
  rewrite <- Hm in *. clear Hm m0 l.
  destruct (h * w =? 0); [discriminate|]. injection Hall as <-.
  rewrite !count_occ_app, !count_occ_positions_from, Nat.sub_0_r.
  rewrite lookup_map_list, Hl. simpl.
  rewrite count_occ_seq_below by exact Ha.
  destruct (Nat.eq_dec _ a) as [He|_]; [lia|].
  unfold is_other_mask, mark_right.
  assert (is_right_candidate h w m = true -> is_bottom_candidate h w m = false)
    as Hexcl.
  { unfold is_right_candidate. destruct (bbox m) as [[[x y] bw] bh].
    destruct (is_bottom_candidate h w m); [discriminate|reflexivity]. }
  split; [|split].
  - intros Ho. apply andb_true_iff in Ho as [Ho Hi].
    apply andb_true_iff in Ho as [Hb Hr].
    apply negb_true_iff in Hb, Hr, Hi. rewrite Hb, Hr, Hi. reflexivity.
  - intros Hb Hi.
    destruct (is_right_candidate h w m) eqn:Hr;
      [rewrite (Hexcl eq_refl) in Hb; discriminate|].
    rewrite Hb, Hi. reflexivity.
  - intros Hr. rewrite Hr, (Hexcl Hr). reflexivity.
Qed.

(** X23.  In [all_final_masks] a dict of [merged_masks] that is neither
    a candidate nor an info region occurs twice (once from
    [non_info_masks], once passed through by the InfoRegionDetector and
    the RegionExpander), a bottom candidate that is not an info region
    occurs once, beside the merged region built from it, and the dict
    of a right candidate does not occur (only its expanded copy
    does). *)
Theorem all_final_masks_counts (h w : Z) (merged_masks : list mask)
    (all_final : list nat) (a : nat) (m : mask) :
  all_final_masks h w merged_masks = Some all_final ->
  merged_masks !! a = Some m ->
  (is_other_mask h w m = true ->
     count_occ Nat.eq_dec all_final a = 2%nat)
  /\ (is_bottom_candidate h w m = true -> is_info_region m = false ->
        count_occ Nat.eq_dec all_final a = 1%nat)
  /\ (is_right_candidate h w m = true ->
        count_occ Nat.eq_dec all_final a = 0%nat).
Proof.
  intros Hall Hl.
  exact (all_final_masks_count_occ h w merged_masks all_final a m Hall Hl).
Qed.

Lemma all_final_masks_counts_witness :
  count_occ Nat.eq_dec [0%nat; 1%nat; 2%nat] 0%nat = 1%nat.
Proof.
  apply (all_final_masks_counts 1000 1000 [title_left] [0%nat; 1%nat; 2%nat]
           0%nat title_left); reflexivity.
Defined.

Lemma positions_from_map (start : nat) (p : mask -> bool) (f : mask -> mask)
    (l : list mask) :
  positions_from start p (map f l) = positions_from start (fun m => p (f m)) l.
Proof.
  revert start. induction l as [|m l IH]; intros start; simpl; [reflexivity|].
  rewrite IH. reflexivity.
Qed.

Lemma lookup_after_prefix {A} (pre l : list A) (i : nat) :
  (pre ++ l) !! (length pre + i)%nat = l !! i.
Proof.
  induction pre as [|x pre IH]; simpl; [reflexivity|exact IH].
Qed.

Lemma omap_positions_from (f : mask -> mask) (p : mask -> bool)
    (pre l rest : list mask) :
  omap (fun a => (pre ++ map f l ++ rest) !! a)
    (positions_from (length pre) p l)
  = map f (List.filter p l).
Proof.
  revert pre. induction l as [|m l IH]; intros pre; [reflexivity|].
  assert (omap (fun a => (pre ++ map f (m :: l) ++ rest) !! a)
            (positions_from (S (length pre)) p l)
          = map f (List.filter p l)) as Hrest.
  { specialize (IH (pre ++ [f m])).
    rewrite length_app in IH. simpl in IH.
    rewrite Nat.add_1_r, <- app_assoc in IH. exact IH. }
  simpl positions_from. simpl List.filter.
  destruct (p m); [|exact Hrest].
  rewrite omap_cons_eq.
  pose proof (lookup_after_prefix pre (map f (m :: l) ++ rest) 0) as Hl.
  rewrite Nat.add_0_r in Hl. rewrite Hl. simpl.
  rewrite <- Hrest. reflexivity.
Qed.

Lemma omap_seq_lookup {A} (pre l rest : list A) :
  omap (fun a => (pre ++ l ++ rest) !! a) (seq (length pre) (length l)) = l.
Proof.
  revert pre. induction l as [|x l IH]; intros pre; [reflexivity|].
  simpl seq. rewrite omap_cons_eq.
  pose proof (lookup_after_prefix pre ((x :: l) ++ rest) 0) as Hl.
  rewrite Nat.add_0_r in Hl. rewrite Hl. simpl. f_equal.
  specialize (IH (pre ++ [x])).
  rewrite length_app in IH. simpl in IH.
  rewrite Nat.add_1_r, <- app_assoc in IH. exact IH.
Qed.

Lemma omap_last_lookup {A} (pre l : list A) (x : A) :
  omap (fun a => (pre ++ l ++ [x]) !! a) [(length pre + length l)%nat] = [x].
Proof.
  rewrite omap_cons_eq. cbv beta.
  rewrite (lookup_after_prefix pre (l ++ [x]) (length l)).
  pose proof (lookup_after_prefix l [x] 0) as Hl.
  rewrite Nat.add_0_r in Hl. rewrite Hl. reflexivity.
Qed.

Lemma omap_app_eq {A B} (f : A -> option B) (l1 l2 : list A) :
  omap f (l1 ++ l2) = omap f l1 ++ omap f l2.
Proof.
  induction l1 as [|a l1 IH]; [reflexivity|].
  rewrite <- app_comm_cons, !omap_cons_eq, IH.
  destruct (f a); reflexivity.
Qed.

Lemma filter_filter_andb {A} (p q : A -> bool) (l : list A) :
  List.filter p (List.filter q l) = List.filter (fun x => q x && p x) l.
Proof.
  induction l as [|x l IH]; simpl; [reflexivity|].
  destruct (q x); simpl; [|exact IH].
  destruct (p x); rewrite IH; reflexivity.
Qed.

Lemma filter_map_comm {A} (p : A -> bool) (f : A -> A) (l : list A) :
  List.filter p (map f l) = map f (List.filter (fun x => p (f x)) l).
Proof.
  induction l as [|x l IH]; simpl; [reflexivity|].
  destruct (p (f x)); simpl; rewrite IH; reflexivity.
Qed.

Lemma map_expand_mask_non_info (h w : Z) (p : mask -> bool) (l : list mask) :
  map (expand_mask h w)
    (List.filter (fun m => p m && negb (is_info_region m)) l)
  = List.filter (fun m => p m && negb (is_info_region m)) l.
Proof.
  induction l as [|m l IH]; simpl; [reflexivity|].
  destruct (p m && negb (is_info_region m)) eqn:E; [|exact IH].
  simpl. rewrite IH. f_equal.
  apply andb_true_iff in E as [_ E]. apply negb_true_iff in E.
  unfold expand_mask. rewrite E. reflexivity.
Qed.

Lemma map_expand_mask_other (h w : Z) (l : list mask) :
  map (expand_mask h w) (List.filter (is_other_mask h w) l)
  = List.filter (is_other_mask h w) l.
Proof. apply (map_expand_mask_non_info h w). Qed.

Lemma map_mark_right_other (h w : Z) (l : list mask) :
  map (mark_right h w) (List.filter (is_other_mask h w) l)
  = List.filter (is_other_mask h w) l.
Proof.
  induction l as [|m l IH]; simpl; [reflexivity|].
  destruct (is_other_mask h w m) eqn:E; [|exact IH].
  simpl. rewrite IH. f_equal. unfold is_other_mask in E.
  apply andb_true_iff in E as [E _]. apply andb_true_iff in E as [_ E].
  apply negb_true_iff in E. unfold mark_right. rewrite E. reflexivity.
Qed.

(** X24.  The store model agrees with the stage functions: the list of
    addresses exists exactly when [detect_info_regions] returns, and the
    dicts the addresses point to are, in order, the non-info dicts of
    [merged_masks] (after the detector has marked the right
    candidates) followed by [expand_info_regions] applied to the
    detector's output with the protected region appended. *)
Theorem all_final_masks_values (h w : Z) (merged_masks : list mask) :
  (all_final_masks h w merged_masks = None
   <-> detect_info_regions h w merged_masks = None)
  /\ forall all_final info_masks,
       all_final_masks h w merged_masks = Some all_final ->
       detect_info_regions h w merged_masks = Some info_masks ->
       omap (fun a => final_store h w merged_masks !! a) all_final
       = List.filter (fun m => negb (is_info_region m))
           (map (mark_right h w) merged_masks)
         ++ expand_info_regions h w
              (info_masks ++ [create_bottom_info_region h w]).
Proof.
  unfold all_final_masks, detect_info_regions.
  destruct merged_masks as [|m0 l] eqn:Hm.
  { split; [split; discriminate|]. intros ? ? [= <-] [= <-]. reflexivity. }
  rewrite <- Hm. clear Hm m0 l.
  destruct (h * w =? 0); [split; [split; reflexivity|discriminate]|].
  split; [split; discriminate|].
  intros all_final info_masks [= <-] [= <-].
  fold (merged_bottom_part h w merged_masks).
  set (part := merged_bottom_part h w merged_masks).
  set (rights := map (fun m => set_info m [right_info])
                     (List.filter (is_right_candidate h w) merged_masks)).
  assert (length (List.filter (is_right_candidate h w) merged_masks)
          = length rights) as -> by (unfold rights; rewrite length_map; reflexivity).
  rewrite <- length_app.
  unfold final_store, expanded_copies. fold part. fold rights.
  rewrite (app_assoc part rights), map_app. simpl map at 3.
  set (copies := map (expand_mask h w) (part ++ rights)).
  set (prot := expand_mask h w (create_bottom_info_region h w)).
  assert (length (part ++ rights) = length copies) as ->
      by (unfold copies; rewrite length_map; reflexivity).
  rewrite !omap_app_eq. f_equal; [|].
  - rewrite positions_from_map.
    rewrite (omap_positions_from (mark_right h w) _ [] merged_masks
               (copies ++ [prot])).
    rewrite filter_map_comm. reflexivity.
  - unfold expand_info_regions.
    rewrite filter_filter_andb.
    rewrite <- !app_assoc, !map_app. simpl map at 4.
    assert (List.filter
              (fun x => negb (is_bottom_candidate h w x)
                        && negb (is_right_candidate h w x)
                        && negb (is_info_region x)) merged_masks
            = List.filter (is_other_mask h w) merged_masks) as -> by reflexivity.
    rewrite map_expand_mask_other.
    rewrite (app_assoc (map (expand_mask h w) part)), <- map_app.
    fold copies.
    change (map (expand_mask h w) [create_bottom_info_region h w]) with [prot].
    rewrite <- (length_map (mark_right h w) merged_masks).
    f_equal; [|f_equal].
    + apply (omap_seq_lookup (map (mark_right h w) merged_masks) copies [prot]).
    + rewrite (omap_positions_from (mark_right h w) _ [] merged_masks
                 (copies ++ [prot])).
      apply map_mark_right_other.
    + apply (omap_last_lookup (map (mark_right h w) merged_masks) copies prot).
Qed.

Lemma all_final_masks_values_witness :
  omap (fun a => final_store 1000 1000 [title_left] !! a) [0%nat; 1%nat; 2%nat]
  = List.filter (fun m => negb (is_info_region m))
      (map (mark_right 1000 1000) [title_left])
    ++ expand_info_regions 1000 1000
         ([set_info (Mask (280, 840, 140, 160) 9000 (1 # 1) (9 # 10)
                       false [] true (Some 1) false false false None false)
             [bottom_info; merged_region]]
          ++ [create_bottom_info_region 1000 1000]).
Proof.
  apply (proj2 (all_final_masks_values 1000 1000 [title_left]));
    reflexivity.
Defined.

Lemma all_final_masks_last (h w : Z) (merged_masks : list mask)
    (all_final : list nat) :
  all_final_masks h w merged_masks = Some all_final ->
  exists front p,
    all_final = front ++ [p]
    /\ (p < length (final_store h w merged_masks))%nat.
Proof.
  unfold all_final_masks.
  destruct merged_masks as [|m0 l] eqn:Hm.
  { intros [= <-]. exists [], 0%nat. split; [reflexivity|simpl; lia]. }
  rewrite <- Hm. clear Hm m0 l.
  destruct (h * w =? 0); [discriminate|]. intros [= <-].
  eexists. eexists. split.
  { rewrite !app_assoc. reflexivity. }
  unfold final_store, expanded_copies.
  rewrite !length_app, !length_map, !length_app, !length_map. simpl. lia.
Qed.

Lemma omap_lookup_snoc_nonempty {A} (l : list A) (front : list nat) (p : nat) :
  (p < length l)%nat -> omap (fun a => l !! a) (front ++ [p]) <> [].
Proof.
  intros Hp. destruct (lookup_lt_is_Some_2 l p Hp) as [v Hv].
  rewrite omap_app_eq, omap_cons_eq. cbv beta. rewrite Hv.
  intros Hnil. apply app_eq_nil in Hnil as [_ Hnil]. discriminate.
Qed.

Lemma post_process_text_regions_length (h w : Z) (masks : list nat)
    (st st' : store) :
  post_process_text_regions h w masks st = Some st' -> length st' = length st.
Proof.
  intros Hrun. symmetry.
  eapply Forall2_length, post_process_text_regions_flags, Hrun.
Qed.

Lemma remove_duplicate_masks_nonempty (masks out : list mask) (thr : Q) :
  masks <> [] -> remove_duplicate_masks masks thr = Some out -> out <> [].
Proof.
  intros Hne Hrun. unfold remove_duplicate_masks in Hrun.
  destruct masks as [|m masks]; [congruence|].
  eapply dedup_loop_nonempty; [exact Hrun|right].
  intros Hnil.
  pose proof (Permutation_length (sorted_reverse_perm quality (m :: masks))) as Hl.
  rewrite Hnil in Hl. discriminate.
Qed.

Lemma final_masks_nonempty (masks : list mask) :
  masks <> [] -> final_masks masks <> [].
Proof.
  intros Hne Hnil. apply (f_equal length) in Hnil.
  unfold final_masks, sort_masks_by_importance in Hnil.
  rewrite length_take in Hnil.
  rewrite <- (Permutation_length
                (sorted_reverse_perm calculate_importance_score masks)) in Hnil.
  destruct masks; [congruence|]. simpl in Hnil. lia.
Qed.

Lemma final_masks_of_merged_reached (h w : Z) (merged_masks : list mask) :
  final_masks_of_merged h w merged_masks <> ReturnedEmpty
  /\ forall final,
       final_masks_of_merged h w merged_masks = Reached final ->
       final <> [] /\ (length final <= 20)%nat
       /\ StronglySorted (ge_by calculate_importance_score) final.
Proof.
  unfold final_masks_of_merged.
  destruct (all_final_masks h w merged_masks) as [all_final|] eqn:Hall;
    [|split; [discriminate|intros ? [=]]].
  destruct (post_process_text_regions h w all_final (final_store h w merged_masks))
    as [st'|] eqn:Hpost; [|split; [discriminate|intros ? [=]]].
  assert (omap (fun a => st' !! a) all_final <> []) as Hne.
  { destruct (all_final_masks_last h w merged_masks all_final Hall)
      as (front & p & -> & Hp).
    rewrite <- (post_process_text_regions_length _ _ _ _ _ Hpost) in Hp.
    apply omap_lookup_snoc_nonempty, Hp. }
  destruct (remove_duplicate_masks (omap (fun a => st' !! a) all_final) (4 # 10))
    as [deduped|] eqn:Hd; [|split; [discriminate|intros ? [=]]].
  pose proof (remove_duplicate_masks_nonempty _ _ _ Hne Hd) as Hdne.
  destruct deduped as [|d ds]; [congruence|].
  split; [discriminate|]. intros final [= <-].
  split; [apply final_masks_nonempty; discriminate|]. split.
  - unfold final_masks. rewrite length_take. lia.
  - unfold final_masks. apply StronglySorted_take, sorted_reverse_sorted.
Qed.

(** X25.  [split_image] ends with the empty result only when the
    generators proposed nothing.  With at least one proposal it either
    stops with an error or reaches [final_masks], which then holds
    between 1 and 20 regions in non-increasing order of importance: the
    protected bottom region is always among the candidates of the last
    deduplication, so the branch for an empty deduplicated list is never
    taken. *)
Theorem split_image_final_masks_nonempty
    (dbscan_labels : Q -> list (Q * Q) -> list nat)
    (h w : Z) (proposals : list proposal) :
  (split_image_final_masks dbscan_labels h w proposals = ReturnedEmpty
   <-> proposals = [])
  /\ forall final,
       split_image_final_masks dbscan_labels h w proposals = Reached final ->
       final <> [] /\ (length final <= 20)%nat
       /\ StronglySorted (ge_by calculate_importance_score) final.
Proof.
  unfold split_image_final_masks, merged_masks_of.
  destruct proposals as [|p ps] eqn:Hp.
  { split; [split; reflexivity|discriminate]. }
  rewrite <- Hp.
  destruct (map mask_of_proposal proposals) as [|m0 ms] eqn:Hall.
  { apply map_eq_nil in Hall. congruence. }
  rewrite <- Hall. clear Hall m0 ms.
  assert (proposals <> []) as Hne by congruence. clear Hp p ps.
  destruct (filter_masks_by_engineering_criteria h w _) as [filtered|];
    [|split; [split; [discriminate|contradiction]|discriminate]].
  destruct (remove_duplicate_masks filtered (3 # 10)) as [unique|];
    [|split; [split; [discriminate|contradiction]|discriminate]].
  destruct (final_masks_of_merged_reached h w
              (merge_nearby_masks dbscan_labels unique 100)) as [H1 H2].
  split; [split; [contradiction|contradiction]|exact H2].
Qed.

Lemma split_image_final_masks_nonempty_witness :
  exists final,
    split_image_final_masks one_cluster 1000 1000 title_proposals = Reached final
    /\ final <> [].
Proof.
  eexists. split; [vm_compute; reflexivity|].
  eapply (proj2 (split_image_final_masks_nonempty one_cluster 1000 1000
                   title_proposals)).
  vm_compute. reflexivity.
Defined.

Lemma lookup_map_app {A B} (f : A -> B) (l : list A) (rest : list B)
    (i : nat) (x : A) :
  l !! i = Some x -> (map f l ++ rest) !! i = Some (f x).
Proof.
  revert i. induction l as [|y l IH]; intros [|i] Hl; simpl in *;
    try discriminate.
  - injection Hl as ->. reflexivity.
  - apply IH, Hl.
Qed.

(** X26.  A region of [merged_masks] that is neither a candidate nor an
    info region is refined twice by the last stages of [split_image]:
    being listed twice in [all_final_masks] as one dict, it leaves
    [post_process_text_regions] with the result of two successive
    refinements of its original value. *)
Theorem plain_region_refined_twice (h w : Z) (merged_masks : list mask)
    (all_final : list nat) (st' : store) (a : nat) (m : mask) :
  all_final_masks h w merged_masks = Some all_final ->
  post_process_text_regions h w all_final (final_store h w merged_masks)
  = Some st' ->
  merged_masks !! a = Some m ->
  is_other_mask h w m = true ->
  exists m', st' !! a = Some m' /\ refine_times h w 2 m = Some m'.
Proof.
  intros Hall Hpost Hl Hother.
  destruct (all_final_masks_count_occ h w merged_masks all_final a m Hall Hl)
    as (Hcount & _). rewrite <- (Hcount Hother).
  apply (post_process_text_regions_count_occ h w all_final
           (final_store h w merged_masks) st' a m Hpost).
  assert (mark_right h w m = m) as Hmark.
  { unfold is_other_mask in Hother.
    apply andb_true_iff in Hother as [Hother _].
    apply andb_true_iff in Hother as [_ Hr]. apply negb_true_iff in Hr.
    unfold mark_right. rewrite Hr. reflexivity. }
  pose proof (lookup_map_app (mark_right h w) merged_masks
                (expanded_copies h w merged_masks) a m Hl) as Hst.
  rewrite Hmark in Hst. exact Hst.
Qed.

Lemma plain_region_refined_twice_witness :
  exists st' m',
    post_process_text_regions 1000 1000 [0%nat; 0%nat; 1%nat]
      (final_store 1000 1000 [band_view]) = Some st'
    /\ st' !! 0%nat = Some m'
    /\ refine_times 1000 1000 2 band_view = Some m'
    /\ bbox m' = (4, 689, 392, 102).
Proof.
  assert (exists st',
            post_process_text_regions 1000 1000 [0%nat; 0%nat; 1%nat]
              (final_store 1000 1000 [band_view]) = Some st') as [st' Hpost]
      by (eexists; vm_compute; reflexivity).
  destruct (plain_region_refined_twice 1000 1000 [band_view]
              [0%nat; 0%nat; 1%nat] st' 0%nat band_view
              eq_refl Hpost eq_refl eq_refl) as (m' & Hm' & Ht).
  exists st', m'. split; [exact Hpost|]. split; [exact Hm'|].
  split; [exact Ht|].
  vm_compute in Ht. injection Ht as <-. reflexivity.
Defined.

(** ** The zone test of the filter and of the text refiner *)

(** X27.  On an image with sides below [2^40], the zone test
    [y > h * 0.7 or x > w * 0.7] of [filter_masks_by_engineering_criteria]
    and [post_process_text_regions] holds for every region with
    [y > 0.7 h] or [x > 0.7 w], and a region for which it holds has
    [y >= 0.7 h] or [x >= 0.7 w]: the binary64 product can only change
    the answer for a region that starts exactly on one of the two
    lines. *)
Theorem zone_test_threshold (h w : Z) (m : mask) :
  0 <= h < 2 ^ 40 -> 0 <= w < 2 ^ 40 ->
  (7 * h < 10 * box_y (bbox m) \/ 7 * w < 10 * box_x (bbox m) ->
     in_info_zone h w m = true)
  /\ (in_info_zone h w m = true ->
        7 * h <= 10 * box_y (bbox m) \/ 7 * w <= 10 * box_x (bbox m)).
Proof.
  intros Hh Hw. unfold in_info_zone.
  destruct (bbox m) as [[[x y] bw] bh]. simpl.
  destruct (above_0_7_spec h y Hh) as [Hy1 Hy2].
  destruct (above_0_7_spec w x Hw) as [Hx1 Hx2].
  split.
  - intros [H|H]; apply orb_true_iff; [left; apply Hy1, H|right; apply Hx1, H].
  - intros [H|H]%orb_true_iff; [left; apply Hy2, H|right; apply Hx2, H].
Qed.

Lemma zone_test_threshold_witness : in_info_zone 100 100 note_top_right = true.
Proof.
  apply (zone_test_threshold 100 100 note_top_right); simpl; lia.
Defined.

(** On the line itself the rounding of [h * 0.7] decides: [720 * 0.7]
    is [503.99999999999994], so a region with [y = 504] is in the zone
    of an image 720 high, and the filter keeps it with its tag although
    it touches the left margin with a small area; [1000 * 0.7] is
    [700.0], so a region with [y = 700] is outside the zone of an image
    1000 high. *)
Lemma zone_test_on_the_line :
  float_mul (float_of_int 720) float_0_7
  = S754_finite false 8866461766385663 (-44)
  /\ in_info_zone 720 1280 on_line_720 = true
  /\ margin_drop 720 1280 on_line_720 = false
  /\ omap (filter_mask 720 1280) [on_line_720]
     = [tag_protected 720 1280 on_line_720]
  /\ is_protected_text (tag_protected 720 1280 on_line_720) = true
  /\ float_mul (float_of_int 1000) float_0_7
     = S754_finite false 6157265115545600 (-43)
  /\ in_info_zone 1000 1000 on_line_1000 = false.
Proof. vm_compute. repeat split; reflexivity. Qed.
